(** * exporter.cpp: the OBJ/MTL scene exporter, embedded and verified

    A shallow embedding of [tools/exporter.cpp]: the material library
    parser [_load_mtl_file], the three scanning passes of [_load_obj],
    the vertex deduplication loop and the tangent calculator
    [calculate_tangets].

    Conventions of the embedding:
    - C strings are [string]s. A [char] array of N bytes is the string
      in it: fewer than N characters and their terminator, or N
      characters and no terminator, as [strncpy] can leave them. A
      word that [sscanf] stores beyond the room of an array is a write
      outside the array.
    - [uint32_t] and [int] are [Z] with the conversions written out.
    - [float] is abstract: the arithmetic the program uses is collected
      in the class [FloatOps].
    - Every access outside an array, failed [assert], [exit] and
      exception nobody catches is an explicit error of the [result]
      monad. *)

From Stdlib Require Import ZArith Ascii String Lia QArith.
From stdpp Require Import base option list gmap strings numbers pretty.

Local Open Scope string_scope.
Local Open Scope Z_scope.
Local Open Scope list_scope.

(** ** Errors *)

Inductive array_name :=
  | Materials | Meshes | Models | AllTriangles
  | Positions | Texcoords | Normals | Vertices | Indices
  (* the [char] arrays: [line_header], [mtl_filename] and
     [material_name] on the stack, and the fields [MeshData::name],
     [MaterialData::name], [albedo_tex] and [normal_tex] *)
  | LineHeader | MtlFilename | MaterialNameBuffer
  | MeshName | MaterialName | AlbedoTex | NormalTex.

Inductive error :=
  | AssertFailed
  | Exit (status : Z) (message : string)
  | OutOfBounds (a : array_name)
  | BadArrayNewLength.   (* [std::bad_array_new_length], not caught *)

Inductive result (A : Type) :=
  | Ok (a : A)
  | Err (e : error).
Arguments Ok {A} a.
Arguments Err {A} e.

#[global] Instance result_ret : MRet result := λ A a, Ok a.
#[global] Instance result_bind : MBind result := λ A B k r,
  match r with
  | Ok a => k a
  | Err e => Err e
  end.

Fixpoint mapM_result {A B} (f : A → result B) (l : list A) : result (list B) :=
  match l with
  | [] => Ok []
  | a :: l' => b ← f a; bs ← mapM_result f l'; Ok (b :: bs)
  end.

(** A loop over the elements of [l] that an error leaves at once. *)
Fixpoint for_each {A S} (body : A → S → result S) (l : list A) (s : S)
    : result S :=
  match l with
  | [] => Ok s
  | a :: l' => s' ← body a s; for_each body l' s'
  end.

(** [assert(c)] of [assert.h]: a failed assertion stops the program. *)
Definition assert (c : bool) : result unit :=
  if c then Ok () else Err AssertFailed.

(** [a[i]] on an array of the C heap or a [std::vector] with
    [operator[]]: nothing is checked in the source, so an index outside
    the array is an error here. *)
Definition read {A} (a : array_name) (l : list A) (i : Z) : result A :=
  if bool_decide (0 ≤ i) then
    match l !! Z.to_nat i with
    | Some x => Ok x
    | None => Err (OutOfBounds a)
    end
  else Err (OutOfBounds a).

Definition write {A} (a : array_name) (l : list A) (i : Z) (x : A) : result (list A) :=
  if bool_decide (0 ≤ i < Z.of_nat (length l))
  then Ok (<[Z.to_nat i := x]> l)
  else Err (OutOfBounds a).

(** ** Machine integers *)

Definition to_uint32 (z : Z) : Z := z mod 2 ^ 32.
Definition to_int (z : Z) : Z := (z + 2 ^ 31) mod 2 ^ 32 - 2 ^ 31.

(** ** Floating point

    The program only moves [float]s around, subtracts, multiplies and
    divides them, and reads them with [%f]. *)

Class FloatOps := {
  float : Type;
  f_half : float;            (* 0.5f *)
  f_one : float;             (* 1.0f *)
  f_sixteen : float;         (* 16.0f *)
  fsub : float → float → float;
  fmul : float → float → float;
  fdiv : float → float → float;
  (** [%f]: the value read and the rest of the input, after leading
      white space has been skipped; [None] when no number is there. *)
  scan_float : string → option (float * string);
}.

(** ** Characters and [sscanf] *)

Definition nl : ascii := "010"%char.

Definition isspace (c : ascii) : bool :=
  let n := nat_of_ascii c in
  bool_decide (n = 32 ∨ 9 ≤ n ≤ 13)%nat.

Definition isdigit (c : ascii) : bool :=
  let n := nat_of_ascii c in
  bool_decide (48 ≤ n ≤ 57)%nat.

Fixpoint skip_space (s : string) : string :=
  match s with
  | String c s' => if isspace c then skip_space s' else s
  | EmptyString => EmptyString
  end.

(** The longest prefix without white space, and what follows it. *)
Fixpoint span_token (s : string) : string * string :=
  match s with
  | String c s' =>
      if isspace c then (EmptyString, s)
      else let '(tok, rest) := span_token s' in (String c tok, rest)
  | EmptyString => (EmptyString, EmptyString)
  end.

Fixpoint span_digits (s : string) : list ascii * string :=
  match s with
  | String c s' =>
      if isdigit c then let '(ds, rest) := span_digits s' in (c :: ds, rest)
      else ([], s)
  | EmptyString => ([], EmptyString)
  end.

Definition digits_value (ds : list ascii) : Z :=
  foldl (λ acc c, 10 * acc + (Z.of_nat (nat_of_ascii c) - 48)) 0 ds.

(** What a conversion does on its input. *)
Inductive conv (A : Type) :=
  | Conv (a : A) (rest : string)   (* converted and assigned *)
  | NoMatch                        (* matching failure *)
  | NoInput.                       (* input failure: end of the string *)
Arguments Conv {A} a rest.
Arguments NoMatch {A}.
Arguments NoInput {A}.

(** [%s] *)
Definition scan_s (s : string) : conv string :=
  match skip_space s with
  | EmptyString => NoInput
  | s' => let '(tok, rest) := span_token s' in Conv tok rest
  end.

(** [%d] as the C library does it: the digits are converted as by
    [strtol], which stops at the ends of the range of [long], and the
    low 32 bits of that number are what the [int] receives. *)
Definition to_long (z : Z) : Z := Z.max (- 2 ^ 63) (Z.min (2 ^ 63 - 1) z).

Definition scan_d (s : string) : conv Z :=
  match skip_space s with
  | EmptyString => NoInput
  | String c s' as s0 =>
      let '(neg, body) :=
        if Ascii.eqb c "-" then (true, s')
        else if Ascii.eqb c "+" then (false, s')
        else (false, s0) in
      match span_digits body with
      | ([], _) => NoMatch
      | (ds, rest) =>
          let number := if neg : bool then - digits_value ds
                        else digits_value ds in
          Conv (to_int (to_long number)) rest
      end
  end.

Section scanf.
Context `{FloatOps}.

(** [%f] *)
Definition scan_f (s : string) : conv float :=
  match skip_space s with
  | EmptyString => NoInput
  | s' => match scan_float s' with
          | Some (x, rest) => Conv x rest
          | None => NoMatch
          end
  end.

Inductive directive :=
  | D_s | D_d | D_f        (* %s %d %f *)
  | D_space                (* white space in the format *)
  | D_char (c : ascii).    (* any other character *)

Inductive value :=
  | V_s (s : string)
  | V_d (z : Z)
  | V_f (x : float).

(** The format string as the source writes it; backslash-n is the
    escape of a C literal. *)
Fixpoint parse_format (fmt : string) : list directive :=
  match fmt with
  | String "%" (String "s" fmt') => D_s :: parse_format fmt'
  | String "%" (String "d" fmt') => D_d :: parse_format fmt'
  | String "%" (String "f" fmt') => D_f :: parse_format fmt'
  | String "\" (String "n" fmt') => D_space :: parse_format fmt'
  | String c fmt' =>
      (if isspace c then D_space else D_char c) :: parse_format fmt'
  | EmptyString => []
  end.

(** The values assigned, in order, and whether the scan stopped on an
    input failure. *)
Fixpoint run_format (ds : list directive) (input : string) : list value * bool :=
  let assign {A} (c : conv A) (inj : A → value) (ds' : list directive) :=
    match c with
    | Conv a rest => let '(vs, eof) := run_format ds' rest in (inj a :: vs, eof)
    | NoMatch => ([], false)
    | NoInput => ([], true)
    end in
  match ds with
  | [] => ([], false)
  | D_s :: ds' => assign (scan_s input) V_s ds'
  | D_d :: ds' => assign (scan_d input) V_d ds'
  | D_f :: ds' => assign (scan_f input) V_f ds'
  | D_space :: ds' => run_format ds' (skip_space input)
  | D_char c :: ds' =>
      match input with
      | String c' rest =>
          if Ascii.eqb c c' then run_format ds' rest else ([], false)
      | EmptyString => ([], true)
      end
  end.

(** [sscanf(input, fmt, ...)]: the return value ([EOF] is [-1]) and
    the values stored through the pointer arguments, first to last. *)
Definition sscanf (input fmt : string) : Z * list value :=
  match run_format (parse_format fmt) input with
  | ([], true) => (-1, [])
  | (vs, _) => (Z.of_nat (length vs), vs)
  end.

End scanf.

(** ** The line scanner *)

(** The record up to the first newline, and the cursor behind it. *)
Fixpoint split_line (buffer : string) : string * option string :=
  match buffer with
  | String c rest =>
      if Ascii.eqb c nl then (EmptyString, Some rest)
      else let '(l, next) := split_line rest in (String c l, next)
  | EmptyString => (EmptyString, None)
  end.

Fixpoint string_take (n : nat) (s : string) : string :=
  match n, s with
  | S n', String c s' => String c (string_take n' s')
  | _, _ => EmptyString
  end.

Fixpoint string_drop (n : nat) (s : string) : string :=
  match n, s with
  | S n', String _ s' => string_drop n' s'
  | _, _ => s
  end.

(** Modelled from the spec: [get_line_from_buffer] is declared in
    [utility.h], which is not part of the sources at hand. Following the
    Text Line Scanner of the spec it copies the next newline-delimited
    record into [line], cut to the size of the working buffer, and
    returns the cursor behind the record, or [NULL] ([None]) after the
    last one. *)
Definition get_line_from_buffer (line_size : nat) (buffer : string)
    : string * option string :=
  let '(l, next) := split_line buffer in (string_take (line_size - 1) l, next).

(** One turn of a scanning loop: where the record starts in the buffer,
    the copy in [line], and the cursor [get_line_from_buffer] returned. *)
Record record := {
  this_line : string;
  line : string;
  next_line : option string;
}.

Definition cursor_length (file_data : option string) : nat :=
  match file_data with
  | Some buffer => S (String.length buffer)
  | None => O
  end.

Fixpoint records_upto (fuel : nat) (file_data : option string) : list record :=
  match fuel, file_data with
  | S fuel', Some buffer =>
      let '(l, next) := get_line_from_buffer 1024 buffer in
      {| this_line := buffer; line := l; next_line := next |}
        :: records_upto fuel' next
  | _, _ => []
  end.

(** The records a loop
    [while(1) { if(file_data == NULL) break; char line[1024] = {0};
                file_data = get_line_from_buffer(line, sizeof(line), file_data); ... }]
    goes through. The cursor gets shorter with every record, so the
    length of the buffer bounds the number of turns. *)
Definition records (file_data : option string) : list record :=
  records_upto (cursor_length file_data) file_data.

(** The loop itself: [body] on every record until the cursor is [NULL],
    unless an error stops the program. *)
Definition while_lines {S} (body : record → S → result S)
    (rs : list record) (s : S) : result S :=
  for_each body rs s.

Section text.
Context `{FloatOps}.

(** The word [sscanf(l, "%s", ...)] stores: the first word of [l];
    nothing is stored when [l] has no word. *)
Definition first_word (l : string) : string :=
  match sscanf l "%s" with
  | (_, [V_s h]) => h
  | _ => EmptyString
  end.

(** A word that [%s] stores takes its characters and a terminator: it
    stays inside a [char] array of [size] bytes when it has fewer than
    [size] characters. *)
Definition fits (a : array_name) (size : nat) (s : string) : result unit :=
  if bool_decide (String.length s < size)%nat then Ok ()
  else Err (OutOfBounds a).

(** [char line_header[size] = {0}; sscanf(line, "%s", line_header);]
    The later calls of [sscanf] on the same [line] store this word in
    [line_header] once more. *)
Definition line_header (size : nat) (l : string) : result string :=
  let h := first_word l in
  _ ← fits LineHeader size h;
  Ok h.

(** [strcmp(a, b) == 0] *)
Definition streq (a b : string) : bool := String.eqb a b.

(** [strncpy(dst, src, n)] into a field of [n] bytes: the first [n]
    characters of [src], without a terminator when [src] has [n] or
    more. *)
Definition strncpy (n : nat) (src : string) : string := string_take n src.
End text.

(** ** The types of the exporter *)

Module Vec2.
Record t `{FloatOps} := mk { x : float; y : float }.
End Vec2.

Module Vec3.
Record t `{FloatOps} := mk { x : float; y : float; z : float }.
End Vec3.

Module SimpleVertex.
Record t `{FloatOps} := mk {
  position : Vec3.t;
  normal : Vec3.t;
  texcoord : Vec2.t;
}.
End SimpleVertex.

Module Vertex.
Record t `{FloatOps} := mk {
  position : Vec3.t;
  normal : Vec3.t;
  tangent : Vec3.t;
  bitangent : Vec3.t;
  texcoord : Vec2.t;
}.
End Vertex.

Module MeshData.
Record t `{FloatOps} := mk {
  name : string;
  vertices : list Vertex.t;
  indices : Z;
  vertex_count : Z;
  index_count : Z;
}.
Definition set_name `{FloatOps} (s : string) (m : t) : t :=
  mk _ s (vertices m) (indices m) (vertex_count m) (index_count m).
End MeshData.

Module MaterialData.
Record t `{FloatOps} := mk {
  name : string;
  albedo_tex : string;
  normal_tex : string;
  specular_color : Vec3.t;
  specular_power : float;
  specular_coefficient : float;
}.
Section setters.
Context `{FloatOps}.
Definition set_name (s : string) (m : t) : t :=
  mk _ s (albedo_tex m) (normal_tex m) (specular_color m)
     (specular_power m) (specular_coefficient m).
Definition set_albedo_tex (s : string) (m : t) : t :=
  mk _ (name m) s (normal_tex m) (specular_color m)
     (specular_power m) (specular_coefficient m).
Definition set_normal_tex (s : string) (m : t) : t :=
  mk _ (name m) (albedo_tex m) s (specular_color m)
     (specular_power m) (specular_coefficient m).
Definition set_specular_color (c : Vec3.t) (m : t) : t :=
  mk _ (name m) (albedo_tex m) (normal_tex m) c
     (specular_power m) (specular_coefficient m).
Definition set_specular_power (p : float) (m : t) : t :=
  mk _ (name m) (albedo_tex m) (normal_tex m) (specular_color m)
     p (specular_coefficient m).
Definition set_specular_coefficient (c : float) (m : t) : t :=
  mk _ (name m) (albedo_tex m) (normal_tex m) (specular_color m)
     (specular_power m) c.
End setters.
End MaterialData.

Module ModelData.
Record t := mk {
  mesh_name : string;
  material_name : string;
}.
Definition set_mesh_name (s : string) (m : t) : t := mk s (material_name m).
Definition set_material_name (s : string) (m : t) : t := mk (mesh_name m) s.
End ModelData.

Module SceneData.
Record t `{FloatOps} := mk {
  meshes : list MeshData.t;
  materials : list MaterialData.t;
  models : list ModelData.t;
  num_meshes : Z;
  num_materials : Z;
  num_models : Z;
}.
Section setters.
Context `{FloatOps}.
Definition set_meshes (l : list MeshData.t) (s : t) : t :=
  mk _ l (materials s) (models s) (num_meshes s) (num_materials s) (num_models s).
Definition set_materials (l : list MaterialData.t) (s : t) : t :=
  mk _ (meshes s) l (models s) (num_meshes s) (num_materials s) (num_models s).
Definition set_models (l : list ModelData.t) (s : t) : t :=
  mk _ (meshes s) (materials s) l (num_meshes s) (num_materials s) (num_models s).
Definition set_num_meshes (n : Z) (s : t) : t :=
  mk _ (meshes s) (materials s) (models s) n (num_materials s) (num_models s).
Definition set_num_materials (n : Z) (s : t) : t :=
  mk _ (meshes s) (materials s) (models s) (num_meshes s) n (num_models s).
Definition set_num_models (n : Z) (s : t) : t :=
  mk _ (meshes s) (materials s) (models s) (num_meshes s) (num_materials s) n.
(** [SceneData scene = {0};] *)
Definition zero : t := mk _ [] [] [] 0 0 0.
End setters.
End SceneData.

(** ** Memory and files *)

(** What the allocator hands out. [realloc] and [new[]] do not clear
    memory: slot [i] of a grown array holds whatever was there, here
    [fresh_material i] and so on. *)
Record Heap `{FloatOps} := {
  fresh_material : nat → MaterialData.t;
  fresh_mesh : nat → MeshData.t;
  fresh_model : nat → ModelData.t;
  fresh_vertex : nat → Vertex.t;
}.

(** [realloc(a, n * sizeof(A))]: the first [n] elements are kept, the
    slots beyond the old size are not initialised. *)
Definition realloc {A} (fresh : nat → A) (a : list A) (n : Z) : list A :=
  take (Z.to_nat n) a ++ (fresh <$> seq (length a) (Z.to_nat n - length a)).

(** The files [load_file_data] can open, by name. *)
Definition files := string → option string.

(** [load_file_data]: [assert(file)] fails when the file cannot be
    opened. *)
Definition load_file_data (fs : files) (filename : string) : result string :=
  match fs filename with
  | Some data => Ok data
  | None => Err AssertFailed
  end.

(** [p->field = ...] through a pointer into an array. *)
Definition modify {A} (a : array_name) (l : list A) (i : Z) (f : A → A)
    : result (list A) :=
  x ← read a l i; write a l i (f x).

(** [sscanf(..., "... %s ...", ..., p->field)]: the word [s] stored in
    a [char] array of [size] bytes that is a field of the element at
    [i]. *)
Definition store_word {A} (a : array_name) (l : list A) (i : Z)
    (field : array_name) (size : nat) (set : string → A → A) (s : string)
    : result (list A) :=
  _ ← read a l i;
  _ ← fits field size s;
  modify a l i (set s).

(** ** [_load_mtl_file] *)

Section load_mtl_file.
Context `{FloatOps} (heap : Heap).

(** The counting loop: one more material for every [newmtl]. *)
Definition mtl_count_line (r : record) (scene : SceneData.t)
    : result SceneData.t :=
  header ← line_header 64 (line r);
  if streq header "newmtl"
  then Ok (SceneData.set_num_materials
             (to_uint32 (SceneData.num_materials scene + 1)) scene)
  else Ok scene.

(** The creating loop. Its state is [current_material], as an index
    into [scene->materials], and the array. *)
Definition mtl_line (r : record) (st : Z * list MaterialData.t)
    : result (Z * list MaterialData.t) :=
  let '(current_material, materials) := st in
  header ← line_header 64 (line r);
  if streq header "newmtl" then
    let current_material := current_material + 1 in
    let '(matches, vs) := sscanf (line r) "%s %s\n" in
    materials ← match vs with
                | [_; V_s s] =>
                    store_word Materials materials current_material
                      MaterialName 128 MaterialData.set_name s
                | _ => Ok materials
                end;
    materials ← modify Materials materials current_material
                  (MaterialData.set_specular_power f_sixteen);
    _ ← assert (bool_decide (matches = 2));
    Ok (current_material, materials)
  else if streq header "map_Kd" then
    let '(matches, vs) := sscanf (line r) "%s %s\n" in
    materials ← match vs with
                | [_; V_s s] =>
                    store_word Materials materials current_material
                      AlbedoTex 128 MaterialData.set_albedo_tex s
                | _ => Ok materials
                end;
    _ ← assert (bool_decide (matches = 2));
    Ok (current_material, materials)
  else
    unset ← (if streq header "map_bump" || streq header "map_bump" then
               m ← read Materials materials current_material;
               Ok (streq (MaterialData.normal_tex m) EmptyString)
             else Ok false);
    if unset : bool then
      let '(matches, vs) := sscanf (line r) "%s %s\n" in
      materials ← match vs with
                  | [_; V_s s] =>
                      store_word Materials materials current_material
                        NormalTex 128 MaterialData.set_normal_tex s
                  | _ => Ok materials
                  end;
      _ ← assert (bool_decide (matches = 2));
      Ok (current_material, materials)
    else if streq header "Ks" then
      let '(matches, vs) := sscanf (line r) "%s %f %f %f\n" in
      _ ← assert (bool_decide (matches = 4));
      match vs with
      | [_; V_f x; V_f y; V_f z] =>
          materials ← modify Materials materials current_material
                        (MaterialData.set_specular_color (Vec3.mk _ x y z));
          Ok (current_material, materials)
      | _ => Ok (current_material, materials)
      end
    else if streq header "Ns" then
      let '(matches, vs) := sscanf (line r) "%s %f\n" in
      materials ← match vs with
                  | [_; V_f c] =>
                      modify Materials materials current_material
                        (MaterialData.set_specular_coefficient c)
                  | _ => Ok materials
                  end;
      _ ← assert (bool_decide (matches = 2));
      Ok (current_material, materials)
    else Ok (current_material, materials).

(** The function on the data of its file. *)
Definition load_mtl_data (file_data : string) (scene : SceneData.t)
    : result SceneData.t :=
  let original_data := Some file_data in
  let orig_num_materials := to_int (SceneData.num_materials scene) in
  scene ← while_lines mtl_count_line (records (Some file_data)) scene;
  let file_data := original_data in
  let materials :=
    realloc (fresh_material heap) (SceneData.materials scene)
      (SceneData.num_materials scene) in
  let current_material := orig_num_materials - 1 in
  '(_, materials) ← while_lines mtl_line (records file_data)
                      (current_material, materials);
  Ok (SceneData.set_materials materials scene).

Definition _load_mtl_file (fs : files) (filename : string)
    (scene : SceneData.t) : result SceneData.t :=
  file_data ← load_file_data fs filename;
  load_mtl_data file_data scene.

End load_mtl_file.

(** ** Attribute indices and triangles *)

Record int3 := { p : Z; t : Z; n : Z }.

(** [int3::operator==] *)
Definition int3_eq (lh rh : int3) : bool :=
  bool_decide (p lh = p rh) && bool_decide (t lh = t rh)
  && bool_decide (n lh = n rh).

(** [int3::operator<] *)
Definition int3_lt (lh rh : int3) : bool :=
  if bool_decide (p lh < p rh) then true
  else if bool_decide (p lh > p rh) then false
  else if bool_decide (t lh < t rh) then true
  else if bool_decide (t lh > t rh) then false
  else if bool_decide (n lh < n rh) then true
  else if bool_decide (n lh > n rh) then false
  else false.

#[global] Instance int3_eq_dec : EqDecision int3.
Proof. solve_decision. Defined.

#[global] Instance int3_countable : Countable int3.
Proof.
  apply (inj_countable' (λ i, (p i, t i, n i))
                        (λ '(a, b, c), {| p := a; t := b; n := c |})).
  by intros [].
Defined.

Record Triangle := { vertex : int3 * int3 * int3 }.

(** ** [_load_obj]: the three scanning loops *)

Section load_obj.
Context `{FloatOps} (heap : Heap) (fs : files).

(** *** Count everything *)

Record Counts := {
  num_total_vertices : Z;
  num_total_texcoords : Z;
  num_total_normals : Z;
  num_meshes : Z;
  counted_scene : SceneData.t;
}.

Definition count_line (r : record) (c : Counts) : result Counts :=
  header ← line_header 16 (line r);
  let '(Build_Counts nv nt nn nm scene) := c in
  if streq header "v" then
    Ok (Build_Counts (to_uint32 (nv + 1)) nt nn nm scene)
  else if streq header "vt" then
    Ok (Build_Counts nv (to_uint32 (nt + 1)) nn nm scene)
  else if streq header "vn" then
    Ok (Build_Counts nv nt (to_uint32 (nn + 1)) nm scene)
  else if streq header "usemtl" then
    let scene :=
      SceneData.set_num_meshes
        (to_uint32 (SceneData.num_meshes scene + 1)) scene in
    let scene :=
      SceneData.set_num_models
        (to_uint32 (SceneData.num_models scene + 1)) scene in
    Ok (Build_Counts nv nt nn (to_uint32 (nm + 1)) scene)
  else if streq header "mtllib" then
    (* char mtl_filename[256]; *)
    let '(matches, vs) := sscanf (line r) "%s %s\n" in
    _ ← match vs with
        | [_; V_s s] => fits MtlFilename 256 s
        | _ => Ok ()
        end;
    _ ← assert (bool_decide (matches = 2));
    match vs with
    | [_; V_s mtl_filename] =>
        scene ← _load_mtl_file heap fs mtl_filename scene;
        Ok (Build_Counts nv nt nn nm scene)
    | _ => Ok c
    end
  else Ok c.

(** *** Fill out vertex data *)

Record Attributes := {
  positions : list Vec3.t;
  normals : list Vec3.t;
  texcoords : list Vec2.t;
  textured : Z;
}.

(** [Vec2 tex = {0.5f, 0.5f}; texcoords.push_back(tex); int textured = 0;] *)
Definition tex : Vec2.t := Vec2.mk _ f_half f_half.
Definition no_attributes : Attributes :=
  {| positions := []; normals := []; texcoords := [tex]; textured := 0 |}.

Definition fill_line (r : record) (a : Attributes) : result Attributes :=
  header ← line_header 16 (line r);
  if streq header "v" then
    let '(matches, vs) := sscanf (line r) "%s %f %f %f\n" in
    _ ← assert (bool_decide (matches = 4));
    match vs with
    | [_; V_f x; V_f y; V_f z] =>
        Ok {| positions := positions a ++ [Vec3.mk _ x y z];
              normals := normals a;
              texcoords := texcoords a;
              textured := 0 |}
    | _ => Ok a
    end
  else if streq header "vt" then
    let '(matches, vs) := sscanf (line r) "%s %f %f\n" in
    _ ← assert (bool_decide (matches = 3));
    match vs with
    | [_; V_f x; V_f y] =>
        Ok {| positions := positions a;
              normals := normals a;
              texcoords := texcoords a ++ [Vec2.mk _ x y];
              textured := 1 |}
    | _ => Ok a
    end
  else if streq header "vn" then
    let '(matches, vs) := sscanf (line r) "%s %f %f %f\n" in
    _ ← assert (bool_decide (matches = 4));
    match vs with
    | [_; V_f x; V_f y; V_f z] =>
        Ok {| positions := positions a;
              normals := normals a ++ [Vec3.mk _ x y z];
              texcoords := texcoords a;
              textured := textured a |}
    | _ => Ok a
    end
  else Ok a.

(** *** Load mesh data *)

Record Groups := {
  mesh_triangles : Z;      (* index into [all_triangles] *)
  current_mesh : Z;        (* index into [scene->meshes] *)
  current_model : Z;       (* index into [scene->models] *)
  prev_line : option string;
  all_triangles : list (list Triangle);
  meshes : list MeshData.t;
  models : list ModelData.t;
}.

(** [ptr && ptr[0] == 'g'] *)
Definition starts_with_g (ptr : option string) : bool :=
  match ptr with
  | Some (String c _) => Ascii.eqb c "g"
  | _ => false
  end.

(** [sscanf(ptr, "%s %s\n", line_header, current_mesh->name);
     assert(matches == 2);]
    [ptr] is a place in the buffer, so the first word that goes to
    [line_header[16]] is not the one the loop has read from [line]. *)
Definition name_from (ptr : string) (current_mesh : Z)
    (meshes : list MeshData.t) : result (list MeshData.t) :=
  let '(matches, vs) := sscanf ptr "%s %s\n" in
  _ ← match vs with
      | V_s h :: _ => fits LineHeader 16 h
      | _ => Ok ()
      end;
  meshes ← match vs with
           | [_; V_s s] =>
               store_word Meshes meshes current_mesh
                 MeshName 128 MeshData.set_name s
           | _ => Ok meshes
           end;
  _ ← assert (bool_decide (matches = 2));
  Ok meshes.

Definition usemtl_line (r : record) (g : Groups) : result Groups :=
  let mesh_triangles := mesh_triangles g + 1 in
  let current_mesh := current_mesh g + 1 in
  let current_model := current_model g + 1 in
  (* char material_name[256]; *)
  let '(matches, vs) := sscanf (line r) "%s %s\n" in
  _ ← match vs with
      | [_; V_s s] => fits MaterialNameBuffer 256 s
      | _ => Ok ()
      end;
  _ ← assert (bool_decide (matches = 2));
  let material_name :=
    match vs with [_; V_s s] => s | _ => EmptyString end in
  meshes ←
    (if starts_with_g (prev_line g) then
       name_from (default EmptyString (prev_line g)) current_mesh (meshes g)
     else if starts_with_g (next_line r) then
       name_from (default EmptyString (next_line r)) current_mesh (meshes g)
     else
       let s := "mesh" +:+ pretty current_mesh in
       modify Meshes (meshes g) current_mesh
         (MeshData.set_name (strncpy 128 s)));
  mesh ← read Meshes meshes current_mesh;
  (* strncpy(current_model->mesh_name, current_mesh->name,
             sizeof(current_mesh->name)); *)
  models ← modify Models (models g) current_model
             (ModelData.set_mesh_name (strncpy 128 (MeshData.name mesh)));
  (* strncpy(current_model->material_name, material_name,
             sizeof(material_name));
     256 bytes, the word and zeros after it, go to the 128 bytes of
     the field and to the 128 bytes behind it: the mesh name of the
     next model of the array. *)
  models ← modify Models models current_model
             (ModelData.set_material_name (string_take 128 material_name));
  models ← modify Models models (current_model + 1)
             (ModelData.set_mesh_name (string_drop 128 material_name));
  Ok {| mesh_triangles := mesh_triangles;
        current_mesh := current_mesh;
        current_model := current_model;
        prev_line := prev_line g;
        all_triangles := all_triangles g;
        meshes := meshes;
        models := models |}.

(** [int3 triangle[4]] after the [sscanf]: corner [k] from the values
    stored. A corner [sscanf] did not reach is indeterminate; the code
    reads none of those. *)
Definition stored_d (vs : list value) (i : nat) : Z :=
  match vs !! i with Some (V_d z) => z | _ => 0 end.
Definition corner_ptn (vs : list value) (k : nat) : int3 :=
  {| p := stored_d vs (1 + 3 * k);
     t := stored_d vs (2 + 3 * k);
     n := stored_d vs (3 + 3 * k) |}.
Definition corner_pn (vs : list value) (k : nat) : int3 :=
  {| p := stored_d vs (1 + 2 * k);
     t := 0;
     n := stored_d vs (2 + 2 * k) |}.

Definition cant_load {A} : result A :=
  Err (Exit 1 ("Can't load this OBJ" +:+ String nl EmptyString)).

(** The [sscanf] of an [f] record: the corners and [matches] as the
    code leaves it for the quad test. *)
Definition scan_face (textured : Z) (l : string) : result (Z * (nat → int3)) :=
  if bool_decide (textured ≠ 0) then
    let '(matches, vs) :=
      sscanf l "%s %d/%d/%d %d/%d/%d %d/%d/%d %d/%d/%d\n" in
    if bool_decide (matches ≠ 10) && bool_decide (matches ≠ 13)
    then cant_load
    else Ok (matches, corner_ptn vs)
  else
    let '(matches, vs) := sscanf l "%s %d//%d %d//%d %d//%d %d//%d\n" in
    if bool_decide (matches ≠ 7) && bool_decide (matches ≠ 9)
    then cant_load
    else Ok (if bool_decide (matches = 9) then 13 else matches, corner_pn vs).

(** The triangles an [f] record pushes, in order. *)
Definition face_triangles (textured : Z) (l : string) : result (list Triangle) :=
  '(matches, triangle) ← scan_face textured l;
  let tri := {| vertex := (triangle 0, triangle 1, triangle 2)%nat |} in
  if bool_decide (matches = 13) then
    let tri2 := {| vertex := (triangle 0, triangle 2, triangle 3)%nat |} in
    Ok [tri; tri2]
  else Ok [tri].

Definition set_all_triangles (all : list (list Triangle)) (g : Groups) : Groups :=
  {| mesh_triangles := mesh_triangles g;
     current_mesh := current_mesh g;
     current_model := current_model g;
     prev_line := prev_line g;
     all_triangles := all;
     meshes := meshes g;
     models := models g |}.

Definition set_prev_line (ptr : option string) (g : Groups) : Groups :=
  {| mesh_triangles := mesh_triangles g;
     current_mesh := current_mesh g;
     current_model := current_model g;
     prev_line := ptr;
     all_triangles := all_triangles g;
     meshes := meshes g;
     models := models g |}.

(** [mesh_triangles->push_back(tri)] *)
Definition push_back_triangle (tri : Triangle) (g : Groups) : result Groups :=
  all ← modify AllTriangles (all_triangles g) (mesh_triangles g)
          (λ v, v ++ [tri]);
  Ok (set_all_triangles all g).

Definition f_line (textured : Z) (r : record) (g : Groups) : result Groups :=
  tris ← face_triangles textured (line r);
  for_each push_back_triangle tris g.

Definition group_line (textured : Z) (r : record) (g : Groups)
    : result Groups :=
  header ← line_header 16 (line r);
  g ← (if streq header "usemtl" then usemtl_line r g
       else if streq header "f" then f_line textured r g
       else Ok g);
  (* prev_line = this_line; *)
  Ok (set_prev_line (Some (this_line r)) g).

End load_obj.

(** ** Vector primitives *)

Section vec_math.
Context `{FloatOps}.

(** Modelled from the spec: [vec_math.h] is not part of the sources at
    hand; the spec takes its vector primitives as the usual
    component-wise ones. *)
Definition vec3_sub (a b : Vec3.t) : Vec3.t :=
  Vec3.mk _ (fsub (Vec3.x a) (Vec3.x b)) (fsub (Vec3.y a) (Vec3.y b))
            (fsub (Vec3.z a) (Vec3.z b)).
Definition vec2_sub (a b : Vec2.t) : Vec2.t :=
  Vec2.mk _ (fsub (Vec2.x a) (Vec2.x b)) (fsub (Vec2.y a) (Vec2.y b)).
Definition vec3_mul_scalar (a : Vec3.t) (s : float) : Vec3.t :=
  Vec3.mk _ (fmul (Vec3.x a) s) (fmul (Vec3.y a) s) (fmul (Vec3.z a) s).
End vec_math.

(** ** [calculate_tangets] *)

Section calculate_tangets.
Context `{FloatOps} (heap : Heap).

(** [new Vertex[num_vertices]] and the copying loop. *)
Definition copy_vertex (vertices : list SimpleVertex.t) (ii : nat)
    : result Vertex.t :=
  sv ← read Vertices vertices (Z.of_nat ii);
  let fresh := fresh_vertex heap ii in
  Ok (Vertex.mk _ (SimpleVertex.position sv) (SimpleVertex.normal sv)
        (Vertex.tangent fresh) (Vertex.bitangent fresh)
        (SimpleVertex.texcoord sv)).

Definition set_bitangent (b : Vec3.t) (v : Vertex.t) : Vertex.t :=
  Vertex.mk _ (Vertex.position v) (Vertex.normal v) (Vertex.tangent v) b
    (Vertex.texcoord v).
Definition set_tangent (a : Vec3.t) (v : Vertex.t) : Vertex.t :=
  Vertex.mk _ (Vertex.position v) (Vertex.normal v) a (Vertex.bitangent v)
    (Vertex.texcoord v).

(** [indices] holds the elements of the index array at the width
    [index_size] names. *)
Definition read_index (indices : list Z) (index_size : Z) (ii : Z) : result Z :=
  if bool_decide (index_size = 2) then
    i ← read Indices indices ii; Ok (i mod 2 ^ 16)
  else
    i ← read Indices indices ii; Ok (to_uint32 i).

(** The tangent and bitangent of the triangle on [v0], [v1], [v2]. *)
Definition triangle_basis (v0 v1 v2 : Vertex.t) : Vec3.t * Vec3.t :=
  let delta_pos1 := vec3_sub (Vertex.position v1) (Vertex.position v0) in
  let delta_pos2 := vec3_sub (Vertex.position v2) (Vertex.position v0) in
  let delta_uv1 := vec2_sub (Vertex.texcoord v1) (Vertex.texcoord v0) in
  let delta_uv2 := vec2_sub (Vertex.texcoord v2) (Vertex.texcoord v0) in
  let r := fdiv f_one
             (fsub (fmul (Vec2.x delta_uv1) (Vec2.y delta_uv2))
                   (fmul (Vec2.y delta_uv1) (Vec2.x delta_uv2))) in
  let a := vec3_mul_scalar delta_pos1 (Vec2.y delta_uv2) in
  let b := vec3_mul_scalar delta_pos2 (Vec2.y delta_uv1) in
  let tangent := vec3_sub a b in
  let tangent := vec3_mul_scalar tangent r in
  let a := vec3_mul_scalar delta_pos2 (Vec2.x delta_uv1) in
  let b := vec3_mul_scalar delta_pos1 (Vec2.x delta_uv2) in
  let bitangent := vec3_sub a b in
  let bitangent := vec3_mul_scalar bitangent r in
  (tangent, bitangent).

(** One turn of the loop over the triangles, at index [ii]. *)
Definition tangent_step (indices : list Z) (index_size : Z)
    (new_vertices : list Vertex.t) (ii : Z) : result (list Vertex.t) :=
  i0 ← read_index indices index_size (ii + 0);
  i1 ← read_index indices index_size (ii + 1);
  i2 ← read_index indices index_size (ii + 2);
  v0 ← read Vertices new_vertices i0;
  v1 ← read Vertices new_vertices i1;
  v2 ← read Vertices new_vertices i2;
  let '(tangent, bitangent) := triangle_basis v0 v1 v2 in
  nv ← modify Vertices new_vertices i0 (set_bitangent bitangent);
  nv ← modify Vertices nv i1 (set_bitangent bitangent);
  nv ← modify Vertices nv i2 (set_bitangent bitangent);
  nv ← modify Vertices nv i0 (set_tangent tangent);
  nv ← modify Vertices nv i1 (set_tangent tangent);
  nv ← modify Vertices nv i2 (set_tangent tangent);
  Ok nv.

(** The values [ii] takes in [for(ii=0; ii<num_indices; ii+=3)]. *)
Definition triangle_starts (num_indices : Z) : list Z :=
  (λ k, 3 * Z.of_nat k) <$> seq 0 (Z.to_nat ((num_indices + 2) / 3)).

Definition calculate_tangets (vertices : list SimpleVertex.t)
    (num_vertices : Z) (indices : list Z) (index_size : Z)
    (num_indices : Z) : result (list Vertex.t) :=
  (* new Vertex[num_vertices] with a negative [int] throws *)
  _ ← (if bool_decide (0 ≤ num_vertices) then Ok ()
       else Err BadArrayNewLength);
  new_vertices ← mapM_result (copy_vertex vertices) (seq 0 (Z.to_nat num_vertices));
  for_each (λ ii nv, tangent_step indices index_size nv ii)
    (triangle_starts num_indices) new_vertices.

End calculate_tangets.

(** ** [_load_obj]: creating the meshes *)

Section create_meshes.
Context `{FloatOps} (heap : Heap).
Context (positions normals : list Vec3.t) (texcoords : list Vec2.t).

(** The state of the loop over one group's corners: the map [m], the
    vertices [v] and the indices [i]. *)
Record Buffers := {
  m : gmap int3 Z;
  v : list SimpleVertex.t;
  i : list Z;
}.

Definition no_buffers : Buffers := {| m := ∅; v := []; i := [] |}.

(** The vertex a corner stands for, as the "Add it" branch builds it. *)
Definition make_vertex (index : int3) : result SimpleVertex.t :=
  let pos_index := to_int (p index - 1) in
  let tex_index := t index in
  let norm_index := to_int (n index - 1) in
  position ← read Positions positions (to_uint32 pos_index);
  texcoord ← read Texcoords texcoords (to_uint32 tex_index);
  normal ← read Normals normals (to_uint32 norm_index);
  (* Flip v-channel *)
  let texcoord := Vec2.mk _ (Vec2.x texcoord) (fsub f_one (Vec2.y texcoord)) in
  Ok (SimpleVertex.mk _ position normal texcoord).

Definition dedup_corner (index : int3) (b : Buffers) : result Buffers :=
  match m b !! index with
  | Some second =>
      (* Already exists *)
      Ok {| m := m b; v := v b;
            i := i b ++ [to_uint32 second] |}
  | None =>
      (* Add it *)
      vertex ← make_vertex index;
      Ok {| m := <[index := to_int (Z.of_nat (length (v b)))]> (m b);
            v := v b ++ [vertex];
            i := i b ++ [to_uint32 (Z.of_nat (length (v b)))] |}
  end.

(** The loop [for(ii=0; ii<num_indices; ++ii)] with
    [int num_indices = (int)indices.size()]. *)
Definition dedup (indices : list int3) : result Buffers :=
  let num_indices := to_int (Z.of_nat (length indices)) in
  for_each dedup_corner (take (Z.to_nat num_indices) indices) no_buffers.

(** One turn of the loop over the groups: deduplicate, then compute
    the tangents; the vertices are deleted again at the end of the
    turn. *)
Definition create_mesh (indices : list int3) : result (Buffers * list Vertex.t) :=
  b ← dedup indices;
  let vertex_count := to_uint32 (Z.of_nat (length (v b))) in
  let index_count := to_uint32 (Z.of_nat (length (i b))) in
  new_vertices ← calculate_tangets heap (v b) (to_int vertex_count)
                   (i b) 4 (to_int index_count);
  Ok (b, new_vertices).

End create_meshes.

(** Modelled from the spec: the mesh loop of [_load_obj] runs over
    [all_indices], which the source never declares. The spec has the
    deduplication work on each group's triangle list; the corners of a
    group are those of its triangles, in order. *)
Definition corners (triangles : list Triangle) : list int3 :=
  triangles ≫= λ tri, let '(a, b, c) := vertex tri in [a; b; c].

(** ** [_load_obj] and [main] *)

Section exporter.
Context `{FloatOps} (heap : Heap) (fs : files).

(** The cursor a scanning loop leaves behind. *)
Definition cursor_after (file_data : option string) : option string :=
  match last (records file_data) with
  | Some r => next_line r
  | None => file_data
  end.

Definition count_pass (file_data : option string) (scene : SceneData.t)
    : result Counts :=
  while_lines (count_line heap fs) (records file_data)
    (Build_Counts 0 0 0 0 scene).

Definition fill_pass (file_data : option string) : result Attributes :=
  while_lines fill_line (records file_data) no_attributes.

Definition group_pass (textured : Z) (file_data : option string)
    (g : Groups) : result Groups :=
  while_lines (group_line textured) (records file_data) g.

(** [_load_obj] on the data of its file. *)
Definition load_obj_data (file_data : string) (scene : SceneData.t)
    : result SceneData.t :=
  let file_data := Some file_data in
  let original_data := file_data in
  let orig_num_meshes := to_int (SceneData.num_meshes scene) in
  let orig_num_models := to_int (SceneData.num_models scene) in
  (* Count everything *)
  c ← count_pass file_data scene;
  let file_data := cursor_after file_data in
  let scene := counted_scene c in
  let original_data := file_data in
  (* all_triangles.resize(num_meshes); *)
  let resized := replicate (Z.to_nat (num_meshes c)) [] in
  let scene :=
    SceneData.set_meshes
      (realloc (fresh_mesh heap) (SceneData.meshes scene)
         (SceneData.num_meshes scene)) scene in
  let scene :=
    SceneData.set_models
      (realloc (fresh_model heap) (SceneData.models scene)
         (SceneData.num_models scene)) scene in
  (* Fill out vertex data *)
  a ← fill_pass file_data;
  let file_data := cursor_after file_data in
  let original_data := file_data in
  (* Load mesh data *)
  g ← group_pass (textured a) file_data
        {| mesh_triangles := -1;
           current_mesh := orig_num_meshes - 1;
           current_model := orig_num_models - 1;
           prev_line := None;
           all_triangles := resized;
           meshes := SceneData.meshes scene;
           models := SceneData.models scene |};
  let scene := SceneData.set_meshes (meshes g) scene in
  let scene := SceneData.set_models (models g) scene in
  (* Create meshes *)
  _ ← mapM_result
        (λ triangles,
           create_mesh heap (positions a) (normals a) (texcoords a)
             (corners triangles))
        (all_triangles g);
  Ok scene.

Definition _load_obj (filename : string) (scene : SceneData.t)
    : result SceneData.t :=
  file_data ← load_file_data fs filename;
  load_obj_data file_data scene.

(** [main]: every argument after the program's name, in order, into
    one scene. *)
Definition main (argv : list string) : result SceneData.t :=
  for_each _load_obj (tail argv) SceneData.zero.

End exporter.

(** ** An instance to run the exporter on

    Exact rational arithmetic in place of [float], decimal numbers read
    exactly, and two allocators: one that hands out zeroed memory and
    one that hands out memory used before. *)

Module Exact.

Definition scan_decimal (s : string) : option (Q * string) :=
  match s with
  | EmptyString => None
  | String c s' =>
      let '(neg, body) :=
        if Ascii.eqb c "-" then (true, s')
        else if Ascii.eqb c "+" then (false, s')
        else (false, s) in
      let '(ds, rest) := span_digits body in
      let '(fs, rest) :=
        match rest with
        | String "." rest' => span_digits rest'
        | _ => ([], rest)
        end in
      match ds, fs with
      | [], [] => None
      | _, _ =>
          let num := digits_value (ds ++ fs) in
          let den := Z.to_pos (10 ^ Z.of_nat (length fs)) in
          Some (Qred ((if neg : bool then - num else num) # den), rest)
      end
  end.

#[global] Instance ops : FloatOps := {|
  float := Q;
  f_half := (1 # 2)%Q;
  f_one := 1%Q;
  f_sixteen := 16%Q;
  fsub a b := Qred (a - b);
  fmul a b := Qred (a * b);
  fdiv a b := Qred (a / b);
  scan_float := scan_decimal;
|}.

Definition origin : Vec3.t := Vec3.mk _ 0%Q 0%Q 0%Q.

Definition zeroed : Heap := {|
  fresh_material _ :=
    MaterialData.mk _ EmptyString EmptyString EmptyString origin 0%Q 0%Q;
  fresh_mesh _ := MeshData.mk _ EmptyString [] 0 0 0;
  fresh_model _ := ModelData.mk EmptyString EmptyString;
  fresh_vertex _ :=
    Vertex.mk _ origin origin origin origin (Vec2.mk _ 0%Q 0%Q);
|}.

Definition stale : Heap := {|
  fresh_material _ :=
    MaterialData.mk _ "old" "old.png" "old_n.png" origin 1%Q 1%Q;
  fresh_mesh _ := MeshData.mk _ "old" [] 0 0 0;
  fresh_model _ := ModelData.mk "old" "old";
  fresh_vertex _ :=
    Vertex.mk _ origin origin origin origin (Vec2.mk _ 0%Q 0%Q);
|}.

(** A text file from its lines. *)
Definition unlines (ls : list string) : string :=
  foldr (λ l acc, l +:+ String nl acc) EmptyString ls.

Definition no_files : files := λ _, None.

End Exact.

(** ** Notions the properties are stated with *)

Section notions.
Context `{FloatOps}.

(** The directive of a record: its first word. *)
Definition directive_of (r : record) : string := first_word (line r).

Definition is_directive (d : string) (r : record) : bool :=
  streq (directive_of r) d.

(** How many records of a file are [usemtl] directives. *)
Definition usemtl_directives (data : string) : nat :=
  length (filter (λ r, is_directive "usemtl" r = true) (records (Some data))).

(** The same over the files of a run; a file that cannot be opened has
    none. *)
Definition usemtl_total (fs : files) (filenames : list string) : nat :=
  sum_list_with (λ f, usemtl_directives (default EmptyString (fs f)))
    filenames.

(** The counters of a scene agree with its arrays. *)
Definition consistent (scene : SceneData.t) : Prop :=
  Z.of_nat (length (SceneData.meshes scene)) = SceneData.num_meshes scene
  ∧ Z.of_nat (length (SceneData.models scene)) = SceneData.num_models scene.

End notions.

Section notions_mtl.
Context `{FloatOps}.

(** How many records of a material library are [newmtl] directives. *)
Definition newmtl_directives (data : string) : nat :=
  length (filter (λ r, is_directive "newmtl" r = true) (records (Some data))).

End notions_mtl.

(** The distinct corners of a list, each at the place of its first
    occurrence. *)
Fixpoint first_occurrences (l : list int3) : list int3 :=
  match l with
  | [] => []
  | x :: l' => x :: filter (λ y, y ≠ x) (first_occurrences l')
  end.

(** A corner as the spec has it: [p] and [n] count from 1, [t] from 0,
    all within [int]. *)
Definition well_formed (idx : int3) : Prop :=
  1 ≤ p idx < 2 ^ 31 ∧ 0 ≤ t idx < 2 ^ 31 ∧ 1 ≤ n idx < 2 ^ 31.

Section notions_tangents.
Context `{FloatOps}.

(** What the tangent calculator copies and never writes again. *)
Definition geometry (v : Vertex.t) : Vec3.t * Vec3.t * Vec2.t :=
  (Vertex.position v, Vertex.normal v, Vertex.texcoord v).
Definition simple_geometry (v : SimpleVertex.t) : Vec3.t * Vec3.t * Vec2.t :=
  (SimpleVertex.position v, SimpleVertex.normal v, SimpleVertex.texcoord v).

(** The triangle that starts at [ii] in the index buffer has vertex
    [j] as one of its three corners. *)
Definition references (indices : list Z) (index_size : Z) (ii : Z) (j : nat)
    : Prop :=
  ∃ o, 0 ≤ o ≤ 2 ∧ read_index indices index_size (ii + o) = Ok (Z.of_nat j).

End notions_tangents.

Section notions_groups.
Context `{FloatOps}.

(** Every [f] record of [rs] has a [usemtl] record somewhere before
    it. *)
Definition faces_in_groups (rs : list record) : Prop :=
  ∀ before r after,
    rs = before ++ r :: after →
    is_directive "f" r = true →
    ∃ r', r' ∈ before ∧ is_directive "usemtl" r' = true.

(** The number of [usemtl] records in a list of records. *)
Definition groups_opened (rs : list record) : nat :=
  length (filter (λ r, is_directive "usemtl" r = true) rs).

End notions_groups.

(** A name as [%s] reads it: not empty, no white space in it. *)
Fixpoint no_space (s : string) : bool :=
  match s with
  | String c s' => negb (isspace c) && no_space s'
  | EmptyString => true
  end.

Definition is_name (s : string) : Prop := s ≠ EmptyString ∧ no_space s = true.

(** The text at [ptr] starts with a directive [g <name>]: the letter,
    one blank, the name, and then white space or the end of the data. *)
Definition g_directive (name : string) (ptr : option string) : Prop :=
  ∃ tail,
    ptr = Some ("g " +:+ name +:+ tail)
    ∧ match tail with
      | String c _ => isspace c = true
      | EmptyString => True
      end.



Section notions_fill.
Context `{FloatOps}.

(** How many records of a list carry the directive [d]. *)
Definition directives (d : string) (rs : list record) : nat :=
  length (filter (λ r, is_directive d r = true) rs).

End notions_fill.

Section notions_mtl_frame.
Context `{FloatOps}.

(** A record of a material library that the creating loop acts on. *)
Definition mtl_directive (r : record) : bool :=
  is_directive "newmtl" r || is_directive "map_Kd" r
  || is_directive "map_bump" r || is_directive "Ks" r || is_directive "Ns" r.

End notions_mtl_frame.

Section notions_group_faces.
Context `{FloatOps}.



End notions_group_faces.

Section notions_range.
Context `{FloatOps}.
Context (positions normals : list Vec3.t) (texcoords : list Vec2.t).

(** A corner that names a position, a texture coordinate and a normal
    that were declared; texture number 0 is the default. *)
Definition in_range (idx : int3) : Prop :=
  p idx ≤ Z.of_nat (length positions)
  ∧ t idx < Z.of_nat (length texcoords)
  ∧ n idx ≤ Z.of_nat (length normals).

End notions_range.

Section notions_libraries.
Context `{FloatOps}.

(** The material library a [mtllib] record names, and the libraries of
    a scene file in the order of its records. *)
Definition library_of (r : record) : option string :=
  if is_directive "mtllib" r then
    match sscanf (line r) "%s %s\n" with
    | (_, [_; V_s name]) => Some name
    | _ => None
    end
  else None.

Definition libraries (data : string) : list string :=
  omap library_of (records (Some data)).

(** Two scenes with the same materials. *)
Definition same_materials (s s' : SceneData.t) : Prop :=
  SceneData.materials s' = SceneData.materials s
  ∧ SceneData.num_materials s' = SceneData.num_materials s.

End notions_libraries.

Section notions_fill_contents.
Context `{FloatOps}.

(** The records of a list that carry the directive [d], in order. *)
Definition with_directive (d : string) (rs : list record) : list record :=
  filter (λ r, is_directive d r = true) rs.

(** The record holds, after its directive, the numbers of the vector
    as [sscanf] reads them. *)
Definition scans_vec3 (r : record) (v : Vec3.t) : Prop :=
  ∃ h, sscanf (line r) "%s %f %f %f\n"
       = (4, [V_s h; V_f (Vec3.x v); V_f (Vec3.y v); V_f (Vec3.z v)]).
Definition scans_vec2 (r : record) (v : Vec2.t) : Prop :=
  ∃ h, sscanf (line r) "%s %f %f\n"
       = (3, [V_s h; V_f (Vec2.x v); V_f (Vec2.y v)]).

End notions_fill_contents.

(** ** Runs of the exporter on small inputs *)

Module Example.
Import Exact.

(** One scene file with two [usemtl] directives, given twice. *)
Definition two_groups : files :=
  λ _, Some (unlines ["usemtl A"; "f 1//1 2//2 3//3"; "usemtl B"]).
Definition two_groups_twice : result SceneData.t :=
  Eval vm_compute in main zeroed two_groups ["exporter"; "a.obj"; "a.obj"].

(** A file whose texture coordinates come after its positions, and one
    where a position follows the texture coordinate. *)
Definition v_vt_vn : string := unlines ["v 0 0 0"; "vt 0.5 1"; "vn 0 0 1"].
Definition v_vt_vn_filled : result Attributes :=
  Eval vm_compute in fill_pass (Some v_vt_vn).
Definition vt_v : string := unlines ["vt 0 0"; "v 0 0 0"].
Definition vt_v_filled : result Attributes :=
  Eval vm_compute in fill_pass (Some vt_v).

(** A library with two materials, parsed into memory used before. *)
Definition two_materials : string :=
  unlines ["newmtl A"; "Ns 5"; "newmtl B"; "Ks 1 1 1"; "Ns 80"].
Definition two_materials_loaded : result SceneData.t :=
  Eval vm_compute in load_mtl_data stale two_materials SceneData.zero.

(** A material with two [map_bump] lines, parsed into memory used
    before and into zeroed memory. *)
Definition two_bumps : string :=
  unlines ["newmtl A"; "map_bump first.png"; "map_bump second.png"].
Definition two_bumps_on_stale : result SceneData.t :=
  Eval vm_compute in load_mtl_data stale two_bumps SceneData.zero.
Definition two_bumps_on_zeroed : result SceneData.t :=
  Eval vm_compute in load_mtl_data zeroed two_bumps SceneData.zero.

(** Attribute arrays and two groups of corners for the deduplicator. *)
Definition one_position : list Vec3.t := [origin].
Definition two_positions : list Vec3.t := [origin; origin].
Definition corner_a : int3 := {| p := 1; t := 1; n := 1 |}.
Definition corner_b : int3 := {| p := 2; t := 0; n := 1 |}.
Definition corner_c : int3 := {| p := 1; t := 0; n := 1 |}.
Definition uv_0_1 : Vec2.t := Vec2.mk _ 0%Q 1%Q.
Definition uv_0_0 : Vec2.t := Vec2.mk _ 0%Q 0%Q.
Definition uv_quarter : Vec2.t := Vec2.mk _ (1 # 4)%Q (1 # 4)%Q.
Definition aba_deduplicated : result Buffers :=
  Eval vm_compute in
    dedup two_positions one_position [tex; uv_0_1] [corner_a; corner_b; corner_a].
Definition a_deduplicated : result Buffers :=
  Eval vm_compute in
    dedup one_position one_position [tex; uv_0_0] [corner_a].
Definition ac_deduplicated : result Buffers :=
  Eval vm_compute in
    dedup one_position one_position (tex :: [uv_quarter]) [corner_a; corner_c].

(** A quad as two triangles that share the vertices 0 and 2; the
    first triangle has the identity texture mapping. *)
Definition at_xy (x y : Q) : SimpleVertex.t :=
  SimpleVertex.mk _ (Vec3.mk _ x y 0%Q) (Vec3.mk _ 0%Q 0%Q 1%Q) (Vec2.mk _ x y).
Definition quad : list SimpleVertex.t :=
  [at_xy 0 0; at_xy 1 0; at_xy 0 1;
   SimpleVertex.mk _ (Vec3.mk _ (-1)%Q 1%Q 0%Q) (Vec3.mk _ 0%Q 0%Q 1%Q)
     (Vec2.mk _ 1%Q 1%Q)].
Definition quad_indices : list Z := [0; 1; 2; 0; 2; 3].
Definition quad_tangents : result (list Vertex.t) :=
  Eval vm_compute in calculate_tangets zeroed quad 4 quad_indices 4 6.
Definition triangle_tangents : result (list Vertex.t) :=
  Eval vm_compute in calculate_tangets zeroed quad 3 quad_indices 4 3.

(** A file whose face comes before its [usemtl] record, one that has
    them the right way round, and a group loop at its start with one
    slot for the triangles and the mesh of a group; the models have
    an element to spare, which the copy of the material name runs
    into. *)
Definition face_first : string := unlines ["f 1//1 2//2 3//3"; "usemtl A"].
Definition face_second : string := unlines ["usemtl A"; "f 1//1 2//2 3//3"].
Definition refused_first : string := unlines ["f 1 2"; "usemtl A"].
Definition one_slot : Groups :=
  {| mesh_triangles := -1;
     current_mesh := -1;
     current_model := -1;
     prev_line := None;
     all_triangles := [[]];
     meshes := [fresh_mesh stale 0];
     models := [fresh_model stale 0; fresh_model stale 1] |}.

Definition refused_first_groups : result Groups :=
  Eval vm_compute in group_pass 0 (Some refused_first) one_slot.



(** One file with a face the group loop would refuse. *)
Definition bad_face : files :=
  λ _, Some (unlines ["usemtl A"; "f 1 2"]).
Definition bad_face_loaded : result SceneData.t :=
  Eval vm_compute in load_obj_data stale bad_face (unlines ["usemtl A"; "f 1 2"]) SceneData.zero.

(** A second library parsed after [two_materials], and a library that
    starts with a [map_bump] line. *)
Definition third_material : string := unlines ["map_Kd late.png"; "newmtl C"].
Definition second_library_loaded : result SceneData.t :=
  Eval vm_compute in
    match two_materials_loaded with
    | Ok scene => load_mtl_data stale third_material scene
    | Err e => Err e
    end.
Definition bump_first : string := unlines ["# materials"; "map_bump a.png"; "newmtl A"].

(** A library whose first record starts with a word of 64 characters,
    one more than [line_header] has room for. *)
Definition long_word_first : string :=
  unlines ["xxxxxxxxxxxxxxxxxxxxxxxxxxxxxxxxxxxxxxxxxxxxxxxxxxxxxxxxxxxxxxxx";
           "map_bump a.png"].
Definition long_word_first_loaded : result SceneData.t :=
  Eval vm_compute in load_mtl_data stale long_word_first SceneData.zero.




(** An allocator that leaves the number of the slot in the tangent and
    the bitangent of a new vertex; the quad with its first triangle
    only; and one triangle on the corners a, b, a. *)
Definition numbered : Heap := {|
  fresh_material := fresh_material stale;
  fresh_mesh := fresh_mesh stale;
  fresh_model := fresh_model stale;
  fresh_vertex j :=
    Vertex.mk _ origin origin
      (Vec3.mk _ (inject_Z (Z.of_nat j)) 0%Q 0%Q)
      (Vec3.mk _ 0%Q (inject_Z (Z.of_nat j)) 0%Q)
      (Vec2.mk _ 0%Q 0%Q);
|}.
Definition quad_first_triangle : result (list Vertex.t) :=
  Eval vm_compute in calculate_tangets numbered quad 4 quad_indices 4 3.
Definition triangle_aba : list Triangle :=
  [ {| vertex := (corner_a, corner_b, corner_a) |} ].
Definition triangle_aba_deduplicated : result Buffers :=
  Eval vm_compute in
    dedup two_positions one_position [tex; uv_0_1] (corners triangle_aba).
Definition corner_relative : int3 := {| p := -1; t := 0; n := 1 |}.


(** A scene file that names a material library, and its library. *)
Definition scene_with_library : string :=
  unlines ["mtllib a.mtl"; "usemtl A"; "v 0 0 0"].
Definition with_library : files :=
  λ name, if String.eqb name "a.mtl" then Some two_materials else None.
Definition with_library_loaded : result SceneData.t :=
  Eval vm_compute in
    load_obj_data stale with_library scene_with_library SceneData.zero.


(** The counters of the counting loop on [v_vt_vn], and the group loop
    on a face with two corners. *)
Definition v_vt_vn_counted : result Counts :=
  Eval vm_compute in count_pass stale no_files (Some v_vt_vn) SceneData.zero.
Definition two_corners : string := unlines ["usemtl A"; "f 1//1 2//2"].
Definition two_corners_groups : result Groups :=
  Eval vm_compute in group_pass 0 (Some two_corners) one_slot.


(** A position with two numbers only. *)
Definition short_v : string := unlines ["vn 0 0 1"; "v 1 2"].
Definition short_v_filled : result Attributes :=
  Eval vm_compute in fill_pass (Some short_v).

End Example.

(** * Properties *)

(** ** The [result] monad *)

Lemma bind_Ok {A B} (r : result A) (k : A → result B) (b : B) :
  r ≫= k = Ok b ↔ ∃ a, r = Ok a ∧ k a = Ok b.
Proof.
  destruct r as [a|e]; simpl; split.
  - intros Hk. by exists a.
  - by intros (a' & [= ->] & Hk).
  - done.
  - by intros (a' & ? & _).
Qed.

Lemma assert_Ok (c : bool) (u : unit) : assert c = Ok u ↔ c = true.
Proof. destruct c, u; simpl; split; congruence. Qed.

Lemma read_Ok {A} (a : array_name) (l : list A) (i : Z) (x : A) :
  read a l i = Ok x ↔ 0 ≤ i ∧ l !! Z.to_nat i = Some x.
Proof.
  unfold read. case_bool_decide; [|split; [done | lia]].
  destruct (l !! Z.to_nat i) as [y|]; split.
  - by intros [= ->].
  - by intros [_ [= ->]].
  - done.
  - by intros [_ ?].
Qed.

Lemma write_Ok {A} (a : array_name) (l l' : list A) (i : Z) (x : A) :
  write a l i x = Ok l' ↔
  0 ≤ i < Z.of_nat (length l) ∧ l' = <[Z.to_nat i := x]> l.
Proof.
  unfold write. case_bool_decide; split.
  - by intros [= <-].
  - by intros [_ ->].
  - done.
  - by intros [? _].
Qed.

Lemma modify_Ok {A} (a : array_name) (l l' : list A) (i : Z) (f : A → A) :
  modify a l i f = Ok l' ↔
  ∃ x, 0 ≤ i ∧ l !! Z.to_nat i = Some x ∧ l' = <[Z.to_nat i := f x]> l.
Proof.
  unfold modify. rewrite bind_Ok. split.
  - intros (x & Hr & Hw). apply read_Ok in Hr as [? ?].
    apply write_Ok in Hw as [? ?]. by exists x.
  - intros (x & ? & Hx & ->). exists x. rewrite read_Ok, write_Ok.
    apply lookup_lt_Some in Hx as ?. repeat split; [done..|lia|lia].
Qed.

Lemma modify_length {A} (a : array_name) (l l' : list A) (i : Z) (f : A → A) :
  modify a l i f = Ok l' → length l' = length l.
Proof. rewrite modify_Ok. intros (x & _ & _ & ->). apply length_insert. Qed.

(** ** Words in [char] arrays *)

Lemma fits_Ok (a : array_name) (size : nat) (s : string) (u : unit) :
  fits a size s = Ok u ↔ (String.length s < size)%nat.
Proof. unfold fits. destruct u. case_bool_decide; split; done. Qed.



Lemma string_drop_short (n : nat) (s : string) :
  (String.length s ≤ n)%nat → string_drop n s = EmptyString.
Proof.
  revert s. induction n as [|n IH]; intros [|c s]; cbn; try done; try lia.
  intros ?. apply IH. lia.
Qed.

Lemma store_word_Ok {A} (a : array_name) (l l' : list A) (i : Z)
    (field : array_name) (size : nat) (set : string → A → A) (s : string) :
  store_word a l i field size set s = Ok l' ↔
  (String.length s < size)%nat ∧ modify a l i (set s) = Ok l'.
Proof.
  unfold store_word. rewrite bind_Ok. split.
  - intros (x & _ & (u & Hf%fits_Ok & Hm)%bind_Ok). done.
  - intros [Hf Hm]. pose proof Hm as (x & ? & Hx & _)%modify_Ok.
    exists x. split; [by apply read_Ok|].
    apply bind_Ok. exists (). split; [by apply fits_Ok | done].
Qed.

Section header.
Context `{FloatOps}.

Lemma line_header_Ok (size : nat) (l h : string) :
  line_header size l = Ok h ↔
  (String.length (first_word l) < size)%nat ∧ h = first_word l.
Proof.
  unfold line_header. rewrite bind_Ok. split.
  - intros (u & Hf%fits_Ok & [= <-]). done.
  - intros [Hf ->]. exists (). split; [by apply fits_Ok | done].
Qed.

Lemma line_header_fits (size : nat) (l : string) :
  (String.length (first_word l) < size)%nat →
  line_header size l = Ok (first_word l).
Proof. intros Hf. by apply line_header_Ok. Qed.

End header.

(** A run of [F] that succeeded has read its header: go on with the
    word in place of the read. *)
Tactic Notation "read_header" reference(F) :=
  let Hrun := fresh "Hrun" in
  let Hfit := fresh "Hfit" in
  intros Hrun; pose proof Hrun as Hfit; unfold F in Hfit;
  cbv beta iota zeta in Hfit; apply bind_Ok in Hfit; destruct Hfit as (? & Hfit & _);
  apply line_header_Ok in Hfit; destruct Hfit as [Hfit _];
  revert Hrun; unfold F; rewrite (line_header_fits _ _ Hfit);
  cbn [mbind result_bind].

(** Peel the binds of a hypothesis that says a computation succeeded. *)
Ltac inv_ok :=
  repeat match goal with
  | H : _ ≫= _ = Ok _ |- _ =>
      apply bind_Ok in H; destruct H as (? & ? & H)
  | H : assert _ = Ok _ |- _ => apply assert_Ok in H
  | H : fits _ _ _ = Ok _ |- _ => apply fits_Ok in H
  | H : line_header _ _ = Ok _ |- _ =>
      apply line_header_Ok in H; destruct H as [? ->]
  | H : store_word _ _ _ _ _ _ _ = Ok _ |- _ =>
      apply store_word_Ok in H; destruct H as [? H]
  | H : Ok _ = Ok _ |- _ => injection H as H
  | H : Err _ = Ok _ |- _ => discriminate H
  | H : mret _ = Ok _ |- _ => injection H as H
  end.

Lemma for_each_app {A S} (body : A → S → result S) (l1 l2 : list A) (s : S) :
  for_each body (l1 ++ l2) s = for_each body l1 s ≫= for_each body l2.
Proof.
  revert s. induction l1 as [|a l1 IH]; intros s; simpl; [done|].
  destruct (body a s) as [s'|e]; simpl; [apply IH | done].
Qed.

(** A property every turn keeps holds after the loop. *)
Lemma for_each_invariant {A S} (body : A → S → result S) (P : S → Prop)
    (l : list A) (s s' : S) :
  (∀ a s1 s2, a ∈ l → P s1 → body a s1 = Ok s2 → P s2) →
  P s → for_each body l s = Ok s' → P s'.
Proof.
  revert s. induction l as [|a l IH]; intros s Hstep Hs Hrun; simpl in Hrun.
  - by injection Hrun as <-.
  - inv_ok. eapply IH; [|eapply Hstep; [left|done..]|done].
    intros a' s1 s2 Ha'. apply Hstep. by right.
Qed.

(** ** The line scanner *)

Lemma split_line_shorter (buffer l rest : string) :
  split_line buffer = (l, Some rest) →
  (String.length rest < String.length buffer)%nat.
Proof.
  revert l. induction buffer as [|c buffer IH]; intros l; simpl; [done|].
  destruct (Ascii.eqb c nl).
  - intros [= _ ->]. lia.
  - destruct (split_line buffer) as [l' next] eqn:Hs.
    intros [= _ ->]. specialize (IH _ eq_refl). lia.
Qed.

Lemma records_upto_enough (fuel1 fuel2 : nat) (file_data : option string) :
  (cursor_length file_data ≤ fuel1)%nat →
  (cursor_length file_data ≤ fuel2)%nat →
  records_upto fuel1 file_data = records_upto fuel2 file_data.
Proof.
  revert fuel2 file_data.
  induction fuel1 as [|fuel1 IH]; intros [|fuel2] [buffer|]; simpl;
    try done; try lia.
  intros H1 H2. unfold get_line_from_buffer.
  destruct (split_line buffer) as [l next] eqn:Hs.
  f_equal. destruct next as [rest|]; [|by destruct fuel1, fuel2].
  apply split_line_shorter in Hs. apply IH; simpl; lia.
Qed.

(** The loop unrolled once. *)
Lemma records_Some (buffer : string) :
  records (Some buffer) =
  {| this_line := buffer;
     line := (get_line_from_buffer 1024 buffer).1;
     next_line := (get_line_from_buffer 1024 buffer).2 |}
    :: records (get_line_from_buffer 1024 buffer).2.
Proof.
  unfold records at 1. simpl. unfold get_line_from_buffer.
  destruct (split_line buffer) as [l next] eqn:Hs. simpl. f_equal.
  apply records_upto_enough; [|done].
  destruct next as [rest|]; simpl; [|lia].
  apply split_line_shorter in Hs. lia.
Qed.

Lemma records_None : records None = [].
Proof. done. Qed.

(** A scanning loop ends on a [NULL] cursor, whatever the file. *)
Lemma last_record_NULL (file_data : option string) (r : record) :
  last (records file_data) = Some r → next_line r = None.
Proof.
  remember (cursor_length file_data) as k eqn:Hk.
  assert (Hle : (cursor_length file_data ≤ k)%nat) by lia. clear Hk.
  revert file_data Hle. induction k as [|k IH]; intros [buffer|] Hle;
    cbn [cursor_length] in Hle; try done; try lia.
  rewrite records_Some. unfold get_line_from_buffer.
  destruct (split_line buffer) as [l [rest|]] eqn:Hs; cbn [fst snd].
  - apply split_line_shorter in Hs.
    specialize (IH (Some rest)). cbn [cursor_length] in IH.
    rewrite last_cons. destruct (last (records (Some rest))) as [r'|] eqn:Hl.
    + intros [= <-]. apply IH; [lia | done].
    + rewrite records_Some in Hl. by rewrite last_cons in Hl; destruct (last _).
  - rewrite records_None. by intros [= <-].
Qed.

(** A scanning loop ends on a [NULL] cursor, whatever the file. *)
Lemma cursor_after_NULL (file_data : option string) :
  cursor_after file_data = None.
Proof.
  unfold cursor_after.
  destruct (last (records file_data)) as [r|] eqn:Hl.
  - by eapply last_record_NULL.
  - destruct file_data as [buffer|]; [|done].
    rewrite records_Some in Hl. by rewrite last_cons in Hl; destruct (last _).
Qed.

(** ** Counting: one mesh and one model for every [usemtl] *)

Section counting.
Context `{FloatOps} (heap : Heap) (fs : files).

Lemma realloc_length {A} (fresh : nat → A) (a : list A) (k : Z) :
  length (realloc fresh a k) = Z.to_nat k.
Proof.
  unfold realloc.
  rewrite length_app, length_take, length_fmap, length_seq. lia.
Qed.

Lemma to_uint32_succ (a : Z) (k : nat) :
  to_uint32 (to_uint32 (a + 1) + Z.of_nat k) = to_uint32 (a + Z.of_nat (S k)).
Proof.
  unfold to_uint32. rewrite Zplus_mod_idemp_l. f_equal. lia.
Qed.

(** The material parser leaves meshes and models alone. *)
Definition same_groups (s s' : SceneData.t) : Prop :=
  SceneData.meshes s' = SceneData.meshes s
  ∧ SceneData.models s' = SceneData.models s
  ∧ SceneData.num_meshes s' = SceneData.num_meshes s
  ∧ SceneData.num_models s' = SceneData.num_models s.

Lemma load_mtl_data_groups (data : string) (scene scene' : SceneData.t) :
  load_mtl_data heap data scene = Ok scene' → same_groups scene scene'.
Proof.
  unfold load_mtl_data. intros Hrun. inv_ok.
  destruct x0 as [cur mats]. inv_ok. subst scene'.
  assert (same_groups scene x) as (Hm & Hd & Hnm & Hnd).
  { eapply (for_each_invariant mtl_count_line (same_groups scene)); [| |done].
    - intros r s1 s2 _ Hs1. read_header mtl_count_line.
      destruct (streq _ _); intros [= <-]; [|done].
      by destruct s1.
    - done. }
  by destruct x.
Qed.

Lemma count_line_usemtl (r : record) (c c' : Counts) :
  count_line heap fs r c = Ok c' →
  SceneData.meshes (counted_scene c') = SceneData.meshes (counted_scene c)
  ∧ SceneData.models (counted_scene c') = SceneData.models (counted_scene c)
  ∧ if is_directive "usemtl" r then
      SceneData.num_meshes (counted_scene c')
        = to_uint32 (SceneData.num_meshes (counted_scene c) + 1)
      ∧ SceneData.num_models (counted_scene c')
        = to_uint32 (SceneData.num_models (counted_scene c) + 1)
      ∧ num_meshes c' = to_uint32 (num_meshes c + 1)
    else
      SceneData.num_meshes (counted_scene c')
        = SceneData.num_meshes (counted_scene c)
      ∧ SceneData.num_models (counted_scene c')
        = SceneData.num_models (counted_scene c)
      ∧ num_meshes c' = num_meshes c.
Proof.
  read_header count_line. unfold is_directive, directive_of, streq.
  destruct c as [nv nt nn nm scene]. cbn [counted_scene num_meshes].
  destruct (String.eqb_spec (first_word (line r)) "usemtl") as [->|Hne].
  - cbn. intros [= <-]. by destruct scene.
  - repeat match goal with
      | |- context [String.eqb ?a ?b] =>
          destruct (String.eqb_spec a b); [try congruence|]
      end;
      try (intros [= <-]; by destruct scene).
    destruct (sscanf (line r) "%s %s\n") as [matches vs].
    intros Hrun. inv_ok.
    destruct vs as [|? [|[mtl_filename| |] [|? ?]]];
      try (injection Hrun as <-; by destruct scene).
    inv_ok. subst c'. cbn [counted_scene num_meshes].
    unfold _load_mtl_file in *. inv_ok.
    match goal with
    | Hl : load_mtl_data _ _ _ = Ok _ |- _ =>
        apply load_mtl_data_groups in Hl as (? & ? & ? & ?)
    end.
    by cbn in *.
Qed.

Lemma count_lines_usemtl (rs : list record) (c c' : Counts) :
  let k := Z.of_nat (length (filter (λ r, is_directive "usemtl" r = true) rs)) in
  while_lines (count_line heap fs) rs c = Ok c' →
  SceneData.meshes (counted_scene c') = SceneData.meshes (counted_scene c)
  ∧ SceneData.models (counted_scene c') = SceneData.models (counted_scene c)
  ∧ (0 ≤ SceneData.num_meshes (counted_scene c) < 2 ^ 32 →
     SceneData.num_meshes (counted_scene c')
       = to_uint32 (SceneData.num_meshes (counted_scene c) + k))
  ∧ (0 ≤ SceneData.num_models (counted_scene c) < 2 ^ 32 →
     SceneData.num_models (counted_scene c')
       = to_uint32 (SceneData.num_models (counted_scene c) + k))
  ∧ (0 ≤ num_meshes c < 2 ^ 32 →
     num_meshes c' = to_uint32 (num_meshes c + k)).
Proof.
  unfold while_lines. revert c.
  induction rs as [|r rs IH]; intros c; cbn [for_each].
  - intros [= <-]. cbn. unfold to_uint32.
    repeat split; try done; intros ?; rewrite Z.add_0_r, Z.mod_small; lia.
  - intros Hrun. inv_ok. rename x into c1.
    match goal with Hl : count_line _ _ _ _ = Ok _ |- _ =>
      apply count_line_usemtl in Hl; destruct Hl as (Hm & Hd & Hc) end.
    apply IH in Hrun as (Hm' & Hd' & Hnm & Hnd & Hn).
    rewrite Hm', Hd'. split; [done|]. split; [done|].
    rewrite filter_cons.
    destruct (is_directive "usemtl" r) eqn:Hu.
    + destruct Hc as (E1 & E2 & E3).
      rewrite decide_True by done. cbn [length].
      assert (∀ a, 0 ≤ to_uint32 a < 2 ^ 32)
        by (intros a; apply Z.mod_pos_bound; lia).
      rewrite Hnm, Hnd, Hn, E1, E2, E3 by (rewrite ?E1, ?E2, ?E3; done).
      by rewrite !to_uint32_succ.
    + destruct Hc as (E1 & E2 & E3).
      rewrite decide_False by done.
      rewrite E1, E2, E3 in *. done.
Qed.

End counting.

Section whole_file.
Context `{FloatOps} (heap : Heap) (fs : files).

(** After the counting loop [_load_obj] assigns the cursor to
    [original_data] instead of the other way round (compare
    [_load_mtl_file]), so the two later loops start on a [NULL] cursor
    and see no record. *)
Lemma fill_pass_NULL : fill_pass None = Ok no_attributes.
Proof. done. Qed.

Lemma group_pass_NULL (textured : Z) (g : Groups) :
  group_pass textured None g = Ok g.
Proof. done. Qed.

Lemma create_mesh_empty (ps ns : list Vec3.t) (ts : list Vec2.t) :
  create_mesh heap ps ns ts (corners []) = Ok (no_buffers, []).
Proof. done. Qed.

Lemma create_meshes_empty (ps ns : list Vec3.t) (ts : list Vec2.t) (k : nat) :
  mapM_result (λ triangles, create_mesh heap ps ns ts (corners triangles))
    (replicate k []) = Ok (replicate k (no_buffers, [])).
Proof.
  induction k as [|k IH]; [done|]. cbn [replicate mapM_result].
  rewrite create_mesh_empty. cbn. by rewrite IH.
Qed.

(** What [_load_obj] leaves in the scene: the counters of the counting
    loop and the two arrays grown to them. *)
Lemma load_obj_data_Ok (data : string) (scene scene' : SceneData.t) :
  load_obj_data heap fs data scene = Ok scene' ↔
  ∃ c, count_pass heap fs (Some data) scene = Ok c
       ∧ scene' =
         SceneData.set_models
           (realloc (fresh_model heap) (SceneData.models (counted_scene c))
              (SceneData.num_models (counted_scene c)))
           (SceneData.set_meshes
              (realloc (fresh_mesh heap) (SceneData.meshes (counted_scene c))
                 (SceneData.num_meshes (counted_scene c)))
              (counted_scene c)).
Proof.
  unfold load_obj_data. rewrite !cursor_after_NULL.
  destruct (count_pass heap fs (Some data) scene) as [c|e];
    cbn [mbind result_bind].
  - rewrite fill_pass_NULL. cbn [mbind result_bind].
    rewrite group_pass_NULL. cbn [mbind result_bind all_triangles
      meshes models positions normals texcoords no_attributes].
    rewrite create_meshes_empty. cbn [mbind result_bind]. split.
    + intros [= <-]. exists c. split; [done|].
      by destruct (counted_scene c).
    + intros (c' & [= <-] & ->). by destruct (counted_scene c).
  - split; [done|]. by intros (c' & ? & _).
Qed.

Lemma load_obj_counts (filename : string) (scene scene' : SceneData.t) :
  consistent scene →
  SceneData.num_meshes scene < 2 ^ 32 →
  SceneData.num_models scene < 2 ^ 32 →
  _load_obj heap fs filename scene = Ok scene' →
  let k := Z.of_nat (usemtl_directives (default EmptyString (fs filename))) in
  consistent scene'
  ∧ SceneData.num_meshes scene' = to_uint32 (SceneData.num_meshes scene + k)
  ∧ SceneData.num_models scene' = to_uint32 (SceneData.num_models scene + k).
Proof.
  intros [Hm Hd] Rm Rd Hrun. unfold _load_obj, load_file_data in Hrun.
  destruct (fs filename) as [data|]; [|done]. cbn in Hrun.
  apply load_obj_data_Ok in Hrun as (c & Hc & ->).
  apply count_lines_usemtl in Hc as (_ & _ & Hnm & Hnd & _).
  cbn [counted_scene] in Hnm, Hnd. cbn [default].
  fold (usemtl_directives data) in Hnm, Hnd.
  assert (∀ a, 0 ≤ to_uint32 a < 2 ^ 32)
    by (intros a; apply Z.mod_pos_bound; lia).
  unfold consistent. cbn. rewrite !realloc_length.
  rewrite Hnm, Hnd by lia.
  repeat split; try done; rewrite Z2Nat.id; try done;
    match goal with Hb : ∀ a, _ |- _ => apply Hb end.
Qed.

(** C8. Over the files of a run, started on a scene whose counters
    agree with its arrays, the number of meshes and the number of
    models added to the scene both equal the number of [usemtl]
    directives in the files (as long as the 32-bit counters do not wrap). *)
Theorem one_mesh_and_model_per_usemtl
    (filenames : list string) (scene scene' : SceneData.t) :
  let k := usemtl_total fs filenames in
  consistent scene →
  SceneData.num_meshes scene + Z.of_nat k < 2 ^ 32 →
  SceneData.num_models scene + Z.of_nat k < 2 ^ 32 →
  for_each (_load_obj heap fs) filenames scene = Ok scene' →
  length (SceneData.meshes scene') = (length (SceneData.meshes scene) + k)%nat
  ∧ length (SceneData.models scene') = (length (SceneData.models scene) + k)%nat
  ∧ SceneData.num_meshes scene' = SceneData.num_meshes scene + Z.of_nat k
  ∧ SceneData.num_models scene' = SceneData.num_models scene + Z.of_nat k.
Proof.
  cbn zeta. revert scene.
  induction filenames as [|f filenames IH]; intros scene Hc Rm Rd Hrun;
    cbn [for_each usemtl_total sum_list_with] in *.
  - injection Hrun as <-. lia.
  - inv_ok. rename x into scene1.
    fold (usemtl_total fs filenames) in *.
    set (k1 := usemtl_directives (default EmptyString (fs f))) in *.
    set (k2 := usemtl_total fs filenames) in *.
    match goal with Hl : _load_obj _ _ _ _ = Ok _ |- _ =>
      apply load_obj_counts in Hl as (Hc1 & Em & Ed); [|done|lia..] end.
    fold k1 in Em, Ed.
    destruct Hc as [Hm Hd]. pose proof Hc1 as [Hm1 Hd1].
    unfold to_uint32 in Em, Ed.
    rewrite Z.mod_small in Em, Ed by lia.
    apply IH in Hrun; [|done|lia..]. lia.
Qed.

End whole_file.

(** A run over one file with two [usemtl] directives, given twice. *)
Lemma one_mesh_and_model_per_usemtl_witness :
  ∃ scene',
    main Exact.zeroed Example.two_groups ["exporter"; "a.obj"; "a.obj"] = Ok scene'
    ∧ length (SceneData.meshes scene') = 4%nat
    ∧ length (SceneData.models scene') = 4%nat
    ∧ SceneData.num_meshes scene' = 4
    ∧ SceneData.num_models scene' = 4.
Proof.
  assert (∃ scene', Example.two_groups_twice = Ok scene') as [scene' E]
    by (eexists; reflexivity).
  assert (main Exact.zeroed Example.two_groups ["exporter"; "a.obj"; "a.obj"]
          = Ok scene') as Hrun by (rewrite <- E; reflexivity).
  exists scene'. split; [exact Hrun|].
  pose proof (one_mesh_and_model_per_usemtl Exact.zeroed Example.two_groups
                ["a.obj"; "a.obj"] SceneData.zero scene') as Hthm.
  cbv zeta in Hthm.
  specialize (Hthm ltac:(by vm_compute) ltac:(by vm_compute)
                ltac:(by vm_compute) Hrun).
  injection E as <-.
  vm_compute in Hthm. vm_compute. exact Hthm.
Defined.

(** ** What [sscanf] stores *)

Section sscanf_shape.
Context `{FloatOps}.

(** The values stored follow the conversions of the format, up to the
    point where the scan stopped. *)
Fixpoint shape (ds : list directive) (vs : list value) : Prop :=
  match ds with
  | [] => vs = []
  | D_s :: ds' => vs = [] ∨ ∃ s vs', vs = V_s s :: vs' ∧ shape ds' vs'
  | D_d :: ds' => vs = [] ∨ ∃ z vs', vs = V_d z :: vs' ∧ shape ds' vs'
  | D_f :: ds' => vs = [] ∨ ∃ x vs', vs = V_f x :: vs' ∧ shape ds' vs'
  | D_space :: ds' | D_char _ :: ds' => shape ds' vs
  end.

Lemma shape_nil (ds : list directive) : shape ds [].
Proof. induction ds as [|[] ds IH]; cbn; auto. Qed.

Lemma run_format_shape (ds : list directive) (input : string) :
  shape ds (run_format ds input).1.
Proof.
  revert input. induction ds as [|d ds IH]; intros input; [done|].
  destruct d; cbn [run_format shape].
  - destruct (scan_s input) as [s rest| |]; cbn; auto.
    specialize (IH rest). destruct (run_format ds rest); cbn in *. eauto.
  - destruct (scan_d input) as [z rest| |]; cbn; auto.
    specialize (IH rest). destruct (run_format ds rest); cbn in *. eauto.
  - destruct (scan_f input) as [x rest| |]; cbn; auto.
    specialize (IH rest). destruct (run_format ds rest); cbn in *. eauto.
  - apply IH.
  - destruct input as [|c' rest]; [apply shape_nil|].
    destruct (Ascii.eqb c c'); [apply IH | apply shape_nil].
Qed.

Lemma sscanf_shape (input fmt : string) (matches : Z) (vs : list value) :
  sscanf input fmt = (matches, vs) →
  shape (parse_format fmt) vs
  ∧ (matches = Z.of_nat (length vs) ∨ matches = -1 ∧ vs = []).
Proof.
  unfold sscanf. pose proof (run_format_shape (parse_format fmt) input) as Hs.
  destruct (run_format (parse_format fmt) input) as [[|w ws] [|]];
    intros [= <- <-]; cbn in *; auto using shape_nil.
Qed.

End sscanf_shape.

(** From [sscanf ... = (matches, vs)] and the value of [matches], the
    values stored. *)
Ltac sscanf_inv Hs :=
  apply sscanf_shape in Hs;
  match type of Hs with
  | shape (parse_format ?fmt) _ ∧ _ =>
      let ds := eval vm_compute in (parse_format fmt) in
      change (parse_format fmt) with ds in Hs
  end;
  cbn [shape] in Hs;
  let Hshape := fresh "Hshape" in
  let Hm := fresh "Hm" in
  destruct Hs as [Hshape Hm];
  repeat match type of Hshape with
  | _ ∨ _ => destruct Hshape as [->|(? & ? & -> & Hshape)]
  | _ = [] => subst
  end;
  cbn [length] in Hm;
  try (destruct Hm as [Hm|[Hm _]]; lia).

(** ** The attribute-fill loop and its [textured] flag *)

Section fill.
Context `{FloatOps}.

Lemma is_directive_exclusive (d d' : string) (r : record) :
  is_directive d r = true → d ≠ d' → is_directive d' r = false.
Proof.
  unfold is_directive, streq. intros Hd%String.eqb_eq Hne.
  apply String.eqb_neq. congruence.
Qed.

(** A record that carries a directive the program knows has a first
    word that fits [line_header]. *)
Lemma is_directive_header (d : string) (size : nat) (r : record) :
  is_directive d r = true → (String.length d < size)%nat →
  line_header size (line r) = Ok (first_word (line r)).
Proof.
  unfold is_directive, directive_of, streq. intros Hd%String.eqb_eq Hlen.
  apply line_header_fits. by rewrite Hd.
Qed.

Lemma fill_line_textured (r : record) (a a' : Attributes) :
  fill_line r a = Ok a' →
  textured a' =
    if is_directive "v" r then 0
    else if is_directive "vt" r then 1
    else textured a.
Proof.
  read_header fill_line. unfold is_directive, directive_of.
  destruct (streq (first_word (line r)) "v").
  { destruct (sscanf _ _) as [matches vs] eqn:Hs. intros Hrun. inv_ok.
    apply bool_decide_eq_true in H0.
    sscanf_inv Hs. by injection Hrun as <-. }
  destruct (streq (first_word (line r)) "vt").
  { destruct (sscanf _ _) as [matches vs] eqn:Hs. intros Hrun. inv_ok.
    apply bool_decide_eq_true in H0.
    sscanf_inv Hs. by injection Hrun as <-. }
  destruct (streq (first_word (line r)) "vn").
  { destruct (sscanf _ _) as [matches vs] eqn:Hs. intros Hrun. inv_ok.
    apply bool_decide_eq_true in H0.
    sscanf_inv Hs. by injection Hrun as <-. }
  by intros [= <-].
Qed.

(** The flag after a run of the loop from any state: it is set when
    a [vt] record has no [v] record behind it, or when it was set
    before and no [v] record came. *)
Lemma fill_lines_textured (rs : list record) (a a' : Attributes) :
  while_lines fill_line rs a = Ok a' →
  (textured a = 0 ∨ textured a = 1 → textured a' = 0 ∨ textured a' = 1)
  ∧ (textured a' ≠ 0 ↔
     (∃ before r after,
        rs = before ++ r :: after
        ∧ is_directive "vt" r = true
        ∧ ∀ r', r' ∈ after → is_directive "v" r' = false)
     ∨ (textured a ≠ 0 ∧ ∀ r', r' ∈ rs → is_directive "v" r' = false)).
Proof.
  unfold while_lines. revert a.
  induction rs as [|r rs IH]; intros a; cbn [for_each].
  - intros [= <-]. split; [done|]. split.
    + intros ?. right. split; [done|]. by intros r' ?%elem_of_nil.
    + intros [(before & r & after & Hrs & _)|[? _]]; [|done].
      by destruct before.
  - intros Hrun. inv_ok. rename x into a1.
    match goal with Hl : fill_line _ _ = Ok _ |- _ =>
      apply fill_line_textured in Hl; rename Hl into Ha1 end.
    apply IH in Hrun as [Hbit Hiff]. split.
    { intros Ha. apply Hbit. rewrite Ha1. repeat case_match; auto. }
    rewrite Hiff. clear Hiff Hbit IH. split.
    + intros [(before & r0 & after & -> & Hvt & Hv)|[Hset Hv]].
      * left. by exists (r :: before), r0, after.
      * destruct (is_directive "v" r) eqn:Ev; [done|].
        destruct (is_directive "vt" r) eqn:Evt.
        -- left. by exists [], r, rs.
        -- right. rewrite Ha1 in Hset. split; [done|].
           intros r' [->|?]%elem_of_cons; auto.
    + intros [(before & r0 & after & Hrs & Hvt & Hv)|[Hset Hv]].
      * destruct before as [|r1 before]; cbn in Hrs; injection Hrs as <- ->.
        -- right. rewrite Ha1, Hvt.
           rewrite (is_directive_exclusive "vt" "v") by done.
           split; [done | exact Hv].
        -- left. by exists before, r0, after.
      * right. rewrite Ha1.
        rewrite (Hv r) by left. split.
        -- destruct (is_directive "vt" r); [done | done].
        -- intros r' ?. apply Hv. by right.
Qed.

(** C2, as amended. After the attribute-fill loop over a file the flag
    is 0 or 1, and it is set exactly when the file has a [vt] record
    with no [v] record after it: every [v] record clears the flag,
    every [vt] record sets it. The one flag of the file then selects
    the grammar of every [f] record of the group loop. *)
Theorem textured_iff_vt_after_last_v
    (file_data : option string) (a : Attributes) :
  fill_pass file_data = Ok a →
  (textured a = 0 ∨ textured a = 1)
  ∧ (textured a ≠ 0 ↔
     ∃ before r after,
       records file_data = before ++ r :: after
       ∧ is_directive "vt" r = true
       ∧ ∀ r', r' ∈ after → is_directive "v" r' = false)
  ∧ (∀ r g, is_directive "f" r = true →
       group_line (textured a) r g =
       (f_line (textured a) r g ≫= λ g',
        Ok (set_prev_line (Some (this_line r)) g'))).
Proof.
  unfold fill_pass. intros [Hbit Hiff]%fill_lines_textured.
  split; [apply Hbit; by left|]. split.
  - rewrite Hiff. split; [|by left].
    by intros [?|[? _]].
  - intros r g Hf. unfold group_line.
    rewrite (is_directive_header "f" 16) by (done || (cbn; lia)).
    cbn [mbind result_bind].
    fold (directive_of r). fold (is_directive "usemtl" r).
    fold (is_directive "f" r).
    by rewrite (is_directive_exclusive "f" "usemtl"), Hf.
Qed.

End fill.

Lemma textured_iff_vt_after_last_v_witness :
  ∃ a, fill_pass (Some Example.v_vt_vn) = Ok a ∧ textured a ≠ 0.
Proof.
  assert (∃ a, Example.v_vt_vn_filled = Ok a) as [a E]
    by (eexists; reflexivity).
  assert (fill_pass (Some Example.v_vt_vn) = Ok a) as Hrun
    by (rewrite <- E; reflexivity).
  exists a. split; [exact Hrun|].
  apply (textured_iff_vt_after_last_v (Some Example.v_vt_vn) a Hrun).
  exists (take 1 (records (Some Example.v_vt_vn))),
    {| this_line := Exact.unlines ["vt 0.5 1"; "vn 0 0 1"];
       line := "vt 0.5 1";
       next_line := Some (Exact.unlines ["vn 0 0 1"]) |},
    (drop 2 (records (Some Example.v_vt_vn))).
  split; [by vm_compute|]. split; [by vm_compute|].
  intros r' Hr'. vm_compute in Hr'.
  repeat (apply elem_of_cons in Hr' as [->|Hr']; [by vm_compute|]).
  by apply elem_of_nil in Hr'.
Defined.

(** C2 as the spec has it fails: a file with a [vt] record whose flag is
    clear after the loop, because a [v] record follows. *)
Lemma textured_any_vt_counterexample :
  ¬ (∀ a, fill_pass (Some Example.vt_v) = Ok a →
          (textured a ≠ 0 ↔
           ∃ r, r ∈ records (Some Example.vt_v)
                ∧ is_directive "vt" r = true)).
Proof.
  intros Hclaim.
  assert (∃ a, Example.vt_v_filled = Ok a ∧ textured a = 0) as (a & E & Hflag)
    by (eexists; split; reflexivity).
  assert (fill_pass (Some Example.vt_v) = Ok a) as Hrun
    by (rewrite <- E; reflexivity).
  apply (Hclaim a Hrun); [|exact Hflag].
  exists {| this_line := Example.vt_v;
            line := "vt 0 0";
            next_line := Some (Exact.unlines ["v 0 0 0"]) |}.
  split; [|by vm_compute].
  apply list_elem_of_lookup. exists 0%nat. by vm_compute.
Qed.

(** ** Face records *)

Section faces.
Context `{FloatOps}.

(** A face record is refused with the diagnostic and status 1, or it
    gives one or two triangles. *)
Lemma face_outcomes (textured : Z) (l : string) :
  face_triangles textured l = cant_load
  ∨ ∃ tris, face_triangles textured l = Ok tris
            ∧ (length tris = 1 ∨ length tris = 2)%nat.
Proof.
  unfold face_triangles, scan_face.
  case_bool_decide.
  - destruct (sscanf l _) as [matches vs].
    destruct (_ && _); [by left|]. right. cbn.
    case_bool_decide; eauto.
  - destruct (sscanf l _) as [matches vs].
    destruct (_ && _); [by left|]. right. cbn.
    case_bool_decide; eauto.
Qed.

(** C3, where the code departs from it. A textured face record with
    five corners is not refused: [sscanf] stops after the fourth
    corner and returns 13, so the record is taken for a quad and its
    first four corners give two triangles. *)
Theorem five_corner_face_accepted :
  face_triangles 1 "f 1/1/1 2/2/2 3/3/3 4/4/4 5/5/5" =
  Ok [ {| vertex := ({| p := 1; t := 1; n := 1 |},
                     {| p := 2; t := 2; n := 2 |},
                     {| p := 3; t := 3; n := 3 |}) |};
       {| vertex := ({| p := 1; t := 1; n := 1 |},
                     {| p := 3; t := 3; n := 3 |},
                     {| p := 4; t := 4; n := 4 |}) |} ].
Proof. by vm_compute. Qed.

(** The same without texture coordinates, and a triangle followed by
    text that is no corner. *)
Lemma five_corner_face_accepted_untextured :
  ∃ tri tri2,
    face_triangles 0 "f 1//1 2//2 3//3 4//4 5//5" = Ok [tri; tri2].
Proof. do 2 eexists. by vm_compute. Qed.

Lemma trailing_text_accepted :
  ∃ tri, face_triangles 1 "f 1/1/1 2/2/2 3/3/3 and more" = Ok [tri].
Proof. eexists. by vm_compute. Qed.

(** Fewer than three corners are refused. *)
Lemma two_corner_face_refused :
  face_triangles 1 "f 1/1/1 2/2/2" = cant_load.
Proof. by vm_compute. Qed.

End faces.

(** ** The material library parser *)

Lemma to_int_small (z : Z) : - 2 ^ 31 ≤ z < 2 ^ 31 → to_int z = z.
Proof. intros ?. unfold to_int. rewrite Z.mod_small; lia. Qed.

Lemma to_uint32_small (z : Z) : 0 ≤ z < 2 ^ 32 → to_uint32 z = z.
Proof. intros ?. unfold to_uint32. by rewrite Z.mod_small. Qed.

Section materials.
Context `{FloatOps} (heap : Heap).

Lemma modify_fmap_same {A B} (g : A → B) (a : array_name)
    (l l' : list A) (i : Z) (f : A → A) :
  (∀ x, g (f x) = g x) → modify a l i f = Ok l' → g <$> l' = g <$> l.
Proof.
  intros Hg (x & ? & Hx & ->)%modify_Ok.
  rewrite list_fmap_insert, Hg. apply list_insert_id.
  by rewrite list_lookup_fmap, Hx.
Qed.

Lemma modify_fmap_set {A B} (g : A → B) (c : B) (a : array_name)
    (l l' : list A) (i : Z) (f : A → A) :
  (∀ x, g (f x) = c) → modify a l i f = Ok l' →
  g <$> l' = <[Z.to_nat i := c]> (g <$> l)
  ∧ 0 ≤ i < Z.of_nat (length l).
Proof.
  intros Hg (x & ? & Hx & ->)%modify_Ok.
  rewrite list_fmap_insert, Hg. split; [done|].
  apply lookup_lt_Some in Hx. lia.
Qed.



Lemma mtl_count_lines (rs : list record) (scene scene' : SceneData.t) :
  while_lines mtl_count_line rs scene = Ok scene' →
  SceneData.materials scene' = SceneData.materials scene
  ∧ (0 ≤ SceneData.num_materials scene < 2 ^ 32 →
     SceneData.num_materials scene'
     = to_uint32 (SceneData.num_materials scene
         + Z.of_nat (length (filter (λ r, is_directive "newmtl" r = true) rs)))).
Proof.
  unfold while_lines. revert scene.
  induction rs as [|r rs IH]; intros scene; cbn [for_each].
  - intros [= <-]. split; [done|]. intros ?. cbn.
    unfold to_uint32. rewrite Z.add_0_r, Z.mod_small; lia.
  - intros Hrun. inv_ok. rename x into scene1.
    apply IH in Hrun as [Hm Hn]. clear IH.
    rewrite filter_cons.
    match goal with Hl : mtl_count_line _ _ = Ok _ |- _ =>
      unfold mtl_count_line in Hl; inv_ok;
      change (streq (first_word (line r)) "newmtl")
        with (is_directive "newmtl" r) in Hl;
      rename Hl into Hstep
    end.
    destruct (is_directive "newmtl" r) eqn:Hd.
    + rewrite decide_True by done. injection Hstep as <-.
      rewrite Hm. split; [by destruct scene|]. intros Hr.
      rewrite Hn.
      * destruct scene; cbn. apply to_uint32_succ.
      * destruct scene; cbn. apply Z.mod_pos_bound. lia.
    + rewrite decide_False by done. by injection Hstep as <-.
Qed.

Lemma realloc_lookup_old {A} (fresh : nat → A) (a : list A) (k : Z) (i : nat) :
  (length a ≤ Z.to_nat k)%nat → (i < length a)%nat →
  realloc fresh a k !! i = a !! i.
Proof.
  intros Hk Hi. unfold realloc.
  rewrite lookup_app_l by (rewrite length_take; lia).
  apply lookup_take_lt. lia.
Qed.









End materials.


(** C5, where the code departs from it. [realloc] does not clear the
    slot of a new material and [newmtl] does not clear [normal_tex];
    when the slot holds text from an earlier use, the test
    [normal_tex[0] == 0] fails for the first [map_bump] line as well and
    the field keeps the old text. *)
Theorem first_map_bump_ignored_on_used_memory :
  ∃ scene',
    load_mtl_data Exact.stale Example.two_bumps SceneData.zero = Ok scene'
    ∧ MaterialData.normal_tex <$> SceneData.materials scene' !! 0%nat
      = Some "old_n.png".
Proof.
  assert (∃ scene', Example.two_bumps_on_stale = Ok scene'
                    ∧ MaterialData.normal_tex <$> SceneData.materials scene' !! 0%nat
                      = Some "old_n.png") as (scene' & E & Htex)
    by (eexists; split; reflexivity).
  exists scene'. split; [|exact Htex]. rewrite <- E. reflexivity.
Qed.

(** On memory that happens to be zeroed the first [map_bump] wins. *)
Lemma first_map_bump_wins_on_zeroed_memory :
  ∃ scene',
    load_mtl_data Exact.zeroed Example.two_bumps SceneData.zero = Ok scene'
    ∧ MaterialData.normal_tex <$> SceneData.materials scene' !! 0%nat
      = Some "first.png".
Proof.
  assert (∃ scene', Example.two_bumps_on_zeroed = Ok scene'
                    ∧ MaterialData.normal_tex <$> SceneData.materials scene' !! 0%nat
                      = Some "first.png") as (scene' & E & Htex)
    by (eexists; split; reflexivity).
  exists scene'. split; [|exact Htex]. rewrite <- E. reflexivity.
Qed.

(** ** The comparison of attribute indices *)

(** [int3::operator<] is a strict total order whose equivalence is
    equality, so a [std::map] keyed with it holds one entry for every
    distinct triple of indices. *)
Lemma int3_lt_irrefl (a : int3) : int3_lt a a = false.
Proof. unfold int3_lt. repeat case_bool_decide; done || lia. Qed.

Lemma int3_lt_trans (a b c : int3) :
  int3_lt a b = true → int3_lt b c = true → int3_lt a c = true.
Proof. unfold int3_lt. repeat case_bool_decide; done || lia. Qed.

Lemma int3_lt_equiv (a b : int3) :
  int3_lt a b = false ∧ int3_lt b a = false ↔ a = b.
Proof.
  split.
  - destruct a as [pa ta na], b as [pb tb nb]. unfold int3_lt. cbn.
    repeat case_bool_decide; intros [? ?]; try done; f_equal; lia.
  - intros ->. by rewrite int3_lt_irrefl.
Qed.

Lemma int3_eq_spec (a b : int3) : int3_eq a b = true ↔ a = b.
Proof.
  destruct a, b. unfold int3_eq. cbn.
  rewrite !andb_true_iff, !bool_decide_eq_true. split.
  - by intros [[-> ->] ->].
  - by intros [= -> -> ->].
Qed.

(** ** First occurrences *)

Lemma elem_of_first_occurrences (x : int3) (l : list int3) :
  x ∈ first_occurrences l ↔ x ∈ l.
Proof.
  induction l as [|y l IH]; cbn [first_occurrences]; [done|].
  rewrite !elem_of_cons, list_elem_of_filter, IH.
  destruct (decide (x = y)) as [->|Hne]; split.
  - by left.
  - by left.
  - intros [?|[_ ?]]; [done | by right].
  - intros [?|?]; [done | by right].
Qed.

Lemma first_occurrences_NoDup (l : list int3) : NoDup (first_occurrences l).
Proof.
  induction l as [|y l IH]; cbn [first_occurrences]; [constructor|].
  constructor.
  - rewrite list_elem_of_filter. by intros [? _].
  - by apply NoDup_filter.
Qed.

(** Reading one more corner adds it at the end when it is new, and
    changes nothing otherwise: the order is that of first sight. *)
Lemma first_occurrences_snoc (l : list int3) (x : int3) :
  first_occurrences (l ++ [x]) =
  first_occurrences l ++ (if decide (x ∈ l) then [] else [x]).
Proof.
  induction l as [|y l IH]; [done|].
  cbn [app first_occurrences]. rewrite IH, filter_app. f_equal. f_equal.
  destruct (decide (x ∈ l)) as [Hin|Hnin];
    destruct (decide (x ∈ y :: l)) as [Hin'|Hnin']; try done.
  - exfalso. apply Hnin'. by right.
  - apply elem_of_cons in Hin' as [->|?]; [|done].
    by rewrite filter_cons, decide_False by (by intros ?).
  - rewrite filter_cons, decide_True; [done|].
    intros ->. apply Hnin'. by left.
Qed.

Lemma first_occurrences_length (l : list int3) :
  (length (first_occurrences l) ≤ length l)%nat.
Proof.
  induction l as [|y l IH]; cbn [first_occurrences length]; [done|].
  pose proof (length_filter (λ z, z ≠ y) (first_occurrences l)). lia.
Qed.

(** ** The vertex deduplicator *)

(** An invariant on the part of the list a loop has gone through. *)
Lemma for_each_prefix_invariant {A S} (body : A → S → result S)
    (P : list A → S → Prop) (l : list A) (s s' : S) :
  P [] s →
  (∀ done a rest s1 s2,
     l = done ++ a :: rest → P done s1 → body a s1 = Ok s2 →
     P (done ++ [a]) s2) →
  for_each body l s = Ok s' → P l s'.
Proof.
  intros Hinit Hstep.
  enough (∀ rest done s1, l = done ++ rest → P done s1 →
            for_each body rest s1 = Ok s' → P l s') as Hgen
    by (by apply (Hgen l [] s)).
  induction rest as [|a rest IH]; intros done s1 Hl Hdone Hrun;
    cbn [for_each] in Hrun.
  - injection Hrun as <-. by rewrite Hl, app_nil_r.
  - inv_ok. apply (IH (done ++ [a]) x).
    + by rewrite <- app_assoc.
    + by eapply Hstep.
    + done.
Qed.


Section dedup.
Context `{FloatOps}.
Context (positions normals : list Vec3.t) (texcoords : list Vec2.t).

(** The buffers after the corners [done]: a vertex for every distinct
    corner in the order of first sight, the map from each of them to
    its slot, and the slot of every corner read. *)
Record dedup_inv (done : list int3) (b : Buffers) : Prop := {
  inv_vertices :
    Forall2 (λ k vert, make_vertex positions normals texcoords k = Ok vert)
      (first_occurrences done) (v b);
  inv_map :
    ∀ k slot,
      m b !! k = Some slot ↔
      ∃ j : nat, first_occurrences done !! j = Some k ∧ slot = Z.of_nat j;
  inv_indices :
    Forall2 (λ idx s, ∃ j : nat, first_occurrences done !! j = Some idx
                                 ∧ s = Z.of_nat j)
      done (i b);
}.

Lemma dedup_inv_init : dedup_inv [] no_buffers.
Proof.
  split; cbn; [constructor| |constructor].
  intros k slot. rewrite lookup_empty. split; [done|].
  by intros (j & ? & _).
Qed.

Lemma dedup_corner_inv (done : list int3) (x : int3) (b b' : Buffers) :
  Z.of_nat (length done) < 2 ^ 31 →
  dedup_inv done b →
  dedup_corner positions normals texcoords x b = Ok b' →
  dedup_inv (done ++ [x]) b'.
Proof.
  intros Hlen [Hv Hm Hi]. unfold dedup_corner.
  pose proof (first_occurrences_length done) as Hkl.
  destruct (m b !! x) as [second|] eqn:Hx.
  - intros [= <-]. apply Hm in Hx as (j & Hj & ->).
    assert (x ∈ done) as Hin.
    { apply elem_of_first_occurrences, list_elem_of_lookup. eauto. }
    split; cbn; rewrite first_occurrences_snoc, decide_True, app_nil_r by done;
      [done..|].
    apply Forall2_app; [done|]. constructor; [|constructor].
    exists j. split; [done|]. apply to_uint32_small.
    apply lookup_lt_Some in Hj. lia.
  - intros Hrun. inv_ok. subst b'.
    assert (x ∉ done) as Hnin.
    { intros Hin%elem_of_first_occurrences%list_elem_of_lookup.
      destruct Hin as [j Hj].
      assert (m b !! x = Some (Z.of_nat j)) as Hx' by (apply Hm; eauto).
      congruence. }
    apply Forall2_length in Hv as Hvl.
    rewrite to_int_small, ?to_uint32_small by lia.
    split; cbn; rewrite first_occurrences_snoc, decide_False by done.
    + apply Forall2_app; [done|]. by repeat constructor.
    + intros k slot. destruct (decide (x = k)) as [->|Hne].
      * rewrite lookup_insert_eq. split.
        -- intros [= <-]. exists (length (first_occurrences done)).
           split; [|lia]. rewrite lookup_snoc_Some. by right.
        -- intros (j & [[_ Hj]|[-> _]]%lookup_snoc_Some & ->).
           ++ exfalso. apply Hnin.
              apply elem_of_first_occurrences, list_elem_of_lookup. eauto.
           ++ f_equal. lia.
      * rewrite lookup_insert_ne by done. rewrite Hm. split.
        -- intros (j & Hj & ->). exists j. split; [|done].
           by apply lookup_app_l_Some.
        -- intros (j & [[_ Hj]|[_ ?]]%lookup_snoc_Some & ->); [eauto|done].
    + apply Forall2_app.
      * eapply Forall2_impl; [exact Hi|]. cbn.
        intros idx s (j & Hj & ->). exists j. split; [|done].
        by apply lookup_app_l_Some.
      * constructor; [|constructor].
        exists (length (first_occurrences done)). split; [|lia].
        rewrite lookup_snoc_Some. by right.
Qed.

Lemma dedup_inv_final (indices : list int3) (b : Buffers) :
  Z.of_nat (length indices) < 2 ^ 31 →
  dedup positions normals texcoords indices = Ok b →
  dedup_inv indices b.
Proof.
  intros Hlen. unfold dedup. rewrite to_int_small by lia.
  rewrite Nat2Z.id, firstn_all.
  apply (for_each_prefix_invariant _ dedup_inv); [apply dedup_inv_init|].
  intros done a rest s1 s2 -> Hinv Hstep.
  eapply dedup_corner_inv; [|done..].
  rewrite length_app in Hlen. lia.
Qed.

(** The attributes of the vertex made for a corner. *)
Lemma make_vertex_Ok (idx : int3) (vert : SimpleVertex.t) :
  make_vertex positions normals texcoords idx = Ok vert →
  well_formed idx →
  ∃ tc,
    positions !! Z.to_nat (p idx - 1) = Some (SimpleVertex.position vert)
    ∧ normals !! Z.to_nat (n idx - 1) = Some (SimpleVertex.normal vert)
    ∧ texcoords !! Z.to_nat (t idx) = Some tc
    ∧ SimpleVertex.texcoord vert
      = Vec2.mk _ (Vec2.x tc) (fsub f_one (Vec2.y tc)).
Proof.
  unfold make_vertex. intros Hrun (Hp & Ht & Hn). inv_ok. subst vert.
  rewrite !to_int_small, !to_uint32_small in * by lia.
  repeat match goal with
  | Hr : read _ _ _ = Ok _ |- _ => apply read_Ok in Hr as [_ Hr]
  end.
  eauto.
Qed.

(** C1, as amended. Over the corners of a group (fewer than 2^31 of
    them): two corners with the same (p,t,n) get the same slot; the
    vertex buffer has one vertex for every distinct triple, in the
    order of first sight; and every index of the index buffer leads
    to the vertex of its corner, which has the corner's position and
    normal as they are and its texture coordinate with the V
    component flipped (1 - v). *)
Theorem dedup_one_vertex_per_triple (indices : list int3) (b : Buffers) :
  Z.of_nat (length indices) < 2 ^ 31 →
  dedup positions normals texcoords indices = Ok b →
  (∀ (k1 k2 : nat) idx,
     indices !! k1 = Some idx → indices !! k2 = Some idx →
     ∃ s, i b !! k1 = Some s ∧ i b !! k2 = Some s)
  ∧ length (v b) = length (first_occurrences indices)
  ∧ NoDup (first_occurrences indices)
  ∧ (∀ idx, idx ∈ first_occurrences indices ↔ idx ∈ indices)
  ∧ (∀ (j : nat) idx,
       first_occurrences indices !! j = Some idx →
       ∃ vert, v b !! j = Some vert
               ∧ make_vertex positions normals texcoords idx = Ok vert)
  ∧ (∀ (k : nat) idx,
       indices !! k = Some idx →
       ∃ s vert,
         i b !! k = Some s ∧ 0 ≤ s
         ∧ v b !! Z.to_nat s = Some vert
         ∧ first_occurrences indices !! Z.to_nat s = Some idx
         ∧ (well_formed idx →
            ∃ tc,
              positions !! Z.to_nat (p idx - 1)
                = Some (SimpleVertex.position vert)
              ∧ normals !! Z.to_nat (n idx - 1)
                = Some (SimpleVertex.normal vert)
              ∧ texcoords !! Z.to_nat (t idx) = Some tc
              ∧ SimpleVertex.texcoord vert
                = Vec2.mk _ (Vec2.x tc) (fsub f_one (Vec2.y tc)))).
Proof.
  intros Hlen Hrun.
  destruct (dedup_inv_final indices b Hlen Hrun) as [Hv Hm Hi].
  assert (Hres : ∀ (k : nat) idx, indices !! k = Some idx →
            ∃ (j : nat) vert,
              i b !! k = Some (Z.of_nat j)
              ∧ first_occurrences indices !! j = Some idx
              ∧ v b !! j = Some vert
              ∧ make_vertex positions normals texcoords idx = Ok vert).
  { intros k idx Hk.
    destruct (Forall2_lookup_l _ _ _ _ _ Hi Hk) as (s & Hs & j & Hj & ->).
    destruct (Forall2_lookup_l _ _ _ _ _ Hv Hj) as (vert & Hvert & Hmk).
    eauto 10. }
  split; [|split; [|split; [|split; [|split]]]].
  - intros k1 k2 idx Hk1 Hk2.
    destruct (Hres k1 idx Hk1) as (j1 & ? & Hs1 & Hj1 & _).
    destruct (Hres k2 idx Hk2) as (j2 & ? & Hs2 & Hj2 & _).
    assert (j1 = j2) as ->
      by (eapply NoDup_lookup; eauto using first_occurrences_NoDup).
    eauto.
  - symmetry. by eapply Forall2_length.
  - apply first_occurrences_NoDup.
  - intros idx. apply elem_of_first_occurrences.
  - intros j idx Hj. by eapply Forall2_lookup_l in Hv.
  - intros k idx Hk.
    destruct (Hres k idx Hk) as (j & vert & Hs & Hj & Hvert & Hmk).
    exists (Z.of_nat j), vert. rewrite Nat2Z.id.
    repeat split; [done|lia|done|done|].
    by apply make_vertex_Ok.
Qed.

End dedup.

Section dedup_texcoords.
Context `{FloatOps}.
Context (positions normals : list Vec3.t) (declared : list Vec2.t).

(** C6. With the texture coordinates as the fill loop leaves them,
    the default (0.5,0.5) in front of the declared ones, the
    deduplicator emits one vertex for every distinct corner of the
    group, in the order of first sight, and no other. The texture
    coordinate of the vertex emitted for a corner comes from the
    default when the corner has [t = 0] and from the [t]-th declared
    one otherwise, and in both cases its V component is 1 minus the V
    component of the source: it is flipped once. *)
Theorem texcoord_default_and_flip (indices : list int3) (b : Buffers) :
  Z.of_nat (length indices) < 2 ^ 31 →
  dedup positions normals (tex :: declared) indices = Ok b →
  length (v b) = length (first_occurrences indices)
  ∧ (∀ idx, idx ∈ indices →
       ∃ j : nat, first_occurrences indices !! j = Some idx)
  ∧ ∀ (j : nat) idx,
      first_occurrences indices !! j = Some idx →
      idx ∈ indices
      ∧ ∃ vert src,
          v b !! j = Some vert
          ∧ (tex :: declared) !! Z.to_nat (to_uint32 (t idx)) = Some src
          ∧ SimpleVertex.texcoord vert
            = Vec2.mk _ (Vec2.x src) (fsub f_one (Vec2.y src))
          ∧ (t idx = 0 →
             src = tex
             ∧ SimpleVertex.texcoord vert
               = Vec2.mk _ f_half (fsub f_one f_half))
          ∧ (0 < t idx < 2 ^ 31 →
             declared !! Z.to_nat (t idx - 1) = Some src).
Proof.
  intros Hlen Hrun.
  destruct (dedup_inv_final _ _ _ indices b Hlen Hrun) as [Hv _ _].
  split; [symmetry; by eapply Forall2_length|].
  split.
  { intros idx Hin. apply list_elem_of_lookup.
    by apply elem_of_first_occurrences. }
  intros j idx Hj.
  split. { apply elem_of_first_occurrences, list_elem_of_lookup. eauto. }
  destruct (Forall2_lookup_l _ _ _ _ _ Hv Hj) as (vert & Hvert & Hmk).
  unfold make_vertex in Hmk. inv_ok. subst vert.
  match goal with
  | Hr : read Texcoords _ _ = Ok ?tc |- _ =>
      apply read_Ok in Hr as [_ Ht]; rename tc into src
  end.
  eexists _, src. split; [exact Hvert|]. split; [exact Ht|].
  split; [done|]. split.
  - intros Hz. rewrite Hz in Ht. cbn in Ht. by injection Ht as <-.
  - intros Hpos. rewrite to_uint32_small in Ht by lia.
    replace (Z.to_nat (t idx)) with (S (Z.to_nat (t idx - 1))) in Ht by lia.
    exact Ht.
Qed.

End dedup_texcoords.

Lemma dedup_one_vertex_per_triple_witness :
  let indices := [Example.corner_a; Example.corner_b; Example.corner_a] in
  ∃ b, dedup Example.two_positions Example.one_position
         [tex; Example.uv_0_1] indices = Ok b
       ∧ length (v b) = 2%nat
       ∧ ∃ s, i b !! 0%nat = Some s ∧ i b !! 2%nat = Some s.
Proof.
  intros indices.
  assert (∃ b, Example.aba_deduplicated = Ok b) as [b E]
    by (eexists; reflexivity).
  assert (dedup Example.two_positions Example.one_position
            [tex; Example.uv_0_1] indices = Ok b) as Hrun
    by (rewrite <- E; reflexivity).
  exists b. split; [exact Hrun|].
  destruct (dedup_one_vertex_per_triple Example.two_positions
              Example.one_position [tex; Example.uv_0_1] indices b)
    as (Hsame & Hlen & _); [by vm_compute | exact Hrun |].
  split; [exact Hlen|].
  apply (Hsame 0%nat 2%nat Example.corner_a); reflexivity.
Defined.

(** C1 as the spec has it fails on the texture coordinate: the vertex
    an index leads to does not carry the corner's texture coordinate
    as it was declared, because its V component was flipped. *)
Lemma dedup_texcoord_flipped_counterexample :
  let texcoords := [tex; Example.uv_0_0] in
  ∃ b s vert,
    dedup Example.one_position Example.one_position texcoords
      [Example.corner_a] = Ok b
    ∧ i b !! 0%nat = Some s
    ∧ v b !! Z.to_nat s = Some vert
    ∧ texcoords !! Z.to_nat (t Example.corner_a) = Some Example.uv_0_0
    ∧ SimpleVertex.texcoord vert ≠ Example.uv_0_0.
Proof.
  intros texcoords.
  assert (∃ b s vert,
            Example.a_deduplicated = Ok b
            ∧ i b !! 0%nat = Some s
            ∧ v b !! Z.to_nat s = Some vert
            ∧ SimpleVertex.texcoord vert ≠ Example.uv_0_0)
    as (b & s & vert & E & Hs & Hv & Hne)
    by (do 3 eexists; repeat split; [reflexivity..|discriminate]).
  exists b, s, vert. repeat split; [|done..].
  rewrite <- E. reflexivity.
Qed.

Lemma texcoord_default_and_flip_witness :
  let indices := [Example.corner_a; Example.corner_c] in
  ∃ b first second,
    dedup Example.one_position Example.one_position
      (tex :: [Example.uv_quarter]) indices = Ok b
    ∧ length (v b) = 2%nat
    ∧ v b !! 0%nat = Some first
    ∧ SimpleVertex.texcoord first = Vec2.mk _ (1 # 4)%Q (3 # 4)%Q
    ∧ v b !! 1%nat = Some second
    ∧ SimpleVertex.texcoord second = Vec2.mk _ (1 # 2)%Q (1 # 2)%Q.
Proof.
  intros indices.
  assert (∃ b, Example.ac_deduplicated = Ok b) as [b E]
    by (eexists; reflexivity).
  assert (dedup Example.one_position Example.one_position
            (tex :: [Example.uv_quarter]) indices = Ok b) as Hrun
    by (rewrite <- E; reflexivity).
  destruct (texcoord_default_and_flip Example.one_position
              Example.one_position [Example.uv_quarter] indices b)
    as (Hlen & _ & Hemit); [by vm_compute | exact Hrun |].
  assert (first_occurrences indices = [Example.corner_a; Example.corner_c])
    as Hfirst by (by vm_compute).
  rewrite Hfirst in Hlen, Hemit.
  destruct (Hemit 0%nat Example.corner_a eq_refl)
    as (_ & first & src & Hv0 & _ & Htc0 & _ & Hsrc).
  specialize (Hsrc ltac:(cbn; lia)). apply (inj Some) in Hsrc. subst src.
  destruct (Hemit 1%nat Example.corner_c eq_refl)
    as (_ & second & src & Hv1 & _ & _ & Hdefault & _).
  destruct (Hdefault eq_refl) as [_ Htc1].
  exists b, first, second. split; [exact Hrun|]. split; [exact Hlen|].
  split; [exact Hv0|]. split; [rewrite Htc0; reflexivity|].
  split; [exact Hv1|]. rewrite Htc1. reflexivity.
Defined.

(** ** The tangent calculator *)

Section tangents.
Context `{FloatOps} (heap : Heap).

Lemma triangle_basis_geometry (v0 v1 v2 w0 w1 w2 : Vertex.t) :
  geometry v0 = geometry w0 → geometry v1 = geometry w1 →
  geometry v2 = geometry w2 →
  triangle_basis v0 v1 v2 = triangle_basis w0 w1 w2.
Proof.
  destruct v0, v1, v2, w0, w1, w2. unfold geometry. cbn.
  by intros [= -> -> ->] [= -> -> ->] [= -> -> ->].
Qed.

(** The copying loop gives every new vertex the geometry of the old
    one. *)
Lemma copy_vertices_geometry (vertices : list SimpleVertex.t)
    (start len : nat) (new_vertices : list Vertex.t) :
  mapM_result (copy_vertex heap vertices) (seq start len) = Ok new_vertices →
  geometry <$> new_vertices
  = simple_geometry <$> take len (drop start vertices).
Proof.
  revert start new_vertices.
  induction len as [|len IH]; intros start new_vertices; cbn [seq mapM_result].
  - by intros [= <-].
  - intros Hrun. inv_ok. subst new_vertices.
    match goal with Hc : copy_vertex _ _ _ = Ok _ |- _ =>
      unfold copy_vertex in Hc; rename Hc into Hcopy end.
    inv_ok. subst.
    match goal with Hr : read _ _ _ = Ok _ |- _ =>
      apply read_Ok in Hr as [_ Hr]; rewrite Nat2Z.id in Hr;
      rename Hr into Hsv end.
    match goal with Hm : mapM_result _ _ = Ok _ |- _ =>
      apply IH in Hm; rename Hm into Hrest end.
    rewrite (drop_S _ _ _ Hsv). cbn. by rewrite Hrest.
Qed.

Lemma modify_set_bitangent (nv nv' : list Vertex.t) (i : Z) (b : Vec3.t) :
  modify Vertices nv i (set_bitangent b) = Ok nv' →
  geometry <$> nv' = geometry <$> nv
  ∧ Vertex.tangent <$> nv' = Vertex.tangent <$> nv
  ∧ Vertex.bitangent <$> nv'
    = <[Z.to_nat i := b]> (Vertex.bitangent <$> nv).
Proof.
  intros Hm. split; [|split].
  - by apply (modify_fmap_same geometry) in Hm.
  - by apply (modify_fmap_same Vertex.tangent) in Hm.
  - by apply (modify_fmap_set Vertex.bitangent b) in Hm as [? _].
Qed.

Lemma modify_set_tangent (nv nv' : list Vertex.t) (i : Z) (a : Vec3.t) :
  modify Vertices nv i (set_tangent a) = Ok nv' →
  geometry <$> nv' = geometry <$> nv
  ∧ Vertex.bitangent <$> nv' = Vertex.bitangent <$> nv
  ∧ Vertex.tangent <$> nv'
    = <[Z.to_nat i := a]> (Vertex.tangent <$> nv).
Proof.
  intros Hm. split; [|split].
  - by apply (modify_fmap_same geometry) in Hm.
  - by apply (modify_fmap_same Vertex.bitangent) in Hm.
  - by apply (modify_fmap_set Vertex.tangent a) in Hm as [? _].
Qed.

(** One triangle, seen on the three lists the loop works with: the
    geometry stays, the tangents and bitangents of its three corners
    are overwritten with the basis of this triangle. *)
Lemma tangent_step_lists (indices : list Z) (index_size : Z)
    (nv nv' : list Vertex.t) (ii : Z) :
  tangent_step indices index_size nv ii = Ok nv' →
  ∃ i0 i1 i2 v0 v1 v2,
    read_index indices index_size (ii + 0) = Ok i0
    ∧ read_index indices index_size (ii + 1) = Ok i1
    ∧ read_index indices index_size (ii + 2) = Ok i2
    ∧ (0 ≤ i0 ∧ nv !! Z.to_nat i0 = Some v0)
    ∧ (0 ≤ i1 ∧ nv !! Z.to_nat i1 = Some v1)
    ∧ (0 ≤ i2 ∧ nv !! Z.to_nat i2 = Some v2)
    ∧ geometry <$> nv' = geometry <$> nv
    ∧ Vertex.tangent <$> nv'
      = <[Z.to_nat i2 := (triangle_basis v0 v1 v2).1]>
          (<[Z.to_nat i1 := (triangle_basis v0 v1 v2).1]>
             (<[Z.to_nat i0 := (triangle_basis v0 v1 v2).1]>
                (Vertex.tangent <$> nv)))
    ∧ Vertex.bitangent <$> nv'
      = <[Z.to_nat i2 := (triangle_basis v0 v1 v2).2]>
          (<[Z.to_nat i1 := (triangle_basis v0 v1 v2).2]>
             (<[Z.to_nat i0 := (triangle_basis v0 v1 v2).2]>
                (Vertex.bitangent <$> nv))).
Proof.
  unfold tangent_step. intros Hrun. inv_ok.
  rename x into i0, x0 into i1, x1 into i2, x2 into v0, x3 into v1,
    x4 into v2.
  destruct (triangle_basis v0 v1 v2) as [tangent bitangent] eqn:Hb.
  inv_ok. subst nv'.
  repeat match goal with
  | Hr : read Vertices _ _ = Ok _ |- _ => apply read_Ok in Hr
  end.
  exists i0, i1, i2, v0, v1, v2. rewrite Hb. cbn [fst snd].
  repeat (split; [done|]).
  repeat match goal with
  | Hm : modify _ _ _ (set_bitangent _) = Ok _ |- _ =>
      apply modify_set_bitangent in Hm as (? & ? & ?)
  | Hm : modify _ _ _ (set_tangent _) = Ok _ |- _ =>
      apply modify_set_tangent in Hm as (? & ? & ?)
  end.
  repeat split; congruence.
Qed.

Lemma tangent_steps_geometry (indices : list Z) (index_size : Z)
    (starts : list Z) (nv nv' : list Vertex.t) :
  for_each (λ ii nv, tangent_step indices index_size nv ii) starts nv = Ok nv' →
  geometry <$> nv' = geometry <$> nv.
Proof.
  revert nv. induction starts as [|ii starts IH]; intros nv; cbn [for_each].
  - by intros [= <-].
  - intros Hrun. inv_ok. apply IH in Hrun. rewrite Hrun.
    match goal with Hs : tangent_step _ _ _ _ = Ok _ |- _ =>
      apply tangent_step_lists in Hs
        as (? & ? & ? & ? & ? & ? & _ & _ & _ & _ & _ & _ & Hg & _)
    end.
    done.
Qed.

Lemma references_cases (indices : list Z) (index_size : Z) (ii : Z)
    (j : nat) (i0 i1 i2 : Z) :
  read_index indices index_size (ii + 0) = Ok i0 →
  read_index indices index_size (ii + 1) = Ok i1 →
  read_index indices index_size (ii + 2) = Ok i2 →
  references indices index_size ii j ↔
  Z.of_nat j = i0 ∨ Z.of_nat j = i1 ∨ Z.of_nat j = i2.
Proof.
  intros H0 H1 H2. unfold references. split.
  - intros (o & Ho & Hr).
    assert (o = 0 ∨ o = 1 ∨ o = 2) as [-> | [-> | ->]] by lia.
    + rewrite Hr in H0. injection H0 as <-. by left.
    + rewrite Hr in H1. injection H1 as <-. right. by left.
    + rewrite Hr in H2. injection H2 as <-. right. by right.
  - intros [<- | [<- | <-]]; [exists 0|exists 1|exists 2]; split; done || lia.
Qed.

(** A triangle that does not reference vertex [j] leaves its tangent
    and bitangent alone. *)
Lemma tangent_steps_frame (indices : list Z) (index_size : Z)
    (starts : list Z) (nv nv' : list Vertex.t) (j : nat) :
  for_each (λ ii nv, tangent_step indices index_size nv ii) starts nv = Ok nv' →
  (∀ ii, ii ∈ starts → ¬ references indices index_size ii j) →
  (Vertex.tangent <$> nv') !! j = (Vertex.tangent <$> nv) !! j
  ∧ (Vertex.bitangent <$> nv') !! j = (Vertex.bitangent <$> nv) !! j.
Proof.
  revert nv. induction starts as [|ii starts IH]; intros nv; cbn [for_each].
  - by intros [= <-].
  - intros Hrun Hfree. inv_ok.
    apply IH in Hrun as [-> ->]; [|intros ii' ?; apply Hfree; by right].
    match goal with Hs : tangent_step _ _ _ _ = Ok _ |- _ =>
      apply tangent_step_lists in Hs
        as (i0 & i1 & i2 & v0 & v1 & v2 & H0 & H1 & H2
            & [? ?] & [? ?] & [? ?] & _ & -> & ->)
    end.
    assert (¬ references indices index_size ii j) as Hno
      by (apply Hfree; left).
    rewrite (references_cases _ _ _ _ _ _ _ H0 H1 H2) in Hno.
    rewrite !list_lookup_insert_ne by lia. done.
Qed.

Lemma lookup_insert3 {A} (l : list A) (n0 n1 n2 j : nat) (a : A) :
  (n0 < length l)%nat → (n1 < length l)%nat → (n2 < length l)%nat →
  j = n0 ∨ j = n1 ∨ j = n2 →
  <[n2 := a]> (<[n1 := a]> (<[n0 := a]> l)) !! j = Some a.
Proof.
  intros ? ? ? Hj.
  destruct (decide (j = n2)) as [->|?].
  { apply list_lookup_insert_eq. by rewrite !length_insert. }
  rewrite list_lookup_insert_ne by done.
  destruct (decide (j = n1)) as [->|?].
  { apply list_lookup_insert_eq. by rewrite !length_insert. }
  rewrite list_lookup_insert_ne by done.
  destruct Hj as [-> | [-> | ->]]; try done.
  by apply list_lookup_insert_eq.
Qed.

(** C7. The new vertices keep the geometry of the old ones, and after
    the loop over the triangles, taken in the order of the index
    buffer, a vertex has the tangent and the bitangent of the last
    triangle that references it: the basis computed from that
    triangle's three vertices, written over whatever an earlier
    triangle left there. *)
Theorem tangent_of_last_triangle (vertices : list SimpleVertex.t)
    (num_vertices : Z) (indices : list Z) (index_size num_indices : Z)
    (new_vertices : list Vertex.t) :
  calculate_tangets heap vertices num_vertices indices index_size num_indices
    = Ok new_vertices →
  geometry <$> new_vertices
    = simple_geometry <$> take (Z.to_nat num_vertices) vertices
  ∧ ∀ (before after : list Z) (ii : Z) (j : nat),
      triangle_starts num_indices = before ++ ii :: after →
      references indices index_size ii j →
      (∀ ii', ii' ∈ after → ¬ references indices index_size ii' j) →
      ∃ i0 i1 i2 v0 v1 v2 vj,
        read_index indices index_size (ii + 0) = Ok i0
        ∧ read_index indices index_size (ii + 1) = Ok i1
        ∧ read_index indices index_size (ii + 2) = Ok i2
        ∧ new_vertices !! Z.to_nat i0 = Some v0
        ∧ new_vertices !! Z.to_nat i1 = Some v1
        ∧ new_vertices !! Z.to_nat i2 = Some v2
        ∧ new_vertices !! j = Some vj
        ∧ Vertex.tangent vj = (triangle_basis v0 v1 v2).1
        ∧ Vertex.bitangent vj = (triangle_basis v0 v1 v2).2.
Proof.
  unfold calculate_tangets. intros Hrun. inv_ok. rename x into nv0.
  match goal with Hc : mapM_result _ _ = Ok _ |- _ =>
    apply copy_vertices_geometry in Hc; rewrite drop_0 in Hc;
    rename Hc into Hcopy end.
  split.
  { apply tangent_steps_geometry in Hrun. by rewrite Hrun. }
  intros before after ii j Hstarts Href Hlast.
  rewrite Hstarts, for_each_app in Hrun. inv_ok. rename x into nvA.
  cbn [for_each] in Hrun. inv_ok. rename x into nvB. cbv beta in *.
  match goal with Hs : tangent_step _ _ nvA _ = Ok _ |- _ =>
    apply tangent_step_lists in Hs
      as (i0 & i1 & i2 & v0 & v1 & v2 & Hi0 & Hi1 & Hi2
          & [? Hv0] & [? Hv1] & [? Hv2] & HgB & HtB & HbB)
  end.
  apply (references_cases _ _ _ _ _ _ _ Hi0 Hi1 Hi2) in Href.
  pose proof (tangent_steps_geometry _ _ _ _ _ Hrun) as HgR.
  destruct (tangent_steps_frame _ _ _ _ _ j Hrun Hlast) as [HtR HbR].
  rewrite HtB in HtR. rewrite HbB in HbR.
  apply lookup_lt_Some in Hv0 as ?. apply lookup_lt_Some in Hv1 as ?.
  apply lookup_lt_Some in Hv2 as ?.
  rewrite lookup_insert3 in HtR by (rewrite ?length_fmap; lia).
  rewrite lookup_insert3 in HbR by (rewrite ?length_fmap; lia).
  rewrite HgB in HgR.
  assert (Hsame : ∀ (k : nat) (vk : Vertex.t), nvA !! k = Some vk →
            ∃ vk', new_vertices !! k = Some vk' ∧ geometry vk' = geometry vk).
  { intros k vk Hk.
    assert ((geometry <$> new_vertices) !! k = Some (geometry vk)) as Hl
      by (rewrite HgR, list_lookup_fmap, Hk; reflexivity).
    rewrite list_lookup_fmap in Hl.
    destruct (new_vertices !! k) as [vk'|]; [|done].
    exists vk'. split; [done|]. cbn in Hl. congruence. }
  destruct (Hsame _ _ Hv0) as (w0 & Hw0 & Hg0).
  destruct (Hsame _ _ Hv1) as (w1 & Hw1 & Hg1).
  destruct (Hsame _ _ Hv2) as (w2 & Hw2 & Hg2).
  rewrite list_lookup_fmap in HtR, HbR.
  destruct (new_vertices !! j) as [vj|] eqn:Hvj; [|done].
  exists i0, i1, i2, w0, w1, w2, vj.
  rewrite (triangle_basis_geometry w0 w1 w2 v0 v1 v2) by done.
  cbn in HtR, HbR. injection HtR as ->. injection HbR as ->.
  done.
Qed.

End tangents.

Lemma tangent_of_last_triangle_witness :
  ∃ new_vertices,
    calculate_tangets Exact.zeroed Example.quad 4 Example.quad_indices 4 6
      = Ok new_vertices
    ∧ ∃ i0 i1 i2 v0 v1 v2 vj,
        read_index Example.quad_indices 4 (3 + 0) = Ok i0
        ∧ read_index Example.quad_indices 4 (3 + 1) = Ok i1
        ∧ read_index Example.quad_indices 4 (3 + 2) = Ok i2
        ∧ new_vertices !! Z.to_nat i0 = Some v0
        ∧ new_vertices !! Z.to_nat i1 = Some v1
        ∧ new_vertices !! Z.to_nat i2 = Some v2
        ∧ new_vertices !! 0%nat = Some vj
        ∧ Vertex.tangent vj = (triangle_basis v0 v1 v2).1
        ∧ Vertex.bitangent vj = (triangle_basis v0 v1 v2).2.
Proof.
  assert (∃ nv, Example.quad_tangents = Ok nv) as [nv E]
    by (eexists; reflexivity).
  assert (calculate_tangets Exact.zeroed Example.quad 4 Example.quad_indices 4 6
          = Ok nv) as Hrun by (rewrite <- E; reflexivity).
  exists nv. split; [exact Hrun|].
  destruct (tangent_of_last_triangle Exact.zeroed Example.quad 4
              Example.quad_indices 4 6 nv Hrun) as [_ Hlast].
  apply (Hlast [0] [] 3 0%nat).
  - reflexivity.
  - exists 0. split; [lia | reflexivity].
  - intros ii' Hin. by apply elem_of_nil in Hin.
Defined.

(** The example of the spec: on the triangle (0,0,0), (1,0,0), (0,1,0)
    with the texture coordinates (0,0), (1,0), (0,1) the tangent is
    (1,0,0) and the bitangent (0,1,0). *)
Lemma tangent_identity_mapping :
  ∃ v0 v1 v2,
    Example.triangle_tangents = Ok [v0; v1; v2]
    ∧ calculate_tangets Exact.zeroed Example.quad 3 Example.quad_indices 4 3
      = Example.triangle_tangents
    ∧ Vertex.tangent v0 = Vec3.mk _ 1%Q 0%Q 0%Q
    ∧ Vertex.bitangent v0 = Vec3.mk _ 0%Q 1%Q 0%Q.
Proof. do 3 eexists. repeat split; reflexivity. Qed.

(** ** The group loop *)

Lemma bind_Err {A B} (r : result A) (k : A → result B) (e : error) :
  r ≫= k = Err e ↔ r = Err e ∨ ∃ a, r = Ok a ∧ k a = Err e.
Proof.
  destruct r as [a|e']; cbn; split.
  - intros ?. right. by exists a.
  - by intros [?|(a' & [= ->] & ?)].
  - intros [= ->]. by left.
  - by intros [[= ->]|(a' & ? & _)].
Qed.

Lemma read_Err {A} (a : array_name) (l : list A) (i : Z) (e : error) :
  read a l i = Err e ↔
  e = OutOfBounds a ∧ ¬ (0 ≤ i < Z.of_nat (length l)).
Proof.
  unfold read. case_bool_decide.
  - destruct (l !! Z.to_nat i) as [x|] eqn:Hx.
    + apply lookup_lt_Some in Hx. split; [done|]. intros [_ Hout]. lia.
    + apply lookup_ge_None in Hx. split.
      * intros [= <-]. split; [done | lia].
      * by intros [-> _].
  - split.
    + intros [= <-]. split; [done | lia].
    + by intros [-> _].
Qed.

Lemma modify_Err {A} (a : array_name) (l : list A) (i : Z) (f : A → A)
    (e : error) :
  modify a l i f = Err e ↔
  e = OutOfBounds a ∧ ¬ (0 ≤ i < Z.of_nat (length l)).
Proof.
  unfold modify. rewrite bind_Err, read_Err. split.
  - intros [?|(x & Hr & Hw)]; [done|].
    apply read_Ok in Hr as [? Hx]. apply lookup_lt_Some in Hx.
    unfold write in Hw. rewrite bool_decide_eq_true_2 in Hw by lia. done.
  - intros ?. by left.
Qed.

Lemma assert_Err (c : bool) (e : error) :
  assert c = Err e ↔ c = false ∧ e = AssertFailed.
Proof.
  destruct c; cbn; split.
  - done.
  - by intros [? _].
  - by intros [= <-].
  - by intros [_ ->].
Qed.

(** The turn a loop fails in. *)
Lemma for_each_Err_inv {A S} (body : A → S → result S) (l : list A) (s : S)
    (e : error) :
  for_each body l s = Err e →
  ∃ done a rest s1,
    l = done ++ a :: rest
    ∧ for_each body done s = Ok s1
    ∧ body a s1 = Err e.
Proof.
  revert s. induction l as [|a l IH]; intros s; cbn [for_each]; [done|].
  intros [Hhere|(s' & Hstep & Hrest)]%bind_Err.
  - by exists [], a, l, s.
  - apply IH in Hrest as (done & a' & rest & s1 & -> & Hdone & Herr).
    exists (a :: done), a', rest, s1. split; [done|]. split; [|done].
    cbn [for_each]. by rewrite Hstep.
Qed.

Lemma for_each_Err_intro {A S} (body : A → S → result S)
    (done rest : list A) (a : A) (s s1 : S) (e : error) :
  for_each body done s = Ok s1 → body a s1 = Err e →
  for_each body (done ++ a :: rest) s = Err e.
Proof.
  intros Hdone Herr. rewrite for_each_app, Hdone. cbn. by rewrite Herr.
Qed.


Lemma fits_Err (a : array_name) (size : nat) (s : string) (e : error) :
  fits a size s = Err e ↔
  e = OutOfBounds a ∧ ¬ (String.length s < size)%nat.
Proof.
  unfold fits. case_bool_decide; split.
  - done.
  - by intros [_ ?].
  - by intros [= <-].
  - by intros [-> _].
Qed.

Lemma store_word_Err {A} (a : array_name) (l : list A) (i : Z)
    (field : array_name) (size : nat) (set : string → A → A) (s : string)
    (e : error) :
  store_word a l i field size set s = Err e ↔
  e = OutOfBounds a ∧ ¬ (0 ≤ i < Z.of_nat (length l))
  ∨ e = OutOfBounds field ∧ 0 ≤ i < Z.of_nat (length l)
    ∧ ¬ (String.length s < size)%nat.
Proof.
  unfold store_word. rewrite bind_Err, read_Err. split.
  - intros [?|(x & [? Hx%lookup_lt_Some]%read_Ok & Hrest)]; [by left|].
    apply bind_Err in Hrest as [Hf%fits_Err|(u & _ & Hm%modify_Err)].
    + right. destruct Hf. repeat split; done || lia.
    + destruct Hm as [_ Hout]. lia.
  - intros [?|(-> & Hi & Hf)]; [by left|]. right.
    destruct (lookup_lt_is_Some_2 l (Z.to_nat i)) as [x Hx]; [lia|].
    exists x. split; [apply read_Ok; split; [lia|done]|].
    apply bind_Err. left. by apply fits_Err.
Qed.

Section header_errors.
Context `{FloatOps}.

Lemma line_header_Err (size : nat) (l : string) (e : error) :
  line_header size l = Err e ↔
  e = OutOfBounds LineHeader ∧ ¬ (String.length (first_word l) < size)%nat.
Proof.
  unfold line_header. rewrite bind_Err, fits_Err. split.
  - by intros [?|(? & _ & ?)].
  - by left.
Qed.

End header_errors.
Section groups.
Context `{FloatOps}.

(** A record whose first word fits [line_header] and is neither
    [usemtl] nor [f] only becomes the previous line. *)
Lemma group_line_other (textured : Z) (r : record) (g : Groups) :
  is_directive "usemtl" r = false → is_directive "f" r = false →
  (String.length (directive_of r) < 16)%nat →
  group_line textured r g = Ok (set_prev_line (Some (this_line r)) g).
Proof.
  unfold group_line, is_directive, directive_of. intros Hu Hf Hfit.
  rewrite line_header_fits by done. cbn [mbind result_bind].
  by rewrite Hu, Hf.
Qed.

(** A record whose first word does not fit is the end of the run. *)
Lemma group_line_unfit (textured : Z) (r : record) (g : Groups) :
  ¬ (String.length (directive_of r) < 16)%nat →
  group_line textured r g = Err (OutOfBounds LineHeader).
Proof.
  intros Hfit. unfold group_line, line_header, fits.
  fold (directive_of r). by rewrite bool_decide_eq_false_2.
Qed.

Lemma group_line_fits (textured : Z) (r : record) (g g' : Groups) :
  group_line textured r g = Ok g' →
  (String.length (directive_of r) < 16)%nat.
Proof.
  intros Hrun.
  destruct (decide (String.length (directive_of r) < 16)%nat) as [|Hfit];
    [done|].
  by rewrite group_line_unfit in Hrun.
Qed.

Lemma group_line_usemtl (textured : Z) (r : record) (g : Groups) :
  is_directive "usemtl" r = true →
  group_line textured r g =
  (usemtl_line r g ≫= λ g', Ok (set_prev_line (Some (this_line r)) g')).
Proof.
  intros Hu. unfold group_line.
  rewrite (is_directive_header "usemtl" 16) by (done || (cbn; lia)).
  cbn [mbind result_bind]. fold (directive_of r).
  fold (is_directive "usemtl" r). by rewrite Hu.
Qed.

Lemma group_line_f (textured : Z) (r : record) (g : Groups) :
  is_directive "f" r = true →
  group_line textured r g =
  (f_line textured r g ≫= λ g', Ok (set_prev_line (Some (this_line r)) g')).
Proof.
  intros Hf. unfold group_line.
  rewrite (is_directive_header "f" 16) by (done || (cbn; lia)).
  cbn [mbind result_bind].
  fold (directive_of r). fold (is_directive "usemtl" r).
  fold (is_directive "f" r).
  by rewrite (is_directive_exclusive "f" "usemtl"), Hf.
Qed.

(** [usemtl] moves the three cursors one slot on and keeps the sizes
    of the arrays. *)
Lemma usemtl_line_Ok (r : record) (g g' : Groups) :
  usemtl_line r g = Ok g' →
  mesh_triangles g' = mesh_triangles g + 1
  ∧ current_mesh g' = current_mesh g + 1
  ∧ current_model g' = current_model g + 1
  ∧ all_triangles g' = all_triangles g
  ∧ length (meshes g') = length (meshes g)
  ∧ length (models g') = length (models g).
Proof.
  unfold usemtl_line. destruct (sscanf (line r) _) as [matches vs].
  intros Hrun. inv_ok. subst g'. cbn.
  repeat split; try done.
  - match goal with
    | Hn : (if _ then _ else _) = Ok ?ms |- length ?ms = _ =>
        rename Hn into Hname
    end.
    repeat case_match;
      try (by eapply modify_length);
      unfold name_from in Hname;
      destruct (sscanf _ _) as [matches' vs']; inv_ok; subst;
      repeat case_match; inv_ok; subst; try done;
      by eapply modify_length.
  - repeat match goal with
    | Hm : modify Models _ _ _ = Ok _ |- _ => apply modify_length in Hm
    end.
    congruence.
Qed.

(** How [usemtl] can fail: on an assertion, or on an access outside
    the meshes, the models or one of the [char] arrays it stores a
    word in. *)
Lemma usemtl_line_errors (r : record) (g : Groups) (e : error) :
  usemtl_line r g = Err e →
  e = AssertFailed
  ∨ e ∈ [OutOfBounds Meshes; OutOfBounds Models; OutOfBounds LineHeader;
         OutOfBounds MeshName; OutOfBounds MaterialNameBuffer].
Proof.
  unfold usemtl_line. destruct (sscanf (line r) _) as [matches vs].
  intros Hrun.
  repeat match goal with
  | Hb : _ ≫= _ = Err _ |- _ =>
      apply bind_Err in Hb as [Hb|(? & _ & Hb)]
  | Hb : assert _ = Err _ |- _ =>
      apply assert_Err in Hb as [_ ->]; by left
  | Hb : read _ _ _ = Err _ |- _ =>
      apply read_Err in Hb as [-> _]; right; repeat constructor
  | Hb : modify _ _ _ _ = Err _ |- _ =>
      apply modify_Err in Hb as [-> _]; right; repeat constructor
  | Hb : fits _ _ _ = Err _ |- _ =>
      apply fits_Err in Hb as [-> _]; right; repeat constructor
  | Hb : store_word _ _ _ _ _ _ _ = Err _ |- _ =>
      apply store_word_Err in Hb as [[-> _]|(-> & _)]; right; repeat constructor
  | Hb : Ok _ = Err _ |- _ => discriminate Hb
  | Hb : (if ?c then _ else _) = Err _ |- _ => destruct c
  | Hb : name_from _ _ _ = Err _ |- _ =>
      unfold name_from in Hb; destruct (sscanf _ _) as [? ?]
  | Hb : match ?vs with _ => _ end = Err _ |- _ => destruct vs
  end.
Qed.

Lemma usemtl_line_Err (r : record) (g : Groups) (e : error) :
  usemtl_line r g = Err e → e ≠ OutOfBounds AllTriangles.
Proof.
  intros [->|Hin]%usemtl_line_errors; [done|].
  intros ->.
  repeat (apply elem_of_cons in Hin as [Hin|Hin]; [discriminate Hin|]).
  by apply elem_of_nil in Hin.
Qed.

Lemma push_back_triangle_Ok (tri : Triangle) (g g' : Groups) :
  push_back_triangle tri g = Ok g' →
  0 ≤ mesh_triangles g < Z.of_nat (length (all_triangles g))
  ∧ mesh_triangles g' = mesh_triangles g
  ∧ current_mesh g' = current_mesh g
  ∧ current_model g' = current_model g
  ∧ length (all_triangles g') = length (all_triangles g)
  ∧ meshes g' = meshes g
  ∧ models g' = models g.
Proof.
  unfold push_back_triangle. intros Hrun. inv_ok. subst g'. cbn.
  match goal with Hm : modify _ _ _ _ = Ok _ |- _ => rename Hm into Hmod end.
  pose proof (modify_length _ _ _ _ _ Hmod).
  apply modify_Ok in Hmod as (? & ? & Hl & _). apply lookup_lt_Some in Hl.
  repeat split; done || lia.
Qed.

Lemma push_back_triangles_Ok (tris : list Triangle) (g g' : Groups) :
  for_each push_back_triangle tris g = Ok g' →
  mesh_triangles g' = mesh_triangles g
  ∧ current_mesh g' = current_mesh g
  ∧ current_model g' = current_model g
  ∧ length (all_triangles g') = length (all_triangles g)
  ∧ meshes g' = meshes g
  ∧ models g' = models g.
Proof.
  revert g. induction tris as [|tri tris IH]; intros g; cbn [for_each].
  - by intros [= <-].
  - intros Hrun. inv_ok.
    match goal with Hp : push_back_triangle _ _ = Ok _ |- _ =>
      apply push_back_triangle_Ok in Hp as (_ & E1 & E2 & E3 & E4 & E5 & E6)
    end.
    apply IH in Hrun as (-> & -> & -> & -> & -> & ->). done.
Qed.

Lemma push_back_triangles_Err (tris : list Triangle) (g : Groups) (e : error) :
  for_each push_back_triangle tris g = Err e →
  e = OutOfBounds AllTriangles
  ∧ ¬ (0 ≤ mesh_triangles g < Z.of_nat (length (all_triangles g))).
Proof.
  intros (done & tri & rest & g1 & -> & Hdone & Herr)%for_each_Err_inv.
  apply push_back_triangles_Ok in Hdone as (<- & _ & _ & <- & _).
  unfold push_back_triangle in Herr.
  apply bind_Err in Herr as [Herr|(? & _ & ?)]; [|done].
  by apply modify_Err in Herr.
Qed.

(** The first triangle of a face goes through the cursor: if it stands
    outside the array the store fails. *)
Lemma push_back_triangles_outside (tri : Triangle) (tris : list Triangle)
    (g : Groups) :
  ¬ (0 ≤ mesh_triangles g < Z.of_nat (length (all_triangles g))) →
  for_each push_back_triangle (tri :: tris) g = Err (OutOfBounds AllTriangles).
Proof.
  intros Hout. cbn [for_each]. unfold push_back_triangle.
  assert (modify AllTriangles (all_triangles g) (mesh_triangles g)
            (λ v, v ++ [tri]) = Err (OutOfBounds AllTriangles)) as ->
    by (by apply modify_Err).
  done.
Qed.

Lemma group_line_Ok (textured : Z) (r : record) (g g' : Groups) :
  group_line textured r g = Ok g' →
  let k := if is_directive "usemtl" r then 1 else 0 in
  mesh_triangles g' = mesh_triangles g + k
  ∧ current_mesh g' = current_mesh g + k
  ∧ current_model g' = current_model g + k
  ∧ length (all_triangles g') = length (all_triangles g)
  ∧ length (meshes g') = length (meshes g)
  ∧ length (models g') = length (models g).
Proof.
  destruct (is_directive "usemtl" r) eqn:Hu.
  { rewrite group_line_usemtl by done. intros Hrun. inv_ok. subst g'. cbn.
    match goal with Hl : usemtl_line _ _ = Ok _ |- _ =>
      apply usemtl_line_Ok in Hl as (? & ? & ? & -> & ? & ?) end.
    done. }
  destruct (is_directive "f" r) eqn:Hf.
  { rewrite group_line_f by done. unfold f_line. intros Hrun. inv_ok.
    subst g'. cbn.
    match goal with Hl : for_each push_back_triangle _ _ = Ok _ |- _ =>
      apply push_back_triangles_Ok in Hl as (-> & -> & -> & -> & -> & ->)
    end.
    repeat split; lia. }
  intros Hrun. pose proof (group_line_fits _ _ _ _ Hrun) as Hfit.
  rewrite group_line_other in Hrun by done. injection Hrun as <-. cbn.
  repeat split; lia.
Qed.

(** Where the cursors stand after some records. *)
Lemma group_lines_Ok (textured : Z) (rs : list record) (g g' : Groups) :
  for_each (group_line textured) rs g = Ok g' →
  let k := Z.of_nat (groups_opened rs) in
  mesh_triangles g' = mesh_triangles g + k
  ∧ current_mesh g' = current_mesh g + k
  ∧ current_model g' = current_model g + k
  ∧ length (all_triangles g') = length (all_triangles g)
  ∧ length (meshes g') = length (meshes g)
  ∧ length (models g') = length (models g).
Proof.
  revert g. induction rs as [|r rs IH]; intros g; cbn [for_each].
  - intros [= <-]. cbn. repeat split; lia.
  - intros Hrun. inv_ok.
    match goal with Hl : group_line _ _ _ = Ok _ |- _ =>
      apply group_line_Ok in Hl as (E1 & E2 & E3 & E4 & E5 & E6) end.
    apply IH in Hrun as (-> & -> & -> & -> & -> & ->).
    rewrite E1, E2, E3, E4, E5, E6. unfold groups_opened.
    rewrite filter_cons.
    destruct (is_directive "usemtl" r) eqn:Hu.
    + rewrite decide_True by done. cbn [length]. repeat split; lia.
    + rewrite decide_False by done. repeat split; lia.
Qed.

(** The store of a triangle is the only place where the group loop
    can leave [all_triangles], and it does so exactly when the cursor
    stands outside the array at an [f] record. *)
Lemma group_line_outside (textured : Z) (r : record) (g : Groups) :
  group_line textured r g = Err (OutOfBounds AllTriangles) →
  is_directive "f" r = true
  ∧ ¬ (0 ≤ mesh_triangles g < Z.of_nat (length (all_triangles g))).
Proof.
  destruct (is_directive "usemtl" r) eqn:Hu.
  { rewrite group_line_usemtl by done.
    intros [Herr|(? & _ & ?)]%bind_Err; [|done].
    by apply usemtl_line_Err in Herr. }
  destruct (is_directive "f" r) eqn:Hf.
  { rewrite group_line_f by done.
    intros [Herr|(? & _ & ?)]%bind_Err; [|done].
    split; [done|]. unfold f_line in Herr.
    apply bind_Err in Herr as [Herr|(tris & _ & Herr)].
    - destruct (face_outcomes textured (line r)) as [Hc|(? & Hc & _)];
        rewrite Hc in Herr; done.
    - by apply push_back_triangles_Err in Herr as [_ ?]. }
  destruct (decide (String.length (directive_of r) < 16)%nat) as [Hfit|Hfit].
  - by rewrite group_line_other.
  - by rewrite group_line_unfit.
Qed.

Lemma groups_opened_app (rs1 rs2 : list record) :
  groups_opened (rs1 ++ rs2) = (groups_opened rs1 + groups_opened rs2)%nat.
Proof. unfold groups_opened. by rewrite filter_app, length_app. Qed.

Lemma groups_opened_pos (rs : list record) (r : record) :
  r ∈ rs → is_directive "usemtl" r = true → (0 < groups_opened rs)%nat.
Proof.
  intros Hin Hu. unfold groups_opened.
  assert (r ∈ filter (λ r, is_directive "usemtl" r = true) rs) as Hf
    by (by apply list_elem_of_filter).
  destruct (filter _ rs); [by apply elem_of_nil in Hf | cbn; lia].
Qed.

Lemma groups_opened_none (rs : list record) :
  (∀ r, r ∈ rs → is_directive "usemtl" r = false) → groups_opened rs = 0%nat.
Proof.
  intros Hno. unfold groups_opened.
  induction rs as [|r rs IH]; [done|].
  rewrite filter_cons, decide_False.
  - apply IH. intros r' ?. apply Hno. by right.
  - rewrite (Hno r) by left. done.
Qed.

Lemma groups_opened_zero (rs : list record) (r : record) :
  groups_opened rs = 0%nat → r ∈ rs → is_directive "usemtl" r = false.
Proof.
  intros Hz Hin. destruct (is_directive "usemtl" r) eqn:Hu; [|done].
  pose proof (groups_opened_pos rs r Hin Hu). lia.
Qed.

(** A loop that went through did every one of its turns. *)
Lemma for_each_Ok_split {A S} (body : A → S → result S) (l1 l2 : list A)
    (a : A) (s s' : S) :
  for_each body (l1 ++ a :: l2) s = Ok s' →
  ∃ s1 s2, for_each body l1 s = Ok s1 ∧ body a s1 = Ok s2
           ∧ for_each body l2 s2 = Ok s'.
Proof.
  rewrite for_each_app. intros Hrun. inv_ok. cbn [for_each] in Hrun. inv_ok.
  eauto.
Qed.

(** Before the first [usemtl] record no [f] record gets through. *)
Lemma group_line_f_before_usemtl (textured : Z) (r : record) (g g' : Groups) :
  is_directive "f" r = true → mesh_triangles g < 0 →
  group_line textured r g ≠ Ok g'.
Proof.
  intros Hf Hcur. rewrite group_line_f by done. unfold f_line.
  destruct (face_outcomes textured (line r)) as [->|(tris & -> & Hlen)];
    [done|].
  cbn [mbind result_bind].
  destruct tris as [|tri tris]; [cbn in Hlen; lia|].
  rewrite push_back_triangles_outside by lia. done.
Qed.

(** C9, as amended. A group loop that starts with the triangle cursor
    one slot before an array with a slot for every [usemtl] record of
    the file. If every [f] record has a [usemtl] record before it, the
    store of a triangle never leaves the array. And the store leaves
    the array exactly when the file has an [f] record that the face
    scan accepts and that no [usemtl] record and no other [f] record
    comes before, the first words of the records before it fitting
    [line_header]: its triangles go through the cursor at slot -1. *)
Theorem triangle_store_needs_usemtl (textured : Z)
    (file_data : option string) (g : Groups) :
  mesh_triangles g = -1 →
  length (all_triangles g) = groups_opened (records file_data) →
  (faces_in_groups (records file_data) →
   group_pass textured file_data g ≠ Err (OutOfBounds AllTriangles))
  ∧ (group_pass textured file_data g = Err (OutOfBounds AllTriangles) ↔
     ∃ before r after tris,
       records file_data = before ++ r :: after
       ∧ is_directive "f" r = true
       ∧ face_triangles textured (line r) = Ok tris
       ∧ ∀ r', r' ∈ before →
           is_directive "usemtl" r' = false ∧ is_directive "f" r' = false
           ∧ (String.length (directive_of r') < 16)%nat).
Proof.
  intros Hcur Hsize. unfold group_pass, while_lines.
  assert (Hfails : for_each (group_line textured) (records file_data) g
                   = Err (OutOfBounds AllTriangles) →
            ∃ done r rest g1,
              records file_data = done ++ r :: rest
              ∧ for_each (group_line textured) done g = Ok g1
              ∧ group_line textured r g1 = Err (OutOfBounds AllTriangles)
              ∧ is_directive "f" r = true
              ∧ groups_opened done = 0%nat).
  { intros Herr. apply for_each_Err_inv in Herr
      as (done & r & rest & g1 & Hrs & Hdone & Herr).
    exists done, r, rest, g1. repeat (split; [done|]).
    pose proof (group_line_outside _ _ _ Herr) as [Hf Hout].
    split; [done|].
    apply group_lines_Ok in Hdone as (Hmt & _ & _ & Hlen & _).
    rewrite Hrs, groups_opened_app in Hsize. lia. }
  split; [|split].
  - intros Hfaces Herr.
    destruct (Hfails Herr) as (done & r & rest & g1 & Hrs & _ & _ & Hf & Hz).
    destruct (Hfaces done r rest Hrs Hf) as (r' & Hin & Hu).
    by rewrite (groups_opened_zero done r' Hz Hin) in Hu.
  - intros Herr.
    destruct (Hfails Herr)
      as (done & r & rest & g1 & Hrs & Hdone & Herr1 & Hf & Hz).
    assert (∃ tris, face_triangles textured (line r) = Ok tris) as [tris Ht].
    { destruct (face_outcomes textured (line r)) as [Hc|(tris & Ht & _)];
        [|by eauto].
      rewrite group_line_f in Herr1 by done. unfold f_line in Herr1.
      by rewrite Hc in Herr1. }
    exists done, r, rest, tris. repeat (split; [done|]).
    intros r' Hin. split; [by eapply groups_opened_zero|].
    apply list_elem_of_split in Hin as (d1 & d2 & ->).
    apply for_each_Ok_split in Hdone as (g2 & g3 & Hd1 & Hstep & _).
    split; [|by eapply group_line_fits].
    destruct (is_directive "f" r') eqn:Hf'; [exfalso|done].
    apply group_lines_Ok in Hd1 as (Hmt & _).
    rewrite groups_opened_app in Hz.
    by eapply (group_line_f_before_usemtl textured r' g2 g3); [|lia|].
  - intros (before & r & after & tris & Hrs & Hf & Htris & Hfirst).
    rewrite Hrs.
    assert (for_each (group_line textured) before g
            = Ok (set_prev_line (prev_line
                    (default g (g' ← last before;
                                Some (set_prev_line (Some (this_line g')) g))))
                    g)) as Hbefore.
    { clear Hrs Hfails. revert g Hcur Hsize.
      induction before as [|r0 before IH] using rev_ind; intros g Hcur Hsize.
      - cbn. by destruct g.
      - rewrite for_each_app, IH; [|intros r' ?; apply Hfirst;
          apply elem_of_app; by left|done..].
        cbn [mbind result_bind for_each].
        destruct (Hfirst r0) as (Hu0 & Hf0 & Hfit0);
          [apply elem_of_app; right; by left|].
        rewrite group_line_other by done. cbn.
        by rewrite last_snoc. }
    eapply for_each_Err_intro; [exact Hbefore|].
    rewrite group_line_f by done. unfold f_line. rewrite Htris.
    cbn [mbind result_bind].
    destruct (face_outcomes textured (line r)) as [Hc|(tris' & Htris' & Hlen)];
      rewrite Htris in *; [done|]. injection Htris' as <-.
    destruct tris as [|tri tris]; [cbn in Hlen; lia|].
    rewrite push_back_triangles_outside; [done|].
    cbn. lia.
Qed.

End groups.

Lemma triangle_store_needs_usemtl_witness :
  group_pass 0 (Some Example.face_second) Example.one_slot
    ≠ Err (OutOfBounds AllTriangles)
  ∧ group_pass 0 (Some Example.face_first) Example.one_slot
    = Err (OutOfBounds AllTriangles).
Proof.
  destruct (triangle_store_needs_usemtl 0 (Some Example.face_second)
              Example.one_slot) as [Hin _]; [reflexivity | by vm_compute|].
  destruct (triangle_store_needs_usemtl 0 (Some Example.face_first)
              Example.one_slot) as [_ Hout]; [reflexivity | by vm_compute|].
  split.
  - apply Hin. intros before r after Hrs Hf.
    let rs := eval vm_compute in (records (Some Example.face_second)) in
    change (records (Some Example.face_second)) with rs in Hrs.
    destruct before as [|r1 [|r2 [|r3 [|r4 before]]]];
      cbn in Hrs; try discriminate Hrs.
    + injection Hrs as <- <-. by vm_compute in Hf.
    + injection Hrs as <- <- <-. eexists. split; [left|]. by vm_compute.
    + injection Hrs as <- <- <- <-. by vm_compute in Hf.
  - apply Hout.
    exists [], {| this_line := Example.face_first;
                  line := "f 1//1 2//2 3//3";
                  next_line := Some (Exact.unlines ["usemtl A"]) |},
      (drop 1 (records (Some Example.face_first))),
      [ {| vertex := ({| p := 1; t := 0; n := 1 |},
                      {| p := 2; t := 0; n := 2 |},
                      {| p := 3; t := 0; n := 3 |}) |} ].
    split; [by vm_compute|]. split; [by vm_compute|].
    split; [by vm_compute|].
    intros r' Hin'. by apply elem_of_nil in Hin'.
Defined.

(** C9 as stated fails: the store is not out of bounds in
    every file whose first [f] record has no [usemtl] record before
    it. A face the scan refuses ends the run with status 1 before
    anything is stored. *)
Lemma triangle_store_refused_face_counterexample :
  mesh_triangles Example.one_slot = -1
  ∧ length (all_triangles Example.one_slot)
    = groups_opened (records (Some Example.refused_first))
  ∧ ¬ faces_in_groups (records (Some Example.refused_first))
  ∧ group_pass 0 (Some Example.refused_first) Example.one_slot = cant_load
  ∧ group_pass 0 (Some Example.refused_first) Example.one_slot
    ≠ Err (OutOfBounds AllTriangles).
Proof.
  split; [reflexivity|]. split; [by vm_compute|].
  assert (group_pass 0 (Some Example.refused_first) Example.one_slot
          = cant_load) as Hrun.
  { assert (Example.refused_first_groups = cant_load) as E by reflexivity.
    rewrite <- E. reflexivity. }
  split; [|split; [exact Hrun | by rewrite Hrun]].
  intros Hfaces.
  destruct (Hfaces [] {| this_line := Example.refused_first;
                         line := "f 1 2";
                         next_line := Some (Exact.unlines ["usemtl A"]) |}
              (drop 1 (records (Some Example.refused_first))))
    as (r' & Hin & _); [by vm_compute | by vm_compute |].
  by apply elem_of_nil in Hin.
Qed.

(** ** Mesh names *)

Section names.
Context `{FloatOps}.

Local Arguments isspace : simpl never.

Lemma span_token_name (name tail : string) :
  no_space name = true →
  match tail with
  | String c _ => isspace c = true
  | EmptyString => True
  end →
  span_token (name +:+ tail) = (name, tail).
Proof.
  intros Hname Htail. induction name as [|c name IH]; simpl.
  - destruct tail as [|c tail]; [done|]. simpl. by rewrite Htail.
  - simpl in Hname. apply andb_true_iff in Hname as [Hc Hname].
    apply negb_true_iff in Hc. rewrite Hc. by rewrite IH.
Qed.

(** [%s] on a name followed by white space or the end of the input. *)
Lemma scan_s_name (name tail : string) :
  is_name name →
  match tail with
  | String c _ => isspace c = true
  | EmptyString => True
  end →
  scan_s (name +:+ tail) = Conv name tail.
Proof.
  intros [Hne Hname] Htail. unfold scan_s.
  pose proof (span_token_name _ _ Hname Htail) as Hspan.
  destruct name as [|c name]; [done|].
  simpl in Hname. apply andb_true_iff in Hname as [Hc _].
  apply negb_true_iff in Hc.
  simpl. rewrite !Hc. simpl in Hspan. rewrite Hc in Hspan.
  destruct (span_token (name +:+ tail)) as [tok rest].
  by injection Hspan as -> ->.
Qed.

Lemma skip_space_name (name tail : string) :
  is_name name → skip_space (name +:+ tail) = name +:+ tail.
Proof.
  intros [Hne Hname]. destruct name as [|c name]; [done|].
  simpl in Hname. apply andb_true_iff in Hname as [Hc _].
  apply negb_true_iff in Hc. simpl. by rewrite Hc.
Qed.

(** [sscanf(ptr, "%s %s\n", ...)] on a [g] directive stores the letter
    and the name. *)
Lemma sscanf_g_directive (name ptr : string) :
  is_name name → g_directive name (Some ptr) →
  sscanf ptr "%s %s\n" = (2, [V_s "g"; V_s name]).
Proof.
  intros Hname (tail & [= ->] & Htail).
  unfold sscanf.
  change (parse_format "%s %s\n") with [D_s; D_space; D_s; D_space].
  change ("g " +:+ name +:+ tail)
    with ("g" +:+ String " " (name +:+ tail)).
  cbn [run_format].
  rewrite (scan_s_name "g" (String " " (name +:+ tail)));
    [|by split|by vm_compute].
  change (skip_space (String " " (name +:+ tail)))
    with (skip_space (name +:+ tail)).
  rewrite skip_space_name by done.
  rewrite scan_s_name by done.
  done.
Qed.

Lemma g_directive_starts_with_g (name : string) (ptr : option string) :
  g_directive name ptr → starts_with_g ptr = true.
Proof. by intros (tail & -> & _). Qed.
















End names.



(** * Further properties of the code *)

(** ** The order on attribute indices *)

(** X1. [int3::operator<] is a strict total order: it is irreflexive
    and transitive, and of two triples one is below the other or they
    are equal; [int3::operator==] holds exactly for equal triples. *)
Theorem int3_lt_strict_total_order :
  (∀ a, int3_lt a a = false)
  ∧ (∀ a b c, int3_lt a b = true → int3_lt b c = true → int3_lt a c = true)
  ∧ (∀ a b, int3_lt a b = true ∨ a = b ∨ int3_lt b a = true)
  ∧ (∀ a b, int3_eq a b = true ↔ a = b).
Proof.
  split; [apply int3_lt_irrefl|]. split; [apply int3_lt_trans|].
  split; [|apply int3_eq_spec].
  intros a b.
  destruct (int3_lt a b) eqn:Hab; [by left|].
  destruct (int3_lt b a) eqn:Hba; [by right; right|].
  right; left. by apply int3_lt_equiv.
Qed.

(** ** The arrays of the attribute-fill loop *)

Section fill_arrays.
Context `{FloatOps}.

Lemma fill_line_arrays (r : record) (a a' : Attributes) :
  fill_line r a = Ok a' →
  (∃ pos, positions a' = positions a ++ pos
          ∧ length pos = if is_directive "v" r then 1%nat else 0%nat)
  ∧ (∃ nrm, normals a' = normals a ++ nrm
            ∧ length nrm = if is_directive "vn" r then 1%nat else 0%nat)
  ∧ (∃ tc, texcoords a' = texcoords a ++ tc
           ∧ length tc = if is_directive "vt" r then 1%nat else 0%nat).
Proof.
  read_header fill_line. fold (directive_of r).
  fold (is_directive "v" r) (is_directive "vt" r) (is_directive "vn" r).
  destruct (is_directive "v" r) eqn:Hv.
  { rewrite (is_directive_exclusive "v" "vn"), (is_directive_exclusive "v" "vt")
      by done.
    destruct (sscanf _ _) as [matches vs] eqn:Hs. intros Hrun. inv_ok.
    match goal with Hb : bool_decide _ = true |- _ =>
      apply bool_decide_eq_true in Hb end.
    sscanf_inv Hs. injection Hrun as <-. cbn.
    split; [by eexists [_]|]. split; exists []; by rewrite app_nil_r. }
  destruct (is_directive "vt" r) eqn:Hvt.
  { rewrite (is_directive_exclusive "vt" "vn") by done.
    destruct (sscanf _ _) as [matches vs] eqn:Hs. intros Hrun. inv_ok.
    match goal with Hb : bool_decide _ = true |- _ =>
      apply bool_decide_eq_true in Hb end.
    sscanf_inv Hs. injection Hrun as <-. cbn.
    split; [exists []; by rewrite app_nil_r|].
    split; [exists []; by rewrite app_nil_r|]. by eexists [_]. }
  destruct (is_directive "vn" r) eqn:Hvn.
  { destruct (sscanf _ _) as [matches vs] eqn:Hs. intros Hrun. inv_ok.
    match goal with Hb : bool_decide _ = true |- _ =>
      apply bool_decide_eq_true in Hb end.
    sscanf_inv Hs. injection Hrun as <-. cbn.
    split; [exists []; by rewrite app_nil_r|].
    split; [by eexists [_]|]. exists []; by rewrite app_nil_r. }
  intros [= <-]. repeat split; exists []; by rewrite app_nil_r.
Qed.

Lemma fill_lines_arrays (rs : list record) (a a' : Attributes) :
  while_lines fill_line rs a = Ok a' →
  (∃ pos, positions a' = positions a ++ pos
          ∧ length pos = directives "v" rs)
  ∧ (∃ nrm, normals a' = normals a ++ nrm
            ∧ length nrm = directives "vn" rs)
  ∧ (∃ tc, texcoords a' = texcoords a ++ tc
           ∧ length tc = directives "vt" rs).
Proof.
  unfold while_lines, directives. revert a.
  induction rs as [|r rs IH]; intros a; cbn [for_each].
  - intros [= <-]. repeat split; exists []; by rewrite app_nil_r.
  - intros Hrun. inv_ok. rename x into a1.
    match goal with Hl : fill_line _ _ = Ok _ |- _ =>
      apply fill_line_arrays in Hl
        as ((p1 & Ep1 & Lp1) & (n1 & En1 & Ln1) & (t1 & Et1 & Lt1)) end.
    apply IH in Hrun
      as ((p2 & Ep2 & Lp2) & (n2 & En2 & Ln2) & (t2 & Et2 & Lt2)).
    rewrite !filter_cons.
    split; [|split].
    + exists (p1 ++ p2). rewrite Ep2, Ep1, <- app_assoc. split; [done|].
      rewrite length_app, Lp1, Lp2.
      destruct (is_directive "v" r);
        [by rewrite decide_True | by rewrite decide_False].
    + exists (n1 ++ n2). rewrite En2, En1, <- app_assoc. split; [done|].
      rewrite length_app, Ln1, Ln2.
      destruct (is_directive "vn" r);
        [by rewrite decide_True | by rewrite decide_False].
    + exists (t1 ++ t2). rewrite Et2, Et1, <- app_assoc. split; [done|].
      rewrite length_app, Lt1, Lt2.
      destruct (is_directive "vt" r);
        [by rewrite decide_True | by rewrite decide_False].
Qed.

(** X2. After the attribute-fill loop over a buffer there is one
    position for every [v] record and one normal for every [vn]
    record, and the texture coordinates are the default (0.5,0.5) at
    index 0 followed by one entry for every [vt] record. *)
Theorem fill_pass_arrays (file_data : option string) (a : Attributes) :
  fill_pass file_data = Ok a →
  length (positions a) = directives "v" (records file_data)
  ∧ length (normals a) = directives "vn" (records file_data)
  ∧ ∃ declared,
      texcoords a = tex :: declared
      ∧ length declared = directives "vt" (records file_data).
Proof.
  unfold fill_pass.
  intros ((pos & Ep & Lp) & (nrm & En & Ln) & (tc & Et & Lt))%fill_lines_arrays.
  cbn in Ep, En, Et. rewrite Ep, En. split; [done|]. split; [done|].
  by exists tc.
Qed.

End fill_arrays.

Lemma fill_pass_arrays_witness :
  ∃ a, fill_pass (Some Example.v_vt_vn) = Ok a
       ∧ length (positions a) = 1%nat
       ∧ length (normals a) = 1%nat
       ∧ ∃ declared, texcoords a = tex :: declared ∧ length declared = 1%nat.
Proof.
  assert (∃ a, Example.v_vt_vn_filled = Ok a) as [a E]
    by (eexists; reflexivity).
  assert (fill_pass (Some Example.v_vt_vn) = Ok a) as Hrun
    by (rewrite <- E; reflexivity).
  exists a. split; [exact Hrun|].
  exact (fill_pass_arrays (Some Example.v_vt_vn) a Hrun).
Defined.

(** ** What [_load_obj] leaves in the scene *)

Section load_obj_whole.
Context `{FloatOps} (heap : Heap) (fs : files).

Lemma realloc_lookup_new {A} (fresh : nat → A) (a : list A) (k : Z) (i : nat) :
  (length a ≤ i < Z.to_nat k)%nat →
  realloc fresh a k !! i = Some (fresh i).
Proof.
  intros Hi. unfold realloc.
  rewrite lookup_app_r by (rewrite length_take; lia).
  rewrite length_take, list_lookup_fmap.
  replace (length a `min` Z.to_nat k)%nat with (length a) by lia.
  rewrite lookup_seq_lt by lia. cbn. f_equal. f_equal. lia.
Qed.

(** X3. Whatever the file holds, when [_load_obj] returns, the meshes
    and models that were in the scene are unchanged and every entry the
    call added is as the allocator handed it out: no name is written,
    since the fill loop and the group loop start on the [NULL] cursor
    the counting loop left in [file_data]. *)
Theorem load_obj_adds_uninitialised_entries
    (data : string) (scene scene' : SceneData.t) :
  consistent scene →
  SceneData.num_meshes scene + Z.of_nat (usemtl_directives data) < 2 ^ 32 →
  SceneData.num_models scene + Z.of_nat (usemtl_directives data) < 2 ^ 32 →
  load_obj_data heap fs data scene = Ok scene' →
  (∀ (i : nat) m, SceneData.meshes scene !! i = Some m →
                  SceneData.meshes scene' !! i = Some m)
  ∧ (∀ (i : nat) m, SceneData.models scene !! i = Some m →
                    SceneData.models scene' !! i = Some m)
  ∧ (∀ i : nat,
       (length (SceneData.meshes scene) ≤ i
        < length (SceneData.meshes scene) + usemtl_directives data)%nat →
       SceneData.meshes scene' !! i = Some (fresh_mesh heap i))
  ∧ (∀ i : nat,
       (length (SceneData.models scene) ≤ i
        < length (SceneData.models scene) + usemtl_directives data)%nat →
       SceneData.models scene' !! i = Some (fresh_model heap i)).
Proof.
  intros [Hm Hd] Rm Rd (c & Hc & ->)%load_obj_data_Ok.
  apply count_lines_usemtl in Hc as (Em & Ed & Hnm & Hnd & _).
  cbn [counted_scene] in Em, Ed, Hnm, Hnd.
  fold (usemtl_directives data) in Hnm, Hnd.
  rewrite Hnm, Hnd by lia. rewrite !to_uint32_small by lia.
  cbn [SceneData.meshes SceneData.models SceneData.set_meshes
       SceneData.set_models]. rewrite Em, Ed.
  split; [|split; [|split]].
  - intros i m Hi. apply lookup_lt_Some in Hi as ?.
    rewrite realloc_lookup_old by lia. done.
  - intros i m Hi. apply lookup_lt_Some in Hi as ?.
    rewrite realloc_lookup_old by lia. done.
  - intros i Hi. apply realloc_lookup_new. lia.
  - intros i Hi. apply realloc_lookup_new. lia.
Qed.

(** The ways the counting loop and the material parser fail: an
    assertion, an access outside the material array, or a word that
    has no room in the buffer it is read into. *)
Ltac counting_errors :=
  repeat match goal with
  | Hb : _ ≫= _ = Err _ |- _ =>
      apply bind_Err in Hb as [Hb|(? & _ & Hb)]
  | Hb : assert _ = Err _ |- _ => apply assert_Err in Hb as [_ ->]; by left
  | Hb : read _ _ _ = Err _ |- _ =>
      apply read_Err in Hb as [-> _]; right; repeat constructor
  | Hb : modify _ _ _ _ = Err _ |- _ =>
      apply modify_Err in Hb as [-> _]; right; repeat constructor
  | Hb : fits _ _ _ = Err _ |- _ =>
      apply fits_Err in Hb as [-> _]; right; repeat constructor
  | Hb : line_header _ _ = Err _ |- _ =>
      apply line_header_Err in Hb as [-> _]; right; repeat constructor
  | Hb : store_word _ _ _ _ _ _ _ = Err _ |- _ =>
      apply store_word_Err in Hb as [[-> _]|(-> & _)]; right; repeat constructor
  | Hb : Ok _ = Err _ |- _ => discriminate Hb
  | Hb : (let '(_, _) := ?p in _) = Err _ |- _ => destruct p
  | Hb : (if ?c then _ else _) = Err _ |- _ => destruct c
  | Hb : match ?vs with _ => _ end = Err _ |- _ => destruct vs
  end.

Lemma mtl_count_line_Err (r : record) (n : SceneData.t) (e : error) :
  mtl_count_line r n = Err e →
  e = AssertFailed
  ∨ e ∈ [OutOfBounds Materials; OutOfBounds LineHeader;
         OutOfBounds MtlFilename; OutOfBounds MaterialName;
         OutOfBounds AlbedoTex; OutOfBounds NormalTex].
Proof. unfold mtl_count_line. intros Hrun. counting_errors. Qed.

Lemma mtl_line_Err (r : record) (st : Z * list MaterialData.t) (e : error) :
  mtl_line r st = Err e →
  e = AssertFailed
  ∨ e ∈ [OutOfBounds Materials; OutOfBounds LineHeader;
         OutOfBounds MtlFilename; OutOfBounds MaterialName;
         OutOfBounds AlbedoTex; OutOfBounds NormalTex].
Proof.
  destruct st as [cur mats]. unfold mtl_line. intros Hrun. counting_errors.
Qed.

Lemma load_mtl_file_Err (filename : string) (scene : SceneData.t) (e : error) :
  _load_mtl_file heap fs filename scene = Err e →
  e = AssertFailed
  ∨ e ∈ [OutOfBounds Materials; OutOfBounds LineHeader;
         OutOfBounds MtlFilename; OutOfBounds MaterialName;
         OutOfBounds AlbedoTex; OutOfBounds NormalTex].
Proof.
  unfold _load_mtl_file, load_file_data.
  destruct (fs filename) as [data|]; cbn [mbind result_bind];
    [|intros [= <-]; by left].
  unfold load_mtl_data.
  intros [Herr|(scene1 & _ & Herr)]%bind_Err.
  - apply for_each_Err_inv in Herr as (? & r & ? & s1 & _ & _ & Herr).
    by apply mtl_count_line_Err in Herr.
  - apply bind_Err in Herr as [Herr|([? ?] & _ & ?)]; [|done].
    apply for_each_Err_inv in Herr as (? & r & ? & s1 & _ & _ & Herr).
    by apply mtl_line_Err in Herr.
Qed.

Lemma count_line_Err (r : record) (c : Counts) (e : error) :
  count_line heap fs r c = Err e →
  e = AssertFailed
  ∨ e ∈ [OutOfBounds Materials; OutOfBounds LineHeader;
         OutOfBounds MtlFilename; OutOfBounds MaterialName;
         OutOfBounds AlbedoTex; OutOfBounds NormalTex].
Proof.
  unfold count_line. destruct c as [nv nt nn nm scene]. intros Hrun.
  repeat match goal with
  | Hb : _load_mtl_file _ _ _ _ = Err _ |- _ =>
      by apply load_mtl_file_Err in Hb
  | _ => progress counting_errors
  end.
Qed.

(** X4. [_load_obj] as written never ends the run with an exit status.
    The run of the model fails only on an assertion (a file that
    cannot be opened, a directive of a material library or a [mtllib]
    line without its argument), on an access outside the material
    array, or on a word that is longer than the buffer it is read
    into: [line_header], [mtl_filename], or the name or a texture name
    of a material. A face record the group loop would refuse is never
    looked at. *)
Theorem load_obj_never_exits
    (filename : string) (scene : SceneData.t) (e : error) :
  _load_obj heap fs filename scene = Err e →
  e = AssertFailed
  ∨ e ∈ [OutOfBounds Materials; OutOfBounds LineHeader;
         OutOfBounds MtlFilename; OutOfBounds MaterialName;
         OutOfBounds AlbedoTex; OutOfBounds NormalTex].
Proof.
  unfold _load_obj, load_file_data.
  destruct (fs filename) as [data|]; cbn [mbind result_bind];
    [|intros [= <-]; by left].
  intros Hrun.
  unfold load_obj_data in Hrun. rewrite !cursor_after_NULL in Hrun.
  apply bind_Err in Hrun as [Herr|(c & _ & Herr)].
  - unfold count_pass in Herr.
    apply for_each_Err_inv in Herr as (? & r & ? & s1 & _ & _ & Herr).
    by apply count_line_Err in Herr.
  - rewrite fill_pass_NULL in Herr. cbn [mbind result_bind] in Herr.
    rewrite group_pass_NULL in Herr. cbn [mbind result_bind all_triangles
      meshes models positions normals texcoords no_attributes] in Herr.
    by rewrite create_meshes_empty in Herr.
Qed.

End load_obj_whole.

Lemma load_obj_adds_uninitialised_entries_witness :
  ∃ scene',
    load_obj_data Exact.stale Example.bad_face
      (Exact.unlines ["usemtl A"; "f 1 2"]) SceneData.zero = Ok scene'
    ∧ SceneData.meshes scene' !! 0%nat = Some (fresh_mesh Exact.stale 0)
    ∧ SceneData.models scene' !! 0%nat = Some (fresh_model Exact.stale 0).
Proof.
  assert (∃ scene', Example.bad_face_loaded = Ok scene') as [scene' E]
    by (eexists; reflexivity).
  assert (load_obj_data Exact.stale Example.bad_face
            (Exact.unlines ["usemtl A"; "f 1 2"]) SceneData.zero = Ok scene')
    as Hrun by (rewrite <- E; reflexivity).
  exists scene'. split; [exact Hrun|].
  destruct (load_obj_adds_uninitialised_entries Exact.stale Example.bad_face
              (Exact.unlines ["usemtl A"; "f 1 2"]) SceneData.zero scene')
    as (_ & _ & Hms & Hmd); [by vm_compute.. | exact Hrun |].
  split; [apply Hms | apply Hmd]; by vm_compute.
Defined.

Lemma load_obj_never_exits_witness :
  _load_obj Exact.stale Exact.no_files "missing.obj" SceneData.zero
    = Err AssertFailed
  ∧ (AssertFailed = AssertFailed
     ∨ AssertFailed ∈ [OutOfBounds Materials; OutOfBounds LineHeader;
                       OutOfBounds MtlFilename; OutOfBounds MaterialName;
                       OutOfBounds AlbedoTex; OutOfBounds NormalTex]).
Proof.
  split; [reflexivity|].
  exact (load_obj_never_exits Exact.stale Exact.no_files "missing.obj"
           SceneData.zero AssertFailed eq_refl).
Defined.

(** ** The material parser and the materials of earlier libraries *)

Section materials_frame.
Context `{FloatOps} (heap : Heap).

(** A record of the creating loop writes at [current_material] (after
    the step of [newmtl]) and nowhere else, and only [newmtl] writes a
    name. *)
Lemma mtl_line_frame (r : record) (cur cur' : Z)
    (mats mats' : list MaterialData.t) :
  mtl_line r (cur, mats) = Ok (cur', mats') →
  cur ≤ cur'
  ∧ (∀ i : nat, Z.of_nat i ≠ cur' → mats' !! i = mats !! i)
  ∧ (∀ i : nat, Z.of_nat i ≤ cur →
       (MaterialData.name <$> mats') !! i = (MaterialData.name <$> mats) !! i).
Proof.
  intros Hrun.
  assert (∀ (l l' : list MaterialData.t) (k : Z) f (i : nat),
            modify Materials l k f = Ok l' → Z.of_nat i ≠ k →
            l' !! i = l !! i) as Hother.
  { intros l l' k f i (x & ? & _ & ->)%modify_Ok Hi.
    apply list_lookup_insert_ne. lia. }
  assert (∀ (l l' : list MaterialData.t) (k : Z) f,
            (∀ x, MaterialData.name (f x) = MaterialData.name x) →
            modify Materials l k f = Ok l' →
            MaterialData.name <$> l' = MaterialData.name <$> l) as Hname
    by (intros; by eapply modify_fmap_same).
  unfold mtl_line in Hrun.
  apply bind_Ok in Hrun as (? & [_ ->]%line_header_Ok & Hrun).
  destruct (streq (first_word (line r)) "newmtl").
  { destruct (sscanf _ _) as [matches vs] eqn:Hs. inv_ok.
    match goal with Hb : bool_decide _ = true |- _ =>
      apply bool_decide_eq_true in Hb end.
    sscanf_inv Hs. cbv beta iota in *. inv_ok. subst. split; [lia|]. split.
    - intros i Hi.
      repeat match goal with Hm : modify _ _ _ _ = Ok _ |- _ =>
        rewrite (Hother _ _ _ _ i Hm) by done; clear Hm end. done.
    - intros i Hi. rewrite !list_lookup_fmap.
      repeat match goal with Hm : modify _ _ _ _ = Ok _ |- _ =>
        rewrite (Hother _ _ _ _ i Hm) by lia; clear Hm end. done. }
  destruct (streq (first_word (line r)) "map_Kd").
  { destruct (sscanf _ _) as [matches vs] eqn:Hs. inv_ok.
    match goal with Hb : bool_decide _ = true |- _ =>
      apply bool_decide_eq_true in Hb end.
    sscanf_inv Hs. cbv beta iota in *. inv_ok. subst. split; [lia|].
    match goal with Hm : modify _ _ _ _ = Ok _ |- _ =>
      split; [intros i Hi; by rewrite (Hother _ _ _ _ i Hm)
             | intros i _; f_equal; eapply Hname; [|exact Hm]; done] end. }
  inv_ok.
  match goal with b : bool |- _ => destruct b end.
  { destruct (sscanf _ _) as [matches vs] eqn:Hs. inv_ok.
    match goal with Hb : bool_decide _ = true |- _ =>
      apply bool_decide_eq_true in Hb end.
    sscanf_inv Hs. cbv beta iota in *. inv_ok. subst. split; [lia|].
    match goal with Hm : modify _ _ _ _ = Ok _ |- _ =>
      split; [intros i Hi; by rewrite (Hother _ _ _ _ i Hm)
             | intros i _; f_equal; eapply Hname; [|exact Hm]; done] end. }
  destruct (streq (first_word (line r)) "Ks").
  { destruct (sscanf _ _) as [matches vs] eqn:Hs. inv_ok.
    match goal with Hb : bool_decide _ = true |- _ =>
      apply bool_decide_eq_true in Hb end.
    sscanf_inv Hs. cbv beta iota in *. inv_ok. subst. split; [lia|].
    match goal with Hm : modify _ _ _ _ = Ok _ |- _ =>
      split; [intros i Hi; by rewrite (Hother _ _ _ _ i Hm)
             | intros i _; f_equal; eapply Hname; [|exact Hm]; done] end. }
  destruct (streq (first_word (line r)) "Ns").
  { destruct (sscanf _ _) as [matches vs] eqn:Hs. inv_ok.
    match goal with Hb : bool_decide _ = true |- _ =>
      apply bool_decide_eq_true in Hb end.
    sscanf_inv Hs. cbv beta iota in *. inv_ok. subst. split; [lia|].
    match goal with Hm : modify _ _ _ _ = Ok _ |- _ =>
      split; [intros i Hi; by rewrite (Hother _ _ _ _ i Hm)
             | intros i _; f_equal; eapply Hname; [|exact Hm]; done] end. }
  injection Hrun as <- <-. split; [lia|]. done.
Qed.

Lemma mtl_lines_frame (rs : list record) (cur cur' : Z)
    (mats mats' : list MaterialData.t) :
  while_lines mtl_line rs (cur, mats) = Ok (cur', mats') →
  cur ≤ cur'
  ∧ (∀ i : nat, Z.of_nat i < cur → mats' !! i = mats !! i)
  ∧ (∀ i : nat, Z.of_nat i ≤ cur →
       (MaterialData.name <$> mats') !! i = (MaterialData.name <$> mats) !! i).
Proof.
  unfold while_lines. revert cur mats.
  induction rs as [|r rs IH]; intros cur mats; cbn [for_each].
  - intros [= <- <-]. split; [lia|]. done.
  - intros Hrun. inv_ok. destruct x as [cur1 mats1].
    match goal with Hl : mtl_line _ _ = Ok _ |- _ =>
      apply mtl_line_frame in Hl as (Hle & Hother & Hnames) end.
    apply IH in Hrun as (Hle' & Hother' & Hnames'). clear IH.
    split; [lia|]. split.
    + intros i Hi. rewrite Hother' by lia. apply Hother. lia.
    + intros i Hi. rewrite Hnames' by lia. by apply Hnames.
Qed.

(** X5. Parsing a further material library leaves every material of
    the scene but the last one exactly as it was, and the last one
    keeps its name: the directives of the new library write through
    [current_material], which starts on the last material there is. *)
Theorem load_mtl_keeps_earlier_materials
    (data : string) (scene scene' : SceneData.t) :
  Z.of_nat (length (SceneData.materials scene)) = SceneData.num_materials scene →
  SceneData.num_materials scene + Z.of_nat (newmtl_directives data) < 2 ^ 31 →
  load_mtl_data heap data scene = Ok scene' →
  (∀ (i : nat) (m : MaterialData.t),
     (S i < length (SceneData.materials scene))%nat →
     SceneData.materials scene !! i = Some m →
     SceneData.materials scene' !! i = Some m)
  ∧ (∀ (i : nat) (m : MaterialData.t),
       SceneData.materials scene !! i = Some m →
       ∃ m', SceneData.materials scene' !! i = Some m'
             ∧ MaterialData.name m' = MaterialData.name m).
Proof.
  intros Hcons Hbound. unfold load_mtl_data. intros Hrun. inv_ok.
  rename x into scene1. destruct x0 as [cur mats]. inv_ok. subst scene'.
  match goal with Hl : while_lines mtl_count_line _ _ = Ok _ |- _ =>
    apply mtl_count_lines in Hl as [Hmats Hnum] end.
  fold (newmtl_directives data) in Hnum.
  rewrite Hnum in * by lia. rewrite Hmats in *.
  rewrite to_uint32_small, to_int_small in * by lia.
  match goal with Hl : while_lines mtl_line _ _ = Ok _ |- _ =>
    apply mtl_lines_frame in Hl as (_ & Hother & Hnames) end.
  destruct scene1; cbn [SceneData.materials SceneData.set_materials].
  split.
  - intros i m Hi Hm. rewrite Hother by lia.
    rewrite realloc_lookup_old by lia. done.
  - intros i m Hm. apply lookup_lt_Some in Hm as Hlt.
    specialize (Hnames i ltac:(lia)).
    rewrite !list_lookup_fmap in Hnames.
    rewrite realloc_lookup_old, Hm in Hnames by lia.
    destruct (mats !! i) as [m'|]; [|done].
    exists m'. split; [done|]. cbn in Hnames. by injection Hnames.
Qed.

Lemma mtl_count_lines_Ok (rs : list record) (scene : SceneData.t) :
  (∀ r, r ∈ rs → (String.length (directive_of r) < 64)%nat) →
  ∃ scene', while_lines mtl_count_line rs scene = Ok scene'.
Proof.
  unfold while_lines. revert scene.
  induction rs as [|r rs IH]; intros scene Hfit; cbn [for_each]; [eauto|].
  destruct (mtl_count_line r scene) as [scene1|e] eqn:Hstep.
  - cbn [mbind result_bind]. apply IH. intros r' ?. apply Hfit. by right.
  - unfold mtl_count_line in Hstep.
    rewrite line_header_fits in Hstep by (apply Hfit; left).
    cbn [mbind result_bind] in Hstep.
    by destruct (streq (first_word (line r)) "newmtl").
Qed.

Lemma mtl_line_ignored (r : record) (st : Z * list MaterialData.t) :
  (String.length (directive_of r) < 64)%nat →
  mtl_directive r = false → mtl_line r st = Ok st.
Proof.
  unfold mtl_directive, is_directive, directive_of.
  intros Hfit Hd. repeat (apply orb_false_iff in Hd as [Hd ?]).
  destruct st as [cur mats]. unfold mtl_line.
  rewrite line_header_fits by done. cbn [mbind result_bind].
  repeat match goal with Hs : streq _ _ = false |- _ => rewrite Hs; clear Hs end.
  done.
Qed.

(** X6. In a library parsed into a scene that has no material yet, a
    [map_bump] record before the first [newmtl] makes the parser read
    [normal_tex] one slot before the material array: the run fails out
    of bounds, whatever the record's argument is. The first word of
    every record of the library is taken to have room in
    [line_header], which holds 64 bytes. *)
Theorem map_bump_before_newmtl_out_of_bounds
    (data : string) (scene : SceneData.t)
    (before after : list record) (r : record) :
  SceneData.num_materials scene = 0 →
  records (Some data) = before ++ r :: after →
  (∀ r', r' ∈ records (Some data) →
         (String.length (directive_of r') < 64)%nat) →
  (∀ r', r' ∈ before → mtl_directive r' = false) →
  is_directive "map_bump" r = true →
  load_mtl_data heap data scene = Err (OutOfBounds Materials).
Proof.
  intros Hnum Hrs Hfit Hbefore Hbump. unfold load_mtl_data.
  destruct (mtl_count_lines_Ok (records (Some data)) scene Hfit)
    as [scene1 ->].
  cbn [mbind result_bind]. rewrite Hnum.
  change (to_int 0 - 1) with (-1).
  set (mats := realloc _ _ _).
  assert (for_each mtl_line (records (Some data)) (-1, mats)
          = Err (OutOfBounds Materials)) as Hloop.
  { rewrite Hrs in Hfit |- *.
    apply (for_each_Err_intro _ _ _ _ _ (-1, mats)).
    - clear Hrs.
      assert (∀ r', r' ∈ before → (String.length (directive_of r') < 64)%nat)
        as Hfit'.
      { intros r' ?. apply Hfit. apply elem_of_app. by left. }
      clear Hfit.
      induction before as [|r0 before IH]; [done|].
      cbn [for_each].
      rewrite mtl_line_ignored by (apply Hfit' || apply Hbefore; left).
      cbn. apply IH; intros r' ?; [apply Hbefore | apply Hfit']; by right.
    - unfold mtl_line. rewrite line_header_fits.
      2:{ apply Hfit. apply elem_of_app. right. left. }
      cbn [mbind result_bind].
      unfold is_directive, directive_of in Hbump.
      assert (first_word (line r) = "map_bump") as ->
        by (by apply String.eqb_eq).
      done. }
  unfold while_lines. by rewrite Hloop.
Qed.

End materials_frame.

Lemma load_mtl_keeps_earlier_materials_witness :
  ∃ scene scene' m0 m1 m1',
    Example.two_materials_loaded = Ok scene
    ∧ load_mtl_data Exact.stale Example.third_material scene = Ok scene'
    ∧ SceneData.materials scene !! 0%nat = Some m0
    ∧ SceneData.materials scene' !! 0%nat = Some m0
    ∧ SceneData.materials scene !! 1%nat = Some m1
    ∧ SceneData.materials scene' !! 1%nat = Some m1'
    ∧ MaterialData.name m1' = MaterialData.name m1
    ∧ MaterialData.albedo_tex m1' = "late.png".
Proof.
  assert (∃ scene scene' m0 m1 m1',
            Example.two_materials_loaded = Ok scene
            ∧ Example.second_library_loaded = Ok scene'
            ∧ SceneData.materials scene !! 0%nat = Some m0
            ∧ SceneData.materials scene !! 1%nat = Some m1
            ∧ SceneData.materials scene' !! 1%nat = Some m1'
            ∧ MaterialData.albedo_tex m1' = "late.png")
    as (scene & scene' & m0 & m1 & m1' & E & E' & H0 & H1 & H1' & Ha)
    by (do 5 eexists; repeat split; reflexivity).
  assert (load_mtl_data Exact.stale Example.third_material scene = Ok scene')
    as Hrun.
  { rewrite <- E'. unfold Example.two_materials_loaded in E.
    injection E as <-. reflexivity. }
  destruct (load_mtl_keeps_earlier_materials Exact.stale
              Example.third_material scene scene') as [Hkeep Hname].
  - unfold Example.two_materials_loaded in E. injection E as <-. reflexivity.
  - unfold Example.two_materials_loaded in E. injection E as <-. by vm_compute.
  - exact Hrun.
  - exists scene, scene', m0, m1, m1'.
    split; [exact E|]. split; [exact Hrun|]. split; [exact H0|].
    split.
    { apply Hkeep; [|exact H0].
      unfold Example.two_materials_loaded in E. injection E as <-.
      by vm_compute. }
    split; [exact H1|]. split; [exact H1'|]. split; [|exact Ha].
    destruct (Hname 1%nat m1 H1) as (m' & Hm' & Hn).
    rewrite H1' in Hm'. by injection Hm' as ->.
Defined.

Lemma map_bump_before_newmtl_out_of_bounds_witness :
  load_mtl_data Exact.stale Example.bump_first SceneData.zero
    = Err (OutOfBounds Materials).
Proof.
  apply (map_bump_before_newmtl_out_of_bounds Exact.stale Example.bump_first
           SceneData.zero
           (take 1 (records (Some Example.bump_first)))
           (drop 2 (records (Some Example.bump_first)))
           {| this_line := Exact.unlines ["map_bump a.png"; "newmtl A"];
              line := "map_bump a.png";
              next_line := Some (Exact.unlines ["newmtl A"]) |}).
  - reflexivity.
  - by vm_compute.
  - intros r' Hin. vm_compute in Hin.
    repeat (apply elem_of_cons in Hin as [->|Hin]; [vm_compute; lia|]).
    by apply elem_of_nil in Hin.
  - intros r' Hin. vm_compute in Hin.
    apply elem_of_cons in Hin as [->|Hin]; [by vm_compute|].
    by apply elem_of_nil in Hin.
  - by vm_compute.
Defined.

(** Without the room in [line_header] the run ends earlier and in
    another way: the counting loop of the parser copies the first word
    of every record of the library. *)
Lemma long_first_word_overruns_line_header :
  load_mtl_data Exact.stale Example.long_word_first SceneData.zero
    = Err (OutOfBounds LineHeader).
Proof.
  assert (Example.long_word_first_loaded = Err (OutOfBounds LineHeader))
    as E by reflexivity.
  rewrite <- E. reflexivity.
Qed.

(** ** The triangles of the groups *)

Section group_faces.
Context `{FloatOps}.





End group_faces.


(** ** When the tangent calculator returns *)

Section tangents_total.
Context `{FloatOps} (heap : Heap).

Lemma modify_total {A} (a : array_name) (l : list A) (i : Z) (f : A → A) :
  0 ≤ i < Z.of_nat (length l) →
  ∃ l', modify a l i f = Ok l' ∧ length l' = length l.
Proof.
  intros Hi. destruct (lookup_lt_is_Some_2 l (Z.to_nat i)) as [x Hx]; [lia|].
  exists (<[Z.to_nat i := f x]> l). split; [|apply length_insert].
  apply modify_Ok. exists x. split; [lia|done].
Qed.

Lemma read_index_nonneg (indices : list Z) (index_size k i : Z) :
  read_index indices index_size k = Ok i → 0 ≤ i.
Proof.
  unfold read_index. case_bool_decide; intros Hr; inv_ok; subst;
    unfold to_uint32; apply Z.mod_pos_bound; lia.
Qed.

Lemma tangent_step_length (indices : list Z) (index_size : Z)
    (nv nv' : list Vertex.t) (ii : Z) :
  tangent_step indices index_size nv ii = Ok nv' → length nv' = length nv.
Proof.
  intros Hs. apply tangent_step_lists in Hs
    as (? & ? & ? & ? & ? & ? & _ & _ & _ & _ & _ & _ & Hg & _).
  apply (f_equal length) in Hg. by rewrite !length_fmap in Hg.
Qed.

(** A turn of the loop succeeds exactly when its three indices can be
    read and lead into the new vertices. *)
Lemma tangent_step_Ok_iff (indices : list Z) (index_size : Z)
    (nv : list Vertex.t) (ii : Z) :
  (∃ nv', tangent_step indices index_size nv ii = Ok nv') ↔
  ∀ o, 0 ≤ o < 3 →
    ∃ i, read_index indices index_size (ii + o) = Ok i
         ∧ i < Z.of_nat (length nv).
Proof.
  split.
  - intros [nv' Hs] o Ho. apply tangent_step_lists in Hs
      as (i0 & i1 & i2 & v0 & v1 & v2 & H0 & H1 & H2
          & [_ Hv0] & [_ Hv1] & [_ Hv2] & _).
    apply lookup_lt_Some in Hv0, Hv1, Hv2.
    pose proof (read_index_nonneg _ _ _ _ H0).
    pose proof (read_index_nonneg _ _ _ _ H1).
    pose proof (read_index_nonneg _ _ _ _ H2).
    assert (o = 0 ∨ o = 1 ∨ o = 2) as [-> | [-> | ->]] by lia;
      eexists; (split; [eassumption | lia]).
  - intros Hall.
    destruct (Hall 0) as (i0 & Hr0 & ?); [lia|].
    destruct (Hall 1) as (i1 & Hr1 & ?); [lia|].
    destruct (Hall 2) as (i2 & Hr2 & ?); [lia|].
    pose proof (read_index_nonneg _ _ _ _ Hr0).
    pose proof (read_index_nonneg _ _ _ _ Hr1).
    pose proof (read_index_nonneg _ _ _ _ Hr2).
    destruct (lookup_lt_is_Some_2 nv (Z.to_nat i0)) as [v0 Hv0]; [lia|].
    destruct (lookup_lt_is_Some_2 nv (Z.to_nat i1)) as [v1 Hv1]; [lia|].
    destruct (lookup_lt_is_Some_2 nv (Z.to_nat i2)) as [v2 Hv2]; [lia|].
    unfold tangent_step. rewrite Hr0, Hr1, Hr2. cbn [mbind result_bind].
    rewrite (proj2 (read_Ok Vertices nv i0 v0)) by done.
    rewrite (proj2 (read_Ok Vertices nv i1 v1)) by done.
    rewrite (proj2 (read_Ok Vertices nv i2 v2)) by done.
    cbn [mbind result_bind].
    destruct (triangle_basis v0 v1 v2) as [tangent bitangent].
    destruct (modify_total Vertices nv i0 (set_bitangent bitangent))
      as (n1 & -> & L1); [lia|]. cbn [mbind result_bind].
    destruct (modify_total Vertices n1 i1 (set_bitangent bitangent))
      as (n2 & -> & L2); [lia|]. cbn [mbind result_bind].
    destruct (modify_total Vertices n2 i2 (set_bitangent bitangent))
      as (n3 & -> & L3); [lia|]. cbn [mbind result_bind].
    destruct (modify_total Vertices n3 i0 (set_tangent tangent))
      as (n4 & -> & L4); [lia|]. cbn [mbind result_bind].
    destruct (modify_total Vertices n4 i1 (set_tangent tangent))
      as (n5 & -> & L5); [lia|]. cbn [mbind result_bind].
    destruct (modify_total Vertices n5 i2 (set_tangent tangent))
      as (n6 & -> & L6); [lia|]. cbn [mbind result_bind].
    by exists n6.
Qed.

Lemma tangent_steps_Ok_iff (indices : list Z) (index_size : Z)
    (starts : list Z) (nv : list Vertex.t) :
  (∃ nv', for_each (λ ii nv, tangent_step indices index_size nv ii) starts nv
          = Ok nv') ↔
  ∀ ii o, ii ∈ starts → 0 ≤ o < 3 →
    ∃ i, read_index indices index_size (ii + o) = Ok i
         ∧ i < Z.of_nat (length nv).
Proof.
  revert nv. induction starts as [|ii starts IH]; intros nv; cbn [for_each].
  - split; [|by eauto]. intros _ ii o Hin. by apply elem_of_nil in Hin.
  - split.
    + intros [nv' Hrun]. inv_ok. rename x into nv1.
      match goal with Hs : tangent_step _ _ _ _ = Ok _ |- _ =>
        pose proof (tangent_step_length _ _ _ _ _ Hs) as Hlen;
        rename Hs into Hstep end.
      intros ii' o [->|Hin]%elem_of_cons Ho.
      * by apply (proj1 (tangent_step_Ok_iff indices index_size nv ii));
          [exists nv1|].
      * rewrite <- Hlen. by apply (proj1 (IH nv1)); [exists nv'|..].
    + intros Hall.
      destruct (proj2 (tangent_step_Ok_iff indices index_size nv ii))
        as [nv1 Hstep]; [intros o Ho; apply Hall; [left|done]|].
      rewrite Hstep. cbn [mbind result_bind].
      apply IH. intros ii' o Hin Ho.
      rewrite (tangent_step_length _ _ _ _ _ Hstep).
      apply Hall; [by right|done].
Qed.

Lemma tangent_steps_length (indices : list Z) (index_size : Z)
    (starts : list Z) (nv nv' : list Vertex.t) :
  for_each (λ ii nv, tangent_step indices index_size nv ii) starts nv = Ok nv' →
  length nv' = length nv.
Proof.
  intros Hg%tangent_steps_geometry.
  apply (f_equal length) in Hg. by rewrite !length_fmap in Hg.
Qed.

Lemma triangle_starts_spec (num_indices ii : Z) :
  ii ∈ triangle_starts num_indices ↔
  ∃ k, 0 ≤ k < (num_indices + 2) / 3 ∧ ii = 3 * k.
Proof.
  unfold triangle_starts. rewrite list_elem_of_fmap. split.
  - intros (k & -> & Hk%elem_of_seq). exists (Z.of_nat k). split; lia.
  - intros (k & Hk & ->). exists (Z.to_nat k). split; [lia|].
    apply elem_of_seq. lia.
Qed.

(** The copying loop: it succeeds exactly when the old array has the
    vertices it reads, and a new vertex has the tangent and the
    bitangent the allocator left in its slot. *)
Lemma copy_vertices_Ok_iff (vertices : list SimpleVertex.t) (start len : nat) :
  (∃ nv, mapM_result (copy_vertex heap vertices) (seq start len) = Ok nv) ↔
  (len = 0 ∨ start + len ≤ length vertices)%nat.
Proof.
  revert start. induction len as [|len IH]; intros start; cbn [seq mapM_result].
  - split; [by left | by eauto].
  - split.
    + intros [nv Hrun]. inv_ok. right.
      match goal with Hc : copy_vertex _ _ _ = Ok _ |- _ =>
        unfold copy_vertex in Hc; rename Hc into Hcopy end.
      inv_ok.
      match goal with Hr : read _ _ _ = Ok _ |- _ =>
        apply read_Ok in Hr as [_ Hr%lookup_lt_Some] end.
      match goal with Hm : mapM_result _ _ = Ok _ |- _ =>
        assert (len = 0 ∨ S start + len ≤ length vertices)%nat as [->|?]
          by (apply IH; eauto) end; lia.
    + intros [?|Hle]; [done|].
      destruct (lookup_lt_is_Some_2 vertices start) as [sv Hsv]; [lia|].
      assert (∃ v0, copy_vertex heap vertices start = Ok v0) as [v0 ->].
      { unfold copy_vertex.
        rewrite (proj2 (read_Ok Vertices vertices (Z.of_nat start) sv))
          by (rewrite Nat2Z.id; split; [lia|done]).
        cbn [mbind result_bind]. eauto. }
      cbn [mbind result_bind].
      destruct (proj2 (IH (S start))) as [nv ->];
        [destruct len; [by left | right; lia]|].
      cbn [mbind result_bind]. eauto.
Qed.

Lemma copy_vertices_fresh (vertices : list SimpleVertex.t)
    (start len : nat) (nv : list Vertex.t) :
  mapM_result (copy_vertex heap vertices) (seq start len) = Ok nv →
  Vertex.tangent <$> nv
    = (λ j, Vertex.tangent (fresh_vertex heap j)) <$> seq start len
  ∧ Vertex.bitangent <$> nv
    = (λ j, Vertex.bitangent (fresh_vertex heap j)) <$> seq start len.
Proof.
  revert start nv.
  induction len as [|len IH]; intros start nv; cbn [seq mapM_result].
  - by intros [= <-].
  - intros Hrun. inv_ok. subst nv.
    match goal with Hc : copy_vertex _ _ _ = Ok _ |- _ =>
      unfold copy_vertex in Hc; rename Hc into Hcopy end.
    inv_ok. subst.
    match goal with Hm : mapM_result _ _ = Ok _ |- _ =>
      apply IH in Hm as [Ht Hb] end.
    cbn. by rewrite Ht, Hb.
Qed.

(** X8. [calculate_tangets] runs to its end, with no access outside
    its arrays and no allocation of a negative length, exactly when
    [num_vertices] is not negative, the old array holds the
    [num_vertices] vertices it copies, and every index the loop
    reads, three for each start [ii = 0, 3, 6, ...] below
    [num_indices], is there and leads into the new vertices; the
    array it returns has [num_vertices] elements. *)
Theorem calculate_tangets_returns (vertices : list SimpleVertex.t)
    (num_vertices : Z) (indices : list Z) (index_size num_indices : Z) :
  ((∃ nv, calculate_tangets heap vertices num_vertices indices index_size
            num_indices = Ok nv)
   ↔ 0 ≤ num_vertices ≤ Z.of_nat (length vertices)
     ∧ ∀ k, 0 ≤ k < 3 * ((num_indices + 2) / 3) →
         ∃ i, read_index indices index_size k = Ok i ∧ i < num_vertices)
  ∧ ∀ nv, calculate_tangets heap vertices num_vertices indices index_size
            num_indices = Ok nv →
          Z.of_nat (length nv) = num_vertices.
Proof.
  assert (Hlen : ∀ nv0,
            mapM_result (copy_vertex heap vertices)
              (seq 0 (Z.to_nat num_vertices)) = Ok nv0 →
            length nv0 = Z.to_nat num_vertices).
  { intros nv0 [Hc _]%copy_vertices_fresh.
    apply (f_equal length) in Hc. by rewrite !length_fmap, length_seq in Hc. }
  unfold calculate_tangets. split; [split|].
  - intros [nv Hrun]. apply bind_Ok in Hrun as (? & Hpos & Hrun).
    case_bool_decide; [clear Hpos|done].
    inv_ok. rename x0 into nv0.
    match goal with Hc : mapM_result _ _ = Ok _ |- _ =>
      pose proof (Hlen _ Hc) as Hl;
      assert (Z.to_nat num_vertices = 0
              ∨ 0 + Z.to_nat num_vertices ≤ length vertices)%nat
        by (apply copy_vertices_Ok_iff; eauto) end.
    split; [lia|]. intros k Hk.
    enough (∃ i, read_index indices index_size k = Ok i
                 ∧ i < Z.of_nat (length nv0)) as (i & ? & ?)
      by (exists i; split; [done|lia]).
    replace k with (3 * (k / 3) + k mod 3) by (symmetry; apply Z_div_mod_eq_full).
    apply (proj1 (tangent_steps_Ok_iff indices index_size
                    (triangle_starts num_indices) nv0)); [by exists nv| |].
    + apply triangle_starts_spec. exists (k / 3). split; [|done].
      split; [apply Z.div_pos; lia|].
      apply Z.div_lt_upper_bound; lia.
    + apply Z.mod_pos_bound. lia.
  - intros [Hle Hall]. rewrite bool_decide_eq_true_2 by lia.
    cbn [mbind result_bind].
    destruct (proj2 (copy_vertices_Ok_iff vertices 0 (Z.to_nat num_vertices)))
      as [nv0 Hc]; [right; lia|].
    rewrite Hc. cbn [mbind result_bind].
    apply tangent_steps_Ok_iff.
    intros ii o (k & Hk & ->)%triangle_starts_spec Ho.
    rewrite (Hlen _ Hc). rewrite Z2Nat.id by lia. apply Hall. lia.
  - intros nv Hrun. apply bind_Ok in Hrun as (? & Hpos & Hrun).
    case_bool_decide; [clear Hpos|done]. inv_ok.
    match goal with Hc : mapM_result _ _ = Ok _ |- _ =>
      pose proof (Hlen _ Hc) as Hl end.
    erewrite tangent_steps_length by done. lia.
Qed.

(** X9. A vertex that no triangle of the index buffer references is
    returned with the tangent and the bitangent [new Vertex[]] left
    in its slot: the function writes them for referenced vertices
    only. *)
Theorem unreferenced_vertex_keeps_allocated_basis
    (vertices : list SimpleVertex.t) (num_vertices : Z) (indices : list Z)
    (index_size num_indices : Z) (nv : list Vertex.t) (j : nat) :
  calculate_tangets heap vertices num_vertices indices index_size num_indices
    = Ok nv →
  (j < Z.to_nat num_vertices)%nat →
  (∀ ii, ii ∈ triangle_starts num_indices →
         ¬ references indices index_size ii j) →
  ∃ vj, nv !! j = Some vj
        ∧ Vertex.tangent vj = Vertex.tangent (fresh_vertex heap j)
        ∧ Vertex.bitangent vj = Vertex.bitangent (fresh_vertex heap j).
Proof.
  unfold calculate_tangets. intros Hrun Hj Hfree. inv_ok. rename x0 into nv0.
  match goal with Hc : mapM_result _ _ = Ok _ |- _ =>
    apply copy_vertices_fresh in Hc as [Ht0 Hb0] end.
  destruct (tangent_steps_frame _ _ _ _ _ j Hrun Hfree) as [Ht Hb].
  rewrite Ht0 in Ht. rewrite Hb0 in Hb.
  rewrite !list_lookup_fmap in Ht, Hb.
  rewrite lookup_seq_lt in Ht, Hb by done. cbn in Ht, Hb.
  destruct (nv !! j) as [vj|]; [|done].
  exists vj. cbn in Ht, Hb. split; [done|]. split; congruence.
Qed.

End tangents_total.

(** ** Index counts that are no multiple of three *)

Section tangents_ragged.
Context `{FloatOps} (heap : Heap).

Lemma read_index_Ok_intro (indices : list Z) (index_size : Z) (k : Z)
    (idx bound : Z) :
  0 ≤ k → indices !! Z.to_nat k = Some idx → 0 ≤ idx < bound →
  ∃ i, read_index indices index_size k = Ok i ∧ i < bound.
Proof.
  intros Hk Hidx Hb. unfold read_index.
  rewrite (proj2 (read_Ok Indices indices k idx)) by done.
  case_bool_decide; cbn [mbind result_bind]; eexists; (split; [done|]).
  - pose proof (Z.mod_le idx (2 ^ 16) ltac:(lia) ltac:(lia)). lia.
  - unfold to_uint32.
    pose proof (Z.mod_le idx (2 ^ 32) ltac:(lia) ltac:(lia)). lia.
Qed.

Lemma read_index_Err_intro (indices : list Z) (index_size : Z) (k : Z) :
  Z.of_nat (length indices) ≤ k →
  read_index indices index_size k = Err (OutOfBounds Indices).
Proof.
  intros Hk. unfold read_index.
  assert (read Indices indices k = Err (OutOfBounds Indices)) as ->
    by (apply read_Err; split; [done | lia]).
  by case_bool_decide.
Qed.

(** X10. The loop over the triangles tests [ii < num_indices] and then
    reads [ii + 1] and [ii + 2] without a test: called with an index
    array of exactly [num_indices] elements, all of them in range,
    where [num_indices] is no multiple of three, it reads past the end
    of the index array in its last turn. *)
Theorem ragged_index_count_reads_past_the_end
    (vertices : list SimpleVertex.t) (num_vertices : Z) (indices : list Z)
    (index_size num_indices : Z) :
  (Z.to_nat num_vertices ≤ length vertices)%nat →
  Z.of_nat (length indices) = num_indices →
  num_indices mod 3 ≠ 0 →
  (∀ idx, idx ∈ indices → 0 ≤ idx < num_vertices) →
  calculate_tangets heap vertices num_vertices indices index_size num_indices
    = Err (OutOfBounds Indices).
Proof.
  intros Hle Hlen Hmod Hrange. unfold calculate_tangets.
  assert (0 ≤ num_vertices) as Hpos.
  { destruct indices as [|idx ?].
    - exfalso. apply Hmod. by rewrite <- Hlen.
    - specialize (Hrange idx ltac:(left)). lia. }
  rewrite bool_decide_eq_true_2 by done. cbn [mbind result_bind].
  destruct (proj2 (copy_vertices_Ok_iff heap vertices 0 (Z.to_nat num_vertices)))
    as [nv0 Hc]; [right; lia|].
  rewrite Hc. cbn [mbind result_bind].
  assert (length nv0 = Z.to_nat num_vertices) as Hl0.
  { apply copy_vertices_fresh in Hc as [Hc _].
    apply (f_equal length) in Hc. by rewrite !length_fmap, length_seq in Hc. }
  pose proof (Z.mod_pos_bound num_indices 3 ltac:(lia)) as Hr.
  pose proof (Z_div_mod_eq_full num_indices 3) as Hq.
  assert (0 ≤ num_indices / 3) as Hq0 by (apply Z.div_pos; lia).
  set (q := num_indices / 3) in *.
  assert ((num_indices + 2) / 3 = q + 1) as HT.
  { symmetry. apply (Z.div_unique _ _ _ (num_indices mod 3 - 1)); lia. }
  assert (triangle_starts num_indices
          = ((λ k, 3 * Z.of_nat k) <$> seq 0 (Z.to_nat q)) ++ [3 * q]) as ->.
  { unfold triangle_starts. rewrite HT.
    replace (Z.to_nat (q + 1)) with (Z.to_nat q + 1)%nat by lia.
    rewrite seq_app, fmap_app. cbn. f_equal. f_equal. lia. }
  assert (Hread : ∀ k, 0 ≤ k < num_indices →
            ∃ i, read_index indices index_size k = Ok i
                 ∧ i < Z.of_nat (length nv0)).
  { intros k Hk.
    destruct (lookup_lt_is_Some_2 indices (Z.to_nat k)) as [idx Hidx]; [lia|].
    apply (read_index_Ok_intro _ _ _ idx); [lia|done|].
    rewrite Hl0. assert (0 ≤ idx < num_vertices); [|lia].
    apply Hrange, list_elem_of_lookup. eauto. }
  destruct (proj2 (tangent_steps_Ok_iff indices index_size
                     ((λ k, 3 * Z.of_nat k) <$> seq 0 (Z.to_nat q)) nv0))
    as [nv1 Hfull].
  { intros ii o (k & -> & Hk%elem_of_seq)%list_elem_of_fmap Ho.
    apply Hread. lia. }
  eapply for_each_Err_intro; [exact Hfull|]. cbv beta.
  unfold tangent_step.
  destruct (Hread (3 * q + 0)) as (i0 & -> & _); [lia|].
  cbn [mbind result_bind].
  destruct (decide (num_indices mod 3 = 1)) as [H1|H1].
  - by rewrite (read_index_Err_intro indices index_size (3 * q + 1)) by lia.
  - destruct (Hread (3 * q + 1)) as (i1 & -> & _); [lia|].
    cbn [mbind result_bind].
    by rewrite (read_index_Err_intro indices index_size (3 * q + 2)) by lia.
Qed.

End tangents_ragged.

(** ** The deduplicator and the tangent calculator together *)

Section create_mesh_total.
Context `{FloatOps} (heap : Heap).
Context (positions normals : list Vec3.t) (texcoords : list Vec2.t).

Lemma corners_length (triangles : list Triangle) :
  length (corners triangles) = (3 * length triangles)%nat.
Proof.
  unfold corners. induction triangles as [|[[[a b] c]] triangles IH]; [done|].
  cbn [mbind list_bind vertex]. cbn [app length]. rewrite IH. lia.
Qed.

(** The indices the deduplicator emits lead into its vertices. *)
Lemma dedup_indices_in_range (indices : list int3) (b : Buffers) :
  dedup_inv positions normals texcoords indices b →
  length (i b) = length indices
  ∧ (length (v b) ≤ length indices)%nat
  ∧ ∀ (k : nat) s, i b !! k = Some s → 0 ≤ s < Z.of_nat (length (v b)).
Proof.
  intros [Hv _ Hi].
  apply Forall2_length in Hv as Hvl. apply Forall2_length in Hi as Hil.
  pose proof (first_occurrences_length indices).
  split; [done|]. split; [lia|].
  intros k s Hs.
  destruct (Forall2_lookup_r _ _ _ _ _ Hi Hs) as (idx & _ & j & Hj & ->).
  apply lookup_lt_Some in Hj. lia.
Qed.

(** X11. On the corners of a list of triangles the tangent calculator
    never fails after the deduplicator: a turn of the mesh loop fails
    only where the deduplicator reads outside the attributes, and
    otherwise ends with one new vertex for every deduplicated one. *)
Theorem create_mesh_fails_only_in_dedup (triangles : list Triangle) :
  3 * Z.of_nat (length triangles) < 2 ^ 31 →
  (∀ b, dedup positions normals texcoords (corners triangles) = Ok b →
        ∃ nv, create_mesh heap positions normals texcoords (corners triangles)
                = Ok (b, nv)
              ∧ length nv = length (v b))
  ∧ (∀ e, create_mesh heap positions normals texcoords (corners triangles)
            = Err e →
          dedup positions normals texcoords (corners triangles) = Err e).
Proof.
  intros Hlen.
  pose proof (corners_length triangles) as Hcl.
  assert (Hok : ∀ b,
            dedup positions normals texcoords (corners triangles) = Ok b →
            ∃ nv, create_mesh heap positions normals texcoords
                    (corners triangles) = Ok (b, nv)
                  ∧ length nv = length (v b)).
  { intros b Hd. unfold create_mesh. rewrite Hd. cbn [mbind result_bind].
    destruct (dedup_indices_in_range (corners triangles) b)
      as (Hil & Hvl & Hrange); [apply dedup_inv_final; [lia|done]|].
    rewrite !to_uint32_small, !to_int_small by lia.
    unfold calculate_tangets.
    rewrite bool_decide_eq_true_2 by lia. cbn [mbind result_bind].
    rewrite Nat2Z.id.
    destruct (proj2 (copy_vertices_Ok_iff heap (v b) 0 (length (v b))))
      as [nv0 Hc]; [right; lia|].
    rewrite Hc. cbn [mbind result_bind].
    assert (length nv0 = length (v b)) as Hl0.
    { apply copy_vertices_fresh in Hc as [Hc _].
      apply (f_equal length) in Hc.
      by rewrite !length_fmap, length_seq in Hc. }
    destruct (proj2 (tangent_steps_Ok_iff (i b) 4
                       (triangle_starts (Z.of_nat (length (i b)))) nv0))
      as [nv Hrun].
    { intros ii o (k & Hk & ->)%triangle_starts_spec Ho.
      rewrite Hil, Hcl in Hk.
      replace ((Z.of_nat (3 * length triangles) + 2) / 3)
        with (Z.of_nat (length triangles)) in Hk
        by (apply (Z.div_unique _ _ _ 2); lia).
      destruct (lookup_lt_is_Some_2 (i b) (Z.to_nat (3 * k + o)))
        as [s Hs]; [lia|].
      apply (read_index_Ok_intro _ _ _ s); [lia|done|].
      rewrite Hl0. by eapply Hrange. }
    rewrite Hrun. cbn [mbind result_bind]. exists nv. split; [done|].
    rewrite <- Hl0. by eapply tangent_steps_length. }
  split; [exact Hok|].
  intros e Herr.
  destruct (dedup positions normals texcoords (corners triangles))
    as [b|e'] eqn:Hd.
  - destruct (Hok b eq_refl) as (nv & Hrun & _). congruence.
  - unfold create_mesh in Herr. rewrite Hd in Herr. cbn in Herr. congruence.
Qed.

(** The deduplicator succeeds on corners whose vertices can be made. *)
Lemma dedup_corners_total (l : list int3) (b : Buffers) :
  (∀ idx, idx ∈ l →
          ∃ vert, make_vertex positions normals texcoords idx = Ok vert) →
  ∃ b', for_each (dedup_corner positions normals texcoords) l b = Ok b'.
Proof.
  revert b. induction l as [|idx l IH]; intros b Hall; cbn [for_each];
    [by eauto|].
  assert (∃ b1, dedup_corner positions normals texcoords idx b = Ok b1)
    as [b1 ->].
  { unfold dedup_corner. destruct (m b !! idx); [by eauto|].
    destruct (Hall idx) as [vert ->]; [left|]. cbn [mbind result_bind].
    by eauto. }
  cbn [mbind result_bind]. apply IH. intros idx' ?. apply Hall. by right.
Qed.

Lemma make_vertex_Ok_iff (idx : int3) :
  well_formed idx →
  (∃ vert, make_vertex positions normals texcoords idx = Ok vert)
  ↔ in_range positions normals texcoords idx.
Proof.
  intros Hwf. split.
  - intros [vert Hmk].
    destruct (make_vertex_Ok _ _ _ _ _ Hmk Hwf)
      as (tc & Hp%lookup_lt_Some & Hn%lookup_lt_Some & Ht%lookup_lt_Some & _).
    destruct Hwf as (? & ? & ?). unfold in_range. lia.
  - intros (Hp & Ht & Hn). destruct Hwf as (? & ? & ?).
    unfold make_vertex.
    rewrite !to_int_small, !to_uint32_small by lia.
    destruct (lookup_lt_is_Some_2 positions (Z.to_nat (p idx - 1)))
      as [pos Hpos]; [lia|].
    destruct (lookup_lt_is_Some_2 texcoords (Z.to_nat (t idx)))
      as [tc Htc]; [lia|].
    destruct (lookup_lt_is_Some_2 normals (Z.to_nat (n idx - 1)))
      as [nrm Hnrm]; [lia|].
    rewrite (proj2 (read_Ok Positions positions (p idx - 1) pos))
      by (split; [lia|done]).
    rewrite (proj2 (read_Ok Texcoords texcoords (t idx) tc))
      by (split; [lia|done]).
    rewrite (proj2 (read_Ok Normals normals (n idx - 1) nrm))
      by (split; [lia|done]).
    cbn [mbind result_bind]. eauto.
Qed.

(** X12. Over corners with positive position and normal numbers and a
    texture number that is not negative, the deduplicator reads inside
    the attribute arrays only, and so runs to its end with no access
    outside them, exactly when every corner names a position, a
    texture coordinate and a normal that were declared: the code reads
    the arrays without a test. *)
Theorem dedup_returns_iff_in_range (indices : list int3) :
  Z.of_nat (length indices) < 2 ^ 31 →
  (∀ idx, idx ∈ indices → well_formed idx) →
  (∃ b, dedup positions normals texcoords indices = Ok b)
  ↔ ∀ idx, idx ∈ indices → in_range positions normals texcoords idx.
Proof.
  intros Hlen Hwf. split.
  - intros [b Hrun] idx Hin.
    destruct (dedup_inv_final _ _ _ indices b Hlen Hrun) as [Hv _ _].
    pose proof Hin as Hj.
    apply elem_of_first_occurrences, list_elem_of_lookup in Hj as [j Hj].
    destruct (Forall2_lookup_l _ _ _ _ _ Hv Hj) as (vert & _ & Hmk).
    apply make_vertex_Ok_iff; [by apply Hwf | by exists vert].
  - intros Hall. unfold dedup. rewrite to_int_small by lia.
    rewrite Nat2Z.id, firstn_all.
    apply dedup_corners_total. intros idx Hin.
    apply make_vertex_Ok_iff; [by apply Hwf | by apply Hall].
Qed.

(** X13. The relative numbers of the OBJ format are not resolved: a
    corner whose position or normal number is zero or negative, or
    whose texture number is negative, is cast to an index beyond any
    array of at most 2^31 elements, and the deduplicator cannot
    return. *)
Theorem dedup_fails_on_relative_numbers (indices : list int3) (idx : int3) :
  Z.of_nat (length indices) < 2 ^ 31 →
  Z.of_nat (length positions) ≤ 2 ^ 31 →
  Z.of_nat (length texcoords) ≤ 2 ^ 31 →
  Z.of_nat (length normals) ≤ 2 ^ 31 →
  idx ∈ indices →
  - 2 ^ 31 < p idx < 2 ^ 31 → - 2 ^ 31 ≤ t idx < 2 ^ 31 →
  - 2 ^ 31 < n idx < 2 ^ 31 →
  p idx ≤ 0 ∨ t idx < 0 ∨ n idx ≤ 0 →
  ∃ e, dedup positions normals texcoords indices = Err e.
Proof.
  intros Hlen Hps Hts Hns Hin Hp Ht Hn Hrel.
  destruct (dedup positions normals texcoords indices) as [b|e] eqn:Hrun;
    [exfalso|by eauto].
  destruct (dedup_inv_final _ _ _ indices b Hlen Hrun) as [Hv _ _].
  apply elem_of_first_occurrences, list_elem_of_lookup in Hin as [j Hj].
  destruct (Forall2_lookup_l _ _ _ _ _ Hv Hj) as (vert & _ & Hmk).
  unfold make_vertex in Hmk. inv_ok.
  repeat match goal with
  | Hr : read _ _ _ = Ok _ |- _ =>
      apply read_Ok in Hr as [_ Hr%lookup_lt_Some]
  end.
  rewrite !to_int_small in * by lia.
  unfold to_uint32 in *.
  destruct Hrel as [Hrel | [Hrel | Hrel]].
  - assert ((p idx - 1) mod 2 ^ 32 = p idx - 1 + 2 ^ 32) as E
      by (symmetry; apply (Z.mod_unique _ _ (-1)); lia).
    rewrite E in *. lia.
  - assert (t idx mod 2 ^ 32 = t idx + 2 ^ 32) as E
      by (symmetry; apply (Z.mod_unique _ _ (-1)); lia).
    rewrite E in *. lia.
  - assert ((n idx - 1) mod 2 ^ 32 = n idx - 1 + 2 ^ 32) as E
      by (symmetry; apply (Z.mod_unique _ _ (-1)); lia).
    rewrite E in *. lia.
Qed.

End create_mesh_total.

Lemma unreferenced_vertex_keeps_allocated_basis_witness :
  ∃ nv vj,
    calculate_tangets Example.numbered Example.quad 4 Example.quad_indices 4 3
      = Ok nv
    ∧ nv !! 3%nat = Some vj
    ∧ Vertex.tangent vj = Vertex.tangent (fresh_vertex Example.numbered 3)
    ∧ Vertex.bitangent vj = Vertex.bitangent (fresh_vertex Example.numbered 3).
Proof.
  assert (∃ nv, Example.quad_first_triangle = Ok nv) as [nv E]
    by (eexists; reflexivity).
  assert (calculate_tangets Example.numbered Example.quad 4
            Example.quad_indices 4 3 = Ok nv) as Hrun
    by (rewrite <- E; reflexivity).
  destruct (unreferenced_vertex_keeps_allocated_basis Example.numbered
              Example.quad 4 Example.quad_indices 4 3 nv 3 Hrun)
    as (vj & Hvj & Ht & Hb).
  - cbn. lia.
  - intros ii Hin (o & Ho & Hr).
    apply list_elem_of_singleton in Hin as ->.
    assert (o = 0 ∨ o = 1 ∨ o = 2) as [-> | [-> | ->]] by lia;
      vm_compute in Hr; discriminate Hr.
  - by exists nv, vj.
Defined.

Lemma ragged_index_count_reads_past_the_end_witness :
  calculate_tangets Exact.zeroed Example.quad 4 [0; 1; 2; 0] 4 4
    = Err (OutOfBounds Indices).
Proof.
  apply ragged_index_count_reads_past_the_end.
  - cbn. lia.
  - reflexivity.
  - by vm_compute.
  - intros idx Hin.
    repeat (apply elem_of_cons in Hin as [->|Hin]); try lia.
    by apply elem_of_nil in Hin.
Defined.

Lemma create_mesh_fails_only_in_dedup_witness :
  ∃ b nv,
    create_mesh Exact.zeroed Example.two_positions Example.one_position
      [tex; Example.uv_0_1] (corners Example.triangle_aba) = Ok (b, nv)
    ∧ length nv = length (v b).
Proof.
  assert (∃ b, Example.triangle_aba_deduplicated = Ok b) as [b E]
    by (eexists; reflexivity).
  assert (dedup Example.two_positions Example.one_position
            [tex; Example.uv_0_1] (corners Example.triangle_aba) = Ok b)
    as Hrun by (rewrite <- E; reflexivity).
  destruct (create_mesh_fails_only_in_dedup Exact.zeroed
              Example.two_positions Example.one_position [tex; Example.uv_0_1]
              Example.triangle_aba) as [Hok _].
  - cbn. lia.
  - destruct (Hok b Hrun) as (nv & Hmesh & Hlen). by exists b, nv.
Defined.

Lemma dedup_returns_iff_in_range_witness :
  ∃ b, dedup Example.two_positions Example.one_position [tex; Example.uv_0_1]
         [Example.corner_a; Example.corner_b; Example.corner_a] = Ok b.
Proof.
  apply dedup_returns_iff_in_range.
  - cbn. lia.
  - intros idx Hin.
    repeat (apply elem_of_cons in Hin as [->|Hin]);
      try (unfold well_formed; cbn; lia).
    by apply elem_of_nil in Hin.
  - intros idx Hin.
    repeat (apply elem_of_cons in Hin as [->|Hin]);
      try (unfold in_range; cbn; lia).
    by apply elem_of_nil in Hin.
Defined.

Lemma dedup_fails_on_relative_numbers_witness :
  ∃ e, dedup Example.two_positions Example.one_position [tex; Example.uv_0_1]
         [Example.corner_a; Example.corner_relative] = Err e.
Proof.
  apply (dedup_fails_on_relative_numbers Example.two_positions
           Example.one_position [tex; Example.uv_0_1]
           [Example.corner_a; Example.corner_relative]
           Example.corner_relative); cbn; try lia.
  right. left.
Defined.

(** ** The materials of a scene file *)

Section libraries.
Context `{FloatOps} (heap : Heap) (fs : files).

(** The counting loop of the material parser reads the number of
    materials and nothing else. *)
Lemma mtl_count_lines_shape (rs : list record) :
  ∃ res : result (Z → Z), ∀ s,
    for_each mtl_count_line rs s
    = match res with
      | Ok F =>
          Ok (SceneData.set_num_materials (F (SceneData.num_materials s)) s)
      | Err e => Err e
      end.
Proof.
  induction rs as [|r rs [res Hres]]; cbn [for_each].
  - exists (Ok (λ k, k)). intros s. by destruct s.
  - destruct (decide (String.length (first_word (line r)) < 64)%nat)
      as [Hfit|Hfit].
    + exists (match res with
              | Ok F => Ok (λ k, F (if streq (first_word (line r)) "newmtl"
                                    then to_uint32 (k + 1) else k))
              | Err e => Err e
              end).
      intros s.
      assert (mtl_count_line r s
              = Ok (if streq (first_word (line r)) "newmtl"
                    then SceneData.set_num_materials
                           (to_uint32 (SceneData.num_materials s + 1)) s
                    else s)) as ->.
      { unfold mtl_count_line. rewrite line_header_fits by done.
        cbn [mbind result_bind].
        by destruct (streq (first_word (line r)) "newmtl"). }
      cbn [mbind result_bind]. rewrite Hres.
      destruct res as [F|e]; [|done].
      destruct (streq (first_word (line r)) "newmtl"); by destruct s.
    + exists (Err (OutOfBounds LineHeader)). intros s.
      assert (mtl_count_line r s = Err (OutOfBounds LineHeader)) as ->; [|done].
      unfold mtl_count_line.
      destruct (line_header 64 (line r)) as [h|e] eqn:Hh.
      * by apply line_header_Ok in Hh as [? _].
      * by apply line_header_Err in Hh as [-> _].
Qed.

(** The material parser reads the materials of the scene and their
    number, and writes nothing else. *)
Lemma load_mtl_data_shape (data : string) (mats0 : list MaterialData.t)
    (n0 : Z) :
  ∃ res : result (list MaterialData.t * Z),
    ∀ s, SceneData.materials s = mats0 → SceneData.num_materials s = n0 →
      load_mtl_data heap data s
      = match res with
        | Ok (mats, N) =>
            Ok (SceneData.set_materials mats
                  (SceneData.set_num_materials N s))
        | Err e => Err e
        end.
Proof.
  destruct (mtl_count_lines_shape (records (Some data))) as [[F|e] HF].
  - exists (match for_each mtl_line (records (Some data))
                    (to_int n0 - 1, realloc (fresh_material heap) mats0 (F n0))
            with
            | Ok (_, mats) => Ok (mats, F n0)
            | Err e => Err e
            end).
    intros s <- <-. unfold load_mtl_data, while_lines. rewrite HF.
    cbn [mbind result_bind].
    replace (SceneData.materials (SceneData.set_num_materials
               (F (SceneData.num_materials s)) s))
      with (SceneData.materials s) by (by destruct s).
    replace (SceneData.num_materials (SceneData.set_num_materials
               (F (SceneData.num_materials s)) s))
      with (F (SceneData.num_materials s)) by (by destruct s).
    destruct (for_each mtl_line _ _) as [[cur mats]|e]; done.
  - exists (Err e). intros s _ _.
    unfold load_mtl_data, while_lines. by rewrite HF.
Qed.

Lemma load_mtl_file_same (filename : string) (s1 s1' s2 : SceneData.t) :
  same_materials s1 s2 →
  _load_mtl_file heap fs filename s1 = Ok s1' →
  ∃ s2', _load_mtl_file heap fs filename s2 = Ok s2' ∧ same_materials s1' s2'.
Proof.
  intros [Hm Hn]. unfold _load_mtl_file.
  destruct (load_file_data fs filename) as [data|e]; [|done].
  cbn [mbind result_bind].
  destruct (load_mtl_data_shape data (SceneData.materials s1)
              (SceneData.num_materials s1)) as [res Hres].
  rewrite (Hres s1), (Hres s2) by done.
  destruct res as [[mats N]|e]; [|done].
  intros [= <-]. eexists. split; [done|]. by destruct s1, s2.
Qed.

Lemma library_of_other (d : string) (r : record) :
  d ≠ "mtllib" → is_directive d r = true → library_of r = None.
Proof.
  intros Hd Hr. unfold library_of.
  by rewrite (is_directive_exclusive d "mtllib").
Qed.

(** One record of the counting loop of [_load_obj], seen on the
    materials. *)
Lemma count_line_libraries (r : record) (c c' : Counts) (s : SceneData.t) :
  count_line heap fs r c = Ok c' →
  same_materials (counted_scene c) s →
  ∃ s', for_each (_load_mtl_file heap fs) (omap library_of [r]) s = Ok s'
        ∧ same_materials (counted_scene c') s'.
Proof.
  read_header count_line. destruct c as [nv nt nn nm sc].
  cbn [counted_scene omap list_omap].
  change (streq (first_word (line r)) "v") with (is_directive "v" r).
  change (streq (first_word (line r)) "vt") with (is_directive "vt" r).
  change (streq (first_word (line r)) "vn") with (is_directive "vn" r).
  change (streq (first_word (line r)) "usemtl")
    with (is_directive "usemtl" r).
  change (streq (first_word (line r)) "mtllib")
    with (is_directive "mtllib" r).
  destruct (is_directive "v" r) eqn:Hv.
  { intros [= <-] Hs. rewrite (library_of_other "v") by done. by exists s. }
  destruct (is_directive "vt" r) eqn:Hvt.
  { intros [= <-] Hs. rewrite (library_of_other "vt") by done. by exists s. }
  destruct (is_directive "vn" r) eqn:Hvn.
  { intros [= <-] Hs. rewrite (library_of_other "vn") by done. by exists s. }
  destruct (is_directive "usemtl" r) eqn:Hu.
  { intros [= <-] Hs. rewrite (library_of_other "usemtl") by done.
    exists s. split; [done|]. destruct Hs. by destruct sc. }
  unfold library_of.
  destruct (is_directive "mtllib" r) eqn:Hl.
  - destruct (sscanf (line r) _) as [matches vs] eqn:Hs. intros Hrun Hsame.
    inv_ok.
    match goal with Hb : bool_decide _ = true |- _ =>
      apply bool_decide_eq_true in Hb; subst matches end.
    sscanf_inv Hs. inv_ok. subst c'. cbn [counted_scene for_each].
    match goal with Hl : _load_mtl_file _ _ _ _ = Ok _ |- _ =>
      destruct (load_mtl_file_same _ _ _ s Hsame Hl) as (s' & -> & Hs') end.
    by exists s'.
  - intros [= <-] Hs. by exists s.
Qed.

Lemma count_lines_libraries (rs : list record) (c c' : Counts)
    (s : SceneData.t) :
  for_each (count_line heap fs) rs c = Ok c' →
  same_materials (counted_scene c) s →
  ∃ s', for_each (_load_mtl_file heap fs) (omap library_of rs) s = Ok s'
        ∧ same_materials (counted_scene c') s'.
Proof.
  revert c s. induction rs as [|r rs IH]; intros c s; cbn [for_each].
  - intros [= <-] Hs. by exists s.
  - intros Hrun Hs. inv_ok. rename x into c1.
    match goal with Hl : count_line _ _ _ _ = Ok _ |- _ =>
      destruct (count_line_libraries _ _ _ _ Hl Hs) as (s1 & Hstep & Hs1) end.
    destruct (IH _ _ Hrun Hs1) as (s' & Hrest & Hs').
    exists s'. split; [|done].
    replace (omap library_of (r :: rs))
      with (omap library_of [r] ++ omap library_of rs)
      by (cbn [omap list_omap]; by destruct (library_of r)).
    by rewrite for_each_app, Hstep.
Qed.

(** X14. The materials [_load_obj] leaves in the scene are those of
    the libraries its [mtllib] records name, parsed one after the
    other in the order of the records into the materials the scene
    had: nothing else in the file has a part in them. *)
Theorem load_obj_materials_from_libraries
    (data : string) (scene scene' : SceneData.t) :
  load_obj_data heap fs data scene = Ok scene' →
  ∃ s, for_each (_load_mtl_file heap fs) (libraries data) scene = Ok s
       ∧ SceneData.materials scene' = SceneData.materials s
       ∧ SceneData.num_materials scene' = SceneData.num_materials s.
Proof.
  intros (c & Hcount & ->)%load_obj_data_Ok.
  unfold count_pass, while_lines in Hcount.
  destruct (count_lines_libraries _ _ _ scene Hcount) as (s & Hrun & Hm & Hn);
    [done|].
  exists s. split; [exact Hrun|].
  destruct (counted_scene c). cbn in *. by split.
Qed.

End libraries.

Lemma load_obj_materials_from_libraries_witness :
  ∃ scene' s,
    load_obj_data Exact.stale Example.with_library Example.scene_with_library
      SceneData.zero = Ok scene'
    ∧ for_each (_load_mtl_file Exact.stale Example.with_library)
        (libraries Example.scene_with_library) SceneData.zero = Ok s
    ∧ SceneData.materials scene' = SceneData.materials s
    ∧ SceneData.num_materials scene' = 2.
Proof.
  assert (∃ scene', Example.with_library_loaded = Ok scene'
                    ∧ SceneData.num_materials scene' = 2)
    as (scene' & E & Hnum) by (eexists; split; reflexivity).
  assert (load_obj_data Exact.stale Example.with_library
            Example.scene_with_library SceneData.zero = Ok scene') as Hrun
    by (rewrite <- E; reflexivity).
  destruct (load_obj_materials_from_libraries Exact.stale Example.with_library
              Example.scene_with_library SceneData.zero scene' Hrun)
    as (s & Hs & Hm & _).
  by exists scene', s.
Defined.

(** ** The two grammars of a face record *)

Section face_grammars.
Context `{FloatOps}.

Lemma scan_d_slash (rest : string) : scan_d (String "/" rest) = NoMatch.
Proof. reflexivity. Qed.

(** Both formats begin with a word, a number and a slash. Where the
    textured one goes on to store a second number, the other one
    wants a second slash and stops with two values stored. *)
Lemma second_number_or_second_slash (l : string) (ds_t ds_u : list directive) :
  (3 ≤ length (run_format
                 (D_s :: D_space :: D_d :: D_char "/" :: D_d :: ds_t) l).1)%nat →
  ∃ w z,
    run_format (D_s :: D_space :: D_d :: D_char "/" :: D_char "/" :: ds_u) l
    = ([V_s w; V_d z], false).
Proof.
  cbn [run_format]. destruct (scan_s l) as [w r1| |]; cbn [fst length];
    [|lia..].
  destruct (scan_d (skip_space r1)) as [z r3| |]; cbn [fst length]; [|lia..].
  destruct r3 as [|c r4]; cbn [fst length]; [lia|].
  destruct (Ascii.eqb "/" c); cbn [fst length]; [|lia].
  destruct (scan_d r4) as [z2 r5| |] eqn:Hd; cbn [fst length]; [|lia..].
  intros _. exists w, z.
  destruct r4 as [|c' r4']; [discriminate Hd|].
  destruct (Ascii.eqb "/" c') eqn:Hc'; [|done].
  apply Ascii.eqb_eq in Hc' as <-. by rewrite scan_d_slash in Hd.
Qed.

Lemma textured_face_Ok (textured : Z) (l : string) (tris : list Triangle) :
  textured ≠ 0 →
  face_triangles textured l = Ok tris →
  ∃ matches vs,
    sscanf l "%s %d/%d/%d %d/%d/%d %d/%d/%d %d/%d/%d\n" = (matches, vs)
    ∧ (matches = 10 ∨ matches = 13).
Proof.
  intros Ht. unfold face_triangles, scan_face.
  rewrite bool_decide_eq_true_2 by done.
  destruct (sscanf l _) as [matches vs]. intros Hrun.
  exists matches, vs. split; [done|].
  destruct (decide (matches = 10)) as [|H10]; [by left|].
  destruct (decide (matches = 13)) as [|H13]; [by right|].
  rewrite !bool_decide_eq_true_2 in Hrun by done. done.
Qed.

(** X15. The two grammars of a face record exclude each other: a
    record the loop accepts while [textured] is set is refused with
    the diagnostic when it is not set, and the other way round. So
    the faces of a file load only when their form agrees with the
    flag the attribute loop left. *)
Theorem face_grammars_exclude_each_other
    (textured : Z) (l : string) (tris : list Triangle) :
  textured ≠ 0 →
  (face_triangles textured l = Ok tris → face_triangles 0 l = cant_load)
  ∧ (face_triangles 0 l = Ok tris → face_triangles textured l = cant_load).
Proof.
  intros Ht.
  assert (Hexcl : ∀ tris', face_triangles textured l = Ok tris' →
                           face_triangles 0 l = cant_load).
  { intros tris' (matches & vs & Hs & Hm)%textured_face_Ok; [|done].
    unfold sscanf in Hs.
    match type of Hs with context [parse_format ?fmt] =>
      let ds := eval vm_compute in (parse_format fmt) in
      change (parse_format fmt) with ds in Hs end.
    unfold face_triangles, scan_face. rewrite bool_decide_eq_false_2 by lia.
    unfold sscanf.
    match goal with |- context [parse_format ?fmt] =>
      let ds := eval vm_compute in (parse_format fmt) in
      change (parse_format fmt) with ds end.
    match type of Hs with context [run_format (D_s :: D_space :: D_d
                                     :: D_char _ :: D_d :: ?ds_t) l] =>
      match goal with |- context [run_format (D_s :: D_space :: D_d
                                     :: D_char _ :: D_char _ :: ?ds_u) l] =>
        destruct (second_number_or_second_slash l ds_t ds_u)
          as (w & z & ->) end end; [|done].
    destruct (run_format _ l) as [[|v0 vs0] [|]];
      injection Hs as <- <-; cbn [fst length]; lia. }
  split; [apply Hexcl|].
  intros Hu.
  destruct (face_outcomes textured l) as [Hc|(tris' & Hok & _)]; [done|].
  apply Hexcl in Hok. rewrite Hok in Hu. discriminate Hu.
Qed.

End face_grammars.

(** ** The material of a model *)

Section model_materials.
Context `{FloatOps}.

Local Arguments isspace : simpl never.





End model_materials.

Lemma face_grammars_exclude_each_other_witness :
  face_triangles 0 "f 1/1/1 2/2/2 3/3/3" = cant_load
  ∧ face_triangles 1 "f 1//1 2//2 3//3" = cant_load.
Proof.
  split.
  - apply (face_grammars_exclude_each_other 1 "f 1/1/1 2/2/2 3/3/3"
             [ {| vertex := ({| p := 1; t := 1; n := 1 |},
                             {| p := 2; t := 2; n := 2 |},
                             {| p := 3; t := 3; n := 3 |}) |} ]);
      [lia | by vm_compute].
  - apply (face_grammars_exclude_each_other 1 "f 1//1 2//2 3//3"
             [ {| vertex := ({| p := 1; t := 0; n := 1 |},
                             {| p := 2; t := 0; n := 2 |},
                             {| p := 3; t := 0; n := 3 |}) |} ]);
      [lia | by vm_compute].
Defined.


(** ** The counters of the counting loop *)

Section counters.
Context `{FloatOps} (heap : Heap) (fs : files).

Lemma count_line_counters (r : record) (c c' : Counts) :
  count_line heap fs r c = Ok c' →
  num_total_vertices c'
    = (if is_directive "v" r then to_uint32 (num_total_vertices c + 1)
       else num_total_vertices c)
  ∧ num_total_texcoords c'
    = (if is_directive "vt" r then to_uint32 (num_total_texcoords c + 1)
       else num_total_texcoords c)
  ∧ num_total_normals c'
    = (if is_directive "vn" r then to_uint32 (num_total_normals c + 1)
       else num_total_normals c).
Proof.
  read_header count_line. destruct c as [nv nt nn nm sc].
  cbn [num_total_vertices num_total_texcoords num_total_normals].
  change (streq (first_word (line r)) "v") with (is_directive "v" r).
  change (streq (first_word (line r)) "vt") with (is_directive "vt" r).
  change (streq (first_word (line r)) "vn") with (is_directive "vn" r).
  change (streq (first_word (line r)) "usemtl")
    with (is_directive "usemtl" r).
  change (streq (first_word (line r)) "mtllib")
    with (is_directive "mtllib" r).
  destruct (is_directive "v" r) eqn:Hv.
  { rewrite (is_directive_exclusive "v" "vt"),
      (is_directive_exclusive "v" "vn") by done. by intros [= <-]. }
  destruct (is_directive "vt" r) eqn:Hvt.
  { rewrite (is_directive_exclusive "vt" "vn") by done. by intros [= <-]. }
  destruct (is_directive "vn" r) eqn:Hvn; [by intros [= <-]|].
  destruct (is_directive "usemtl" r); [by intros [= <-]|].
  destruct (is_directive "mtllib" r); [|by intros [= <-]].
  destruct (sscanf (line r) _) as [matches vs]. intros Hrun. inv_ok.
  destruct vs as [|? [|[mtl_filename| |] [|? ?]]];
    try (by injection Hrun as <-).
  inv_ok. by subst c'.
Qed.

Lemma count_lines_counters (rs : list record) (c c' : Counts) :
  for_each (count_line heap fs) rs c = Ok c' →
  (0 ≤ num_total_vertices c < 2 ^ 32 →
   num_total_vertices c'
     = to_uint32 (num_total_vertices c + Z.of_nat (directives "v" rs)))
  ∧ (0 ≤ num_total_texcoords c < 2 ^ 32 →
     num_total_texcoords c'
       = to_uint32 (num_total_texcoords c + Z.of_nat (directives "vt" rs)))
  ∧ (0 ≤ num_total_normals c < 2 ^ 32 →
     num_total_normals c'
       = to_uint32 (num_total_normals c + Z.of_nat (directives "vn" rs))).
Proof.
  unfold directives. revert c.
  induction rs as [|r rs IH]; intros c; cbn [for_each].
  - intros [= <-]. cbn. unfold to_uint32.
    repeat split; intros ?; rewrite Z.add_0_r, Z.mod_small; lia.
  - intros Hrun. inv_ok. rename x into c1.
    match goal with Hl : count_line _ _ _ _ = Ok _ |- _ =>
      apply count_line_counters in Hl as (Ev & Et & En) end.
    apply IH in Hrun as (Hv & Ht & Hn). clear IH.
    assert (∀ a, 0 ≤ to_uint32 a < 2 ^ 32) as Hr
      by (intros a; apply Z.mod_pos_bound; lia).
    rewrite !filter_cons. split; [|split]; intros Hc.
    + destruct (is_directive "v" r); rewrite Ev in Hv.
      * rewrite Hv by apply Hr.
        rewrite decide_True by done. cbn [length]. apply to_uint32_succ.
      * rewrite Hv by done. by rewrite decide_False.
    + destruct (is_directive "vt" r); rewrite Et in Ht.
      * rewrite Ht by apply Hr.
        rewrite decide_True by done. cbn [length]. apply to_uint32_succ.
      * rewrite Ht by done. by rewrite decide_False.
    + destruct (is_directive "vn" r); rewrite En in Hn.
      * rewrite Hn by apply Hr.
        rewrite decide_True by done. cbn [length]. apply to_uint32_succ.
      * rewrite Hn by done. by rewrite decide_False.
Qed.

(** X17. The sizes the counting loop hands to [reserve] and [resize],
    against what the fill loop stores from the same buffer: the
    positions and the normals fill their reservation exactly, the
    texture coordinates need one element more than was reserved, the
    default the function pushes first, and [all_triangles] gets a slot
    for every [usemtl] record (all counts taken as [uint32_t]). *)
Theorem reserved_sizes (file_data : option string) (scene : SceneData.t)
    (c : Counts) (a : Attributes) :
  count_pass heap fs file_data scene = Ok c →
  fill_pass file_data = Ok a →
  num_total_vertices c = to_uint32 (Z.of_nat (length (positions a)))
  ∧ num_total_normals c = to_uint32 (Z.of_nat (length (normals a)))
  ∧ to_uint32 (num_total_texcoords c + 1)
    = to_uint32 (Z.of_nat (length (texcoords a)))
  ∧ num_meshes c
    = to_uint32 (Z.of_nat (directives "usemtl" (records file_data))).
Proof.
  unfold count_pass, fill_pass. intros Hcount Hfill.
  pose proof (count_lines_usemtl heap fs _ _ _ Hcount) as (_ & _ & _ & _ & Hm).
  unfold while_lines in Hcount.
  apply count_lines_counters in Hcount as (Hv & Ht & Hn).
  apply fill_lines_arrays in Hfill
    as ((pos & Ep & Lp) & (nrm & En & Ln) & (tc & Et & Lt)).
  cbn [num_total_vertices num_total_texcoords num_total_normals num_meshes]
    in Hv, Ht, Hn, Hm.
  rewrite Ep, En, Et. cbn [positions normals texcoords no_attributes app length].
  rewrite Hv, Hn, Ht, Hm, Lp, Ln, Lt by lia.
  rewrite !Z.add_0_l. repeat split; try done.
  unfold to_uint32. rewrite Zplus_mod_idemp_l. f_equal. lia.
Qed.

End counters.

(** ** When the group loop ends the program *)

Section group_exit.
Context `{FloatOps}.

(** X18. The group loop ends the program with an exit status only at
    a face record it refuses: the status is 1 and the diagnostic is
    the one of that branch, so a buffer whose face records are all
    accepted never takes this way out. *)
Theorem group_pass_exits_on_refused_face (textured : Z)
    (file_data : option string) (g : Groups) (status : Z) (message : string) :
  group_pass textured file_data g = Err (Exit status message) →
  status = 1
  ∧ message = "Can't load this OBJ" +:+ String nl EmptyString
  ∧ ∃ r, r ∈ records file_data
         ∧ is_directive "f" r = true
         ∧ face_triangles textured (line r) = cant_load.
Proof.
  unfold group_pass, while_lines.
  intros (done & r & rest & g1 & Hrs & _ & Herr)%for_each_Err_inv.
  assert (r ∈ records file_data) as Hin
    by (rewrite Hrs; apply elem_of_app; right; left).
  destruct (is_directive "usemtl" r) eqn:Hu.
  { rewrite group_line_usemtl in Herr by done.
    apply bind_Err in Herr as [Herr|(? & _ & ?)]; [|done].
    apply usemtl_line_errors in Herr as [?|He]; [done|].
    repeat (apply elem_of_cons in He as [He|He]; [discriminate He|]).
    by apply elem_of_nil in He. }
  destruct (is_directive "f" r) eqn:Hf.
  - rewrite group_line_f in Herr by done.
    apply bind_Err in Herr as [Herr|(? & _ & ?)]; [|done].
    unfold f_line in Herr.
    apply bind_Err in Herr as [Herr|(tris & _ & Herr)].
    + destruct (face_outcomes textured (line r)) as [Hc|(? & Hc & _)];
        rewrite Hc in Herr; [|done].
      unfold cant_load in Herr. injection Herr as <- <-.
      split; [done|]. split; [done|]. by exists r.
    + by apply push_back_triangles_Err in Herr as [? _].
  - destruct (decide (String.length (directive_of r) < 16)%nat).
    + by rewrite group_line_other in Herr.
    + by rewrite group_line_unfit in Herr.
Qed.

End group_exit.

Lemma reserved_sizes_witness :
  ∃ c a,
    count_pass Exact.stale Exact.no_files (Some Example.v_vt_vn)
      SceneData.zero = Ok c
    ∧ fill_pass (Some Example.v_vt_vn) = Ok a
    ∧ num_total_vertices c = to_uint32 (Z.of_nat (length (positions a)))
    ∧ num_total_normals c = to_uint32 (Z.of_nat (length (normals a)))
    ∧ to_uint32 (num_total_texcoords c + 1)
      = to_uint32 (Z.of_nat (length (texcoords a)))
    ∧ num_total_texcoords c = 1.
Proof.
  assert (∃ c, Example.v_vt_vn_counted = Ok c ∧ num_total_texcoords c = 1)
    as (c & Ec & Htc) by (eexists; split; reflexivity).
  assert (∃ a, Example.v_vt_vn_filled = Ok a) as [a Ea]
    by (eexists; reflexivity).
  assert (count_pass Exact.stale Exact.no_files (Some Example.v_vt_vn)
            SceneData.zero = Ok c) as Hcount by (rewrite <- Ec; reflexivity).
  assert (fill_pass (Some Example.v_vt_vn) = Ok a) as Hfill
    by (rewrite <- Ea; reflexivity).
  destruct (reserved_sizes Exact.stale Exact.no_files (Some Example.v_vt_vn)
              SceneData.zero c a Hcount Hfill) as (Hv & Hn & Ht & _).
  by exists c, a.
Defined.

Lemma group_pass_exits_on_refused_face_witness :
  ∃ r, r ∈ records (Some Example.two_corners)
       ∧ is_directive "f" r = true
       ∧ face_triangles 0 (line r) = cant_load.
Proof.
  assert (Example.two_corners_groups
          = Err (Exit 1 ("Can't load this OBJ" +:+ String nl EmptyString)))
    as E by reflexivity.
  assert (group_pass 0 (Some Example.two_corners) Example.one_slot
          = Err (Exit 1 ("Can't load this OBJ" +:+ String nl EmptyString)))
    as Hrun by (rewrite <- E; reflexivity).
  by destruct (group_pass_exits_on_refused_face 0 (Some Example.two_corners)
                 Example.one_slot _ _ Hrun) as (_ & _ & Hr).
Defined.

(** ** What the attribute-fill loop stores, and how it fails *)

Section fill_contents.
Context `{FloatOps}.

Lemma with_directive_cons (d : string) (r : record) (rs : list record) :
  with_directive d (r :: rs)
  = (if is_directive d r then [r] else []) ++ with_directive d rs.
Proof.
  unfold with_directive. rewrite filter_cons.
  destruct (is_directive d r);
    [by rewrite decide_True | by rewrite decide_False].
Qed.

Lemma fill_line_contents (r : record) (a a' : Attributes) :
  fill_line r a = Ok a' →
  ∃ pos nrm tc,
    positions a' = positions a ++ pos
    ∧ normals a' = normals a ++ nrm
    ∧ texcoords a' = texcoords a ++ tc
    ∧ Forall2 scans_vec3 (if is_directive "v" r then [r] else []) pos
    ∧ Forall2 scans_vec3 (if is_directive "vn" r then [r] else []) nrm
    ∧ Forall2 scans_vec2 (if is_directive "vt" r then [r] else []) tc.
Proof.
  read_header fill_line. fold (directive_of r).
  fold (is_directive "v" r) (is_directive "vt" r) (is_directive "vn" r).
  destruct (is_directive "v" r) eqn:Hv.
  { rewrite (is_directive_exclusive "v" "vn"), (is_directive_exclusive "v" "vt")
      by done.
    destruct (sscanf _ _) as [matches vs] eqn:Hs. intros Hrun. inv_ok.
    match goal with Hb : bool_decide _ = true |- _ =>
      apply bool_decide_eq_true in Hb end.
    pose proof Hs as Hs'. sscanf_inv Hs'. injection Hrun as <-. cbn.
    eexists [_], [], []. rewrite !app_nil_r.
    repeat split; try constructor; try constructor.
    eexists. exact Hs. }
  destruct (is_directive "vt" r) eqn:Hvt.
  { rewrite (is_directive_exclusive "vt" "vn") by done.
    destruct (sscanf _ _) as [matches vs] eqn:Hs. intros Hrun. inv_ok.
    match goal with Hb : bool_decide _ = true |- _ =>
      apply bool_decide_eq_true in Hb end.
    pose proof Hs as Hs'. sscanf_inv Hs'. injection Hrun as <-. cbn.
    eexists [], [], [_]. rewrite !app_nil_r.
    repeat split; try constructor; try constructor.
    eexists. exact Hs. }
  destruct (is_directive "vn" r) eqn:Hvn.
  { destruct (sscanf _ _) as [matches vs] eqn:Hs. intros Hrun. inv_ok.
    match goal with Hb : bool_decide _ = true |- _ =>
      apply bool_decide_eq_true in Hb end.
    pose proof Hs as Hs'. sscanf_inv Hs'. injection Hrun as <-. cbn.
    eexists [], [_], []. rewrite !app_nil_r.
    repeat split; try constructor; try constructor.
    eexists. exact Hs. }
  intros [= <-]. exists [], [], []. rewrite !app_nil_r.
  repeat split; constructor.
Qed.

Lemma fill_lines_contents (rs : list record) (a a' : Attributes) :
  for_each fill_line rs a = Ok a' →
  ∃ pos nrm tc,
    positions a' = positions a ++ pos
    ∧ normals a' = normals a ++ nrm
    ∧ texcoords a' = texcoords a ++ tc
    ∧ Forall2 scans_vec3 (with_directive "v" rs) pos
    ∧ Forall2 scans_vec3 (with_directive "vn" rs) nrm
    ∧ Forall2 scans_vec2 (with_directive "vt" rs) tc.
Proof.
  revert a. induction rs as [|r rs IH]; intros a; cbn [for_each].
  - intros [= <-]. exists [], [], []. rewrite !app_nil_r.
    repeat split; constructor.
  - intros Hrun. inv_ok. rename x into a1.
    match goal with Hl : fill_line _ _ = Ok _ |- _ =>
      apply fill_line_contents in Hl
        as (p1 & n1 & t1 & Ep1 & En1 & Et1 & Fp1 & Fn1 & Ft1) end.
    apply IH in Hrun as (p2 & n2 & t2 & Ep2 & En2 & Et2 & Fp2 & Fn2 & Ft2).
    exists (p1 ++ p2), (n1 ++ n2), (t1 ++ t2).
    rewrite Ep2, En2, Et2, Ep1, En1, Et1, <- !app_assoc, !with_directive_cons.
    repeat split; by apply Forall2_app.
Qed.

(** X19. The attribute-fill loop stores the numbers of the records in
    the order of the file: the positions are the vectors of the [v]
    records, the normals those of the [vn] records, and the texture
    coordinates are the default followed by the vectors of the [vt]
    records, each as [sscanf] reads it from its record. *)
Theorem fill_pass_contents (file_data : option string) (a : Attributes) :
  fill_pass file_data = Ok a →
  Forall2 scans_vec3 (with_directive "v" (records file_data)) (positions a)
  ∧ Forall2 scans_vec3 (with_directive "vn" (records file_data)) (normals a)
  ∧ ∃ declared,
      texcoords a = tex :: declared
      ∧ Forall2 scans_vec2 (with_directive "vt" (records file_data)) declared.
Proof.
  unfold fill_pass, while_lines.
  intros (pos & nrm & tc & -> & -> & -> & Fp & Fn & Ft)%fill_lines_contents.
  cbn. split; [done|]. split; [done|]. by exists tc.
Qed.

(** X20. The attribute-fill loop fails in two ways only: on an
    assertion, at a [v], [vt] or [vn] record from which [sscanf] does
    not get its word and all of its numbers, or past the end of
    [line_header], at a record whose first word has 16 characters or
    more. *)
Theorem fill_pass_fails_by_assertion (file_data : option string) (e : error) :
  fill_pass file_data = Err e →
  ∃ r, r ∈ records file_data
       ∧ (e = AssertFailed
          ∧ (is_directive "v" r = true
             ∧ (sscanf (line r) "%s %f %f %f\n").1 ≠ 4
             ∨ is_directive "vt" r = true
               ∧ (sscanf (line r) "%s %f %f\n").1 ≠ 3
             ∨ is_directive "vn" r = true
               ∧ (sscanf (line r) "%s %f %f %f\n").1 ≠ 4)
          ∨ e = OutOfBounds LineHeader
            ∧ (16 ≤ String.length (directive_of r))%nat).
Proof.
  unfold fill_pass, while_lines.
  intros (done & r & rest & a1 & Hrs & _ & Herr)%for_each_Err_inv.
  assert (r ∈ records file_data) as Hin
    by (rewrite Hrs; apply elem_of_app; right; left).
  exists r. split; [done|].
  unfold fill_line in Herr.
  apply bind_Err in Herr as [[-> Hlong]%line_header_Err|(h & Hh & Herr)].
  { right. split; [done|]. unfold directive_of. lia. }
  apply line_header_Ok in Hh as [_ ->]. left.
  fold (directive_of r) in Herr.
  fold (is_directive "v" r) (is_directive "vt" r) (is_directive "vn" r)
    in Herr.
  assert (Hstep : ∀ (matches k : Z) (tail : result Attributes),
            (_ ← assert (bool_decide (matches = k)); tail) = Err e →
            (∀ e', tail ≠ Err e') →
            e = AssertFailed ∧ matches ≠ k).
  { intros matches k tail [Ha|(? & _ & Ht)]%bind_Err Hnever.
    - apply assert_Err in Ha as [Hb%bool_decide_eq_false ->]. done.
    - by apply Hnever in Ht. }
  destruct (is_directive "v" r) eqn:Hv.
  { destruct (sscanf (line r) _) as [matches vs] eqn:Hs.
    apply Hstep in Herr as [-> Hne]; [|intros e'; by repeat case_match].
    split; [done|]. by left. }
  destruct (is_directive "vt" r) eqn:Hvt.
  { destruct (sscanf (line r) _) as [matches vs] eqn:Hs.
    apply Hstep in Herr as [-> Hne]; [|intros e'; by repeat case_match].
    split; [done|]. right. by left. }
  destruct (is_directive "vn" r) eqn:Hvn; [|done].
  destruct (sscanf (line r) _) as [matches vs] eqn:Hs.
  apply Hstep in Herr as [-> Hne]; [|intros e'; by repeat case_match].
  split; [done|]. right. by right.
Qed.

End fill_contents.

Lemma fill_pass_contents_witness :
  ∃ a,
    fill_pass (Some Example.v_vt_vn) = Ok a
    ∧ Forall2 scans_vec3
        (with_directive "v" (records (Some Example.v_vt_vn))) (positions a)
    ∧ Forall2 scans_vec3
        (with_directive "vn" (records (Some Example.v_vt_vn))) (normals a)
    ∧ ∃ declared,
        texcoords a = tex :: declared
        ∧ Forall2 scans_vec2
            (with_directive "vt" (records (Some Example.v_vt_vn))) declared.
Proof.
  assert (∃ a, Example.v_vt_vn_filled = Ok a) as [a E]
    by (eexists; reflexivity).
  assert (fill_pass (Some Example.v_vt_vn) = Ok a) as Hrun
    by (rewrite <- E; reflexivity).
  exists a. split; [exact Hrun|].
  exact (fill_pass_contents (Some Example.v_vt_vn) a Hrun).
Defined.

Lemma fill_pass_fails_by_assertion_witness :
  fill_pass (Some Example.short_v) = Err AssertFailed
  ∧ ∃ r, r ∈ records (Some Example.short_v)
         ∧ (AssertFailed = AssertFailed
            ∧ (is_directive "v" r = true
               ∧ (sscanf (line r) "%s %f %f %f\n").1 ≠ 4
               ∨ is_directive "vt" r = true
                 ∧ (sscanf (line r) "%s %f %f\n").1 ≠ 3
               ∨ is_directive "vn" r = true
                 ∧ (sscanf (line r) "%s %f %f %f\n").1 ≠ 4)
            ∨ AssertFailed = OutOfBounds LineHeader
              ∧ (16 ≤ String.length (directive_of r))%nat).
Proof.
  assert (Example.short_v_filled = Err AssertFailed) as E by reflexivity.
  assert (fill_pass (Some Example.short_v) = Err AssertFailed) as Hrun
    by (rewrite <- E; reflexivity).
  split; [exact Hrun|].
  exact (fill_pass_fails_by_assertion (Some Example.short_v)
           AssertFailed Hrun).
Defined.

(** ** The name of a material *)

Section material_names.
Context `{FloatOps} (heap : Heap).



End material_names.


